(** * Adobe-Lookup: the data ingestion and query engine, embedded in Rocq

    A shallow embedding of the engine that three API routes implement: the
    internal query route (part_005), the public route
    [src/app/api/v1/query/route.ts], and the count route (part_006), with the
    PIN check of the login route (part_003); followed by the properties of it
    that the specification states (Part III) and by further properties of the
    code (Part IV).

    Conventions of the embedding.
    - A JavaScript string is a Rocq [string], read as a sequence of code units in
      the range U+0000..U+00FF.  [length], [trim], [toLowerCase], [includes] and
      the comparison operators are exact on that range.
    - [undefined] is [None]: a value of TypeScript type [string | undefined] is an
      [option string].
    - A JavaScript [Map] is an association list in insertion order ([JsMap]); a
      [Set] of strings is a list of strings.
    - Calendar dates are year/month/day triples: the time of day and the time
      zone of the JavaScript [Date] play no part in the ['yyyyMMdd'] format.
    - JavaScript numbers are binary64 floats ([SpecFloat], precision 53,
      [emax] 1024) wherever the source does non-integer arithmetic. *)

From Stdlib Require Import Strings.String Strings.Ascii Lists.List.
From Stdlib Require Import ZArith.ZArith Arith.PeanoNat Bool.Bool micromega.Lia.
From Stdlib Require Import Floats.SpecFloat.
Import ListNotations.
Open Scope string_scope.
Open Scope nat_scope.

(* ================================================================== *)
(** * Part I.  The embedding                                            *)
(* ================================================================== *)

(** ** JavaScript strings *)

Module Js.

(** The double quote, built from its code (a literal cannot hold it). *)
Definition dquote : ascii := ascii_of_nat 34.
Definition comma : ascii := ascii_of_nat 44.
Definition CR : ascii := ascii_of_nat 13.
Definition LF : ascii := ascii_of_nat 10.

(** A string used as a condition: the empty string is the only falsy one. *)
Definition truthy (s : string) : bool :=
  match s with EmptyString => false | String _ _ => true end.

(** [x || d] on [string | undefined]. *)
Definition orElse (o : option string) (d : string) : string :=
  match o with
  | Some s => if truthy s then s else d
  | None => d
  end.

(** A [string | undefined] used as a condition. *)
Definition truthyOpt (o : option string) : bool :=
  match o with Some s => truthy s | None => false end.

(** WhiteSpace and LineTerminator code points below U+0100: TAB, LF, VT, FF,
    CR, SPACE and NBSP.  [trim], the regular expression class [\s] and the
    prefix that [parseInt] skips all use this set. *)
Definition isWhiteSpace (c : ascii) : bool :=
  let n := nat_of_ascii c in
  ((9 <=? n) && (n <=? 13)) || (n =? 32) || (n =? 160).

Fixpoint trimStart (s : string) : string :=
  match s with
  | EmptyString => EmptyString
  | String c s' => if isWhiteSpace c then trimStart s' else s
  end.

Fixpoint trimEnd (s : string) : string :=
  match s with
  | EmptyString => EmptyString
  | String c s' =>
      match trimEnd s' with
      | EmptyString => if isWhiteSpace c then EmptyString else String c EmptyString
      | t => String c t
      end
  end.

Definition trim (s : string) : string := trimEnd (trimStart s).

(** [toLowerCase] on one code unit: A-Z, and the Latin-1 capitals U+00C0..U+00DE
    except the multiplication sign U+00D7. *)
Definition lowerChar (c : ascii) : ascii :=
  let n := nat_of_ascii c in
  if ((65 <=? n) && (n <=? 90)) || ((192 <=? n) && (n <=? 222) && negb (n =? 215))
  then ascii_of_nat (n + 32) else c.

Fixpoint toLowerCase (s : string) : string :=
  match s with
  | EmptyString => EmptyString
  | String c s' => String (lowerChar c) (toLowerCase s')
  end.

Fixpoint startsWith (s p : string) {struct p} : bool :=
  match p, s with
  | EmptyString, _ => true
  | String _ _, EmptyString => false
  | String a p', String b s' => Ascii.eqb a b && startsWith s' p'
  end.

Fixpoint endsWith_fuel (n : nat) (s p : string) : bool :=
  match n with
  | O => String.eqb s p
  | S n' => match s with
            | EmptyString => String.eqb s p
            | String _ s' => endsWith_fuel n' s' p
            end
  end.

(** [s.endsWith(p)]: drop [s.length - p.length] code units and compare. *)
Definition endsWith (s p : string) : bool :=
  (String.length p <=? String.length s) &&
  endsWith_fuel (String.length s - String.length p) s p.

(** [s.includes(t)]: [t] occurs in [s] at some position. *)
Fixpoint includes (s t : string) : bool :=
  startsWith s t ||
  match s with
  | EmptyString => false
  | String _ s' => includes s' t
  end.

(** [s <= t] on strings: lexicographic on code units. *)
Fixpoint leb (s t : string) : bool :=
  match s, t with
  | EmptyString, _ => true
  | String _ _, EmptyString => false
  | String a s', String b t' =>
      let x := nat_of_ascii a in
      let y := nat_of_ascii b in
      if x <? y then true else if y <? x then false else leb s' t'
  end.

Fixpoint join (sep : string) (l : list string) : string :=
  match l with
  | [] => EmptyString
  | [x] => x
  | x :: rest => x ++ sep ++ join sep rest
  end.

(** [s.split(c)] for a one-character separator: always at least one piece. *)
Fixpoint split_loop (sep : ascii) (s : string) (cur : string) : list string :=
  match s with
  | EmptyString => [cur]
  | String c s' =>
      if Ascii.eqb c sep then cur :: split_loop sep s' EmptyString
      else split_loop sep s' (cur ++ String c EmptyString)
  end.

Definition split (sep : ascii) (s : string) : list string :=
  split_loop sep s EmptyString.

(** [s.split(/\r?\n/)]: a line feed ends a piece, and a carriage return right
    before it belongs to the separator. *)
Fixpoint splitLines_loop (s : string) (cur : string) : list string :=
  match s with
  | EmptyString => [cur]
  | String c s' =>
      if Ascii.eqb c LF then cur :: splitLines_loop s' EmptyString
      else
        match s' with
        | String c2 s'' =>
            if Ascii.eqb c CR && Ascii.eqb c2 LF
            then cur :: splitLines_loop s'' EmptyString
            else splitLines_loop s' (cur ++ String c EmptyString)
        | EmptyString => [cur ++ String c EmptyString]
        end
  end.

Definition splitLines (s : string) : list string :=
  splitLines_loop s EmptyString.

Definition isDigit (c : ascii) : bool :=
  let n := nat_of_ascii c in (48 <=? n) && (n <=? 57).

Definition digitVal (c : ascii) : Z := Z.of_nat (nat_of_ascii c - 48).

Definition isAlnum (c : ascii) : bool :=
  let n := nat_of_ascii c in
  ((48 <=? n) && (n <=? 57)) || ((65 <=? n) && (n <=? 90)) || ((97 <=? n) && (n <=? 122)).

(** The longest prefix of [s] whose code units satisfy [p], and the rest. *)
Fixpoint span (p : ascii -> bool) (s : string) : string * string :=
  match s with
  | EmptyString => (EmptyString, EmptyString)
  | String c s' =>
      if p c then let '(a, b) := span p s' in (String c a, b)
      else (EmptyString, s)
  end.

(** The value of a string of decimal digits, most significant first. *)
Fixpoint digitsValue_loop (s : string) (acc : Z) : Z :=
  match s with
  | EmptyString => acc
  | String c s' => digitsValue_loop s' (10 * acc + digitVal c)%Z
  end.

Definition digitsValue (s : string) : Z := digitsValue_loop s 0%Z.

(** [parseInt(s, 10)]: skip leading white space, read an optional sign, then
    the longest run of decimal digits; [None] is NaN (no digit read).  The
    result is the exact integer: the source only compares it with constants
    or converts it to a binary64 afterwards. *)
Definition parseInt (s : string) : option Z :=
  let s1 := trimStart s in
  let '(neg, s2) :=
    match s1 with
    | String c rest =>
        if Ascii.eqb c "-"%char then (true, rest)
        else if Ascii.eqb c "+"%char then (false, rest)
        else (false, s1)
    | EmptyString => (false, s1)
    end in
  let '(ds, _) := span isDigit s2 in
  match ds with
  | EmptyString => None
  | String _ _ => Some (if neg then - digitsValue ds else digitsValue ds)%Z
  end.

(** The regular expression [/^\s*,*\s*$/]. *)
Definition onlyCommasAndSpace (s : string) : bool :=
  let '(_, r1) := span isWhiteSpace s in
  let '(_, r2) := span (fun c => Ascii.eqb c comma) r1 in
  let '(_, r3) := span isWhiteSpace r2 in
  negb (truthy r3).

(** [s.match(/^([a-zA-Z0-9]+)/)?.[1] ?? ''], the leading alphanumeric run. *)
Definition leadingAlnum (s : string) : string := fst (span isAlnum s).

End Js.

(** ** JavaScript [Map] *)

Module JsMap.

(** Entries in insertion order.  A key written twice keeps its first position
    and takes the new value, as [Map.prototype.set] does. *)
Definition t (V : Type) : Type := list (string * V).

Definition empty {V : Type} : t V := [].

Fixpoint get {V : Type} (k : string) (m : t V) : option V :=
  match m with
  | [] => None
  | (k', v) :: m' => if String.eqb k' k then Some v else get k m'
  end.

Definition has {V : Type} (k : string) (m : t V) : bool :=
  match get k m with Some _ => true | None => false end.

Fixpoint set {V : Type} (k : string) (v : V) (m : t V) : t V :=
  match m with
  | [] => [(k, v)]
  | (k', v') :: m' =>
      if String.eqb k' k then (k, v) :: m' else (k', v') :: set k v m'
  end.

Definition keys {V : Type} (m : t V) : list string := map fst m.
Definition values {V : Type} (m : t V) : list V := map snd m.
Definition entries {V : Type} (m : t V) : list (string * V) := m.
Definition size {V : Type} (m : t V) : nat := List.length m.

(** What every [Map] satisfies: no key occurs twice. *)
Definition wf {V : Type} (m : t V) : Prop := NoDup (keys m).

End JsMap.

(** A [Set<string>]. *)
Module JsSet.
Definition t : Type := list string.
Definition empty : t := [].
Definition has (x : string) (s : t) : bool := existsb (String.eqb x) s.
Definition add (x : string) (s : t) : t := if has x s then s else (s ++ [x])%list.
End JsSet.

(** ** Node's [path.basename] (POSIX) *)

Module NodePath.

(** Drop trailing slashes, then keep what follows the last slash. *)
Fixpoint lastComponent_loop (s : string) (cur : string) (last : string) : string :=
  match s with
  | EmptyString => if Js.truthy cur then cur else last
  | String c s' =>
      if Ascii.eqb c "/"%char
      then lastComponent_loop s' EmptyString (if Js.truthy cur then cur else last)
      else lastComponent_loop s' (cur ++ String c EmptyString) last
  end.

Definition lastComponent (p : string) : string :=
  lastComponent_loop p EmptyString EmptyString.

(** [path.basename(p, ext)].  With a non-empty [ext] no longer than [p]: the
    empty string when [p] is [ext]; [p] itself when it holds slashes only;
    otherwise the last component, without [ext] when the component ends with
    it and is longer than it.  In every other case the last component. *)
Definition basename (p ext : string) : string :=
  let c := lastComponent p in
  if Js.truthy ext && (String.length ext <=? String.length p) then
    if String.eqb p ext then EmptyString
    else if negb (Js.truthy c) then p
    else if Js.endsWith c ext && negb (String.eqb c ext)
    then String.substring 0 (String.length c - String.length ext) c
    else c
  else c.

End NodePath.

(** ** The functions of [date-fns] that the engine calls

    [parse(s, 'yyyyMMdd', ref)], [isValid], [addMonths], [addYears] and
    [format(d, 'yyyyMMdd')], after the library's documentation and sources.
    An invalid [Date] is [None]. *)

Module DateFns.

Open Scope Z_scope.

Record date : Type := mkDate { year : Z; month : Z; day : Z }.

Definition isLeapYearIndex (y : Z) : bool :=
  (y mod 400 =? 0) || ((y mod 4 =? 0) && negb (y mod 100 =? 0)).

Definition daysInMonth (y m : Z) : Z :=
  if m =? 2 then (if isLeapYearIndex y then 29 else 28)
  else if (m =? 4) || (m =? 6) || (m =? 9) || (m =? 11) then 30
  else 31.

(** Days since 1970-01-01 of a civil date. *)
Definition daysFromCivil (y m d : Z) : Z :=
  let y' := if m <=? 2 then y - 1 else y in
  let era := y' / 400 in
  let yoe := y' - era * 400 in
  let mp := if 2 <? m then m - 3 else m + 9 in
  let doy := (153 * mp + 2) / 5 + d - 1 in
  let doe := yoe * 365 + yoe / 4 - yoe / 100 + doy in
  era * 146097 + doe - 719468.

(** A [Date] holds at most 100,000,000 days on either side of the epoch. *)
Definition inRange (y m d : Z) : bool :=
  let n := daysFromCivil y m d in (-100000000 <=? n) && (n <=? 100000000).

(** [parseNDigits(n, s)], the pattern [/^\d{1,n}/]: between one and [n]
    leading digits, as many as there are. *)
Fixpoint takeDigits (n : nat) (s : string) : string * string :=
  match n, s with
  | S n', String c s' =>
      if Js.isDigit c then let '(a, b) := takeDigits n' s' in (String c a, b)
      else (EmptyString, s)
  | _, _ => (EmptyString, s)
  end.

Definition parseNDigits (n : nat) (s : string) : option (Z * string) :=
  let '(ds, rest) := takeDigits n s in
  if Js.truthy ds then Some (Js.digitsValue ds, rest) else None.

Fixpoint allWhiteSpace (s : string) : bool :=
  match s with
  | EmptyString => true
  | String c s' => Js.isWhiteSpace c && allWhiteSpace s'
  end.

(** [parse(s, 'yyyyMMdd', new Date())]: the year, month and day tokens are read
    in turn, nothing but white space may follow, and the setters validate
    [year > 0], [1 <= month <= 12] and the day against the month's length. *)
Definition parse_yyyyMMdd (s : string) : option date :=
  match parseNDigits 4 s with
  | None => None
  | Some (y, r1) =>
      match parseNDigits 2 r1 with
      | None => None
      | Some (m, r2) =>
          match parseNDigits 2 r2 with
          | None => None
          | Some (d, r3) =>
              if negb (allWhiteSpace r3) then None
              else if negb (0 <? y) then None
              else if negb ((1 <=? m) && (m <=? 12)) then None
              else if negb ((1 <=? d) && (d <=? daysInMonth y m)) then None
              else Some (mkDate y m d)
          end
      end
  end.

(** [addMonths(d, amount)]: the day of the month is kept unless the desired
    month is shorter, in which case the result is that month's last day.  The
    result is invalid when the end of the desired month is out of range. *)
Definition addMonths (d : date) (amount : Z) : option date :=
  if amount =? 0 then Some d
  else
    let idx := year d * 12 + (month d - 1) + amount in
    let y' := idx / 12 in
    let m' := idx mod 12 + 1 in
    let dim := daysInMonth y' m' in
    if negb (inRange y' m' dim) then None
    else if dim <=? day d then Some (mkDate y' m' dim)
    else Some (mkDate y' m' (day d)).

(** [addYears(d, amount)] is [addMonths(d, amount * 12)]. *)
Definition addYears (d : date) (amount : Z) : option date :=
  addMonths d (amount * 12).

Definition digitChar (n : Z) : ascii := ascii_of_nat (48 + Z.to_nat n).

(** [String(n)] for a natural number. *)
Fixpoint decimal_loop (fuel : nat) (n : Z) (acc : string) : string :=
  match fuel with
  | O => acc
  | S f =>
      let acc' := String (digitChar (n mod 10)) acc in
      if n <? 10 then acc' else decimal_loop f (n / 10) acc'
  end.

Definition decimal (n : Z) : string :=
  decimal_loop (S (Z.to_nat (Z.log2 n))) n EmptyString.

Fixpoint zeros (k : nat) : string :=
  match k with
  | O => EmptyString
  | S k' => String "0"%char (zeros k')
  end.

(** [addLeadingZeros(n, len)] for [n >= 0]: [String(n).padStart(len, '0')]. *)
Definition addLeadingZeros (n : Z) (len : nat) : string :=
  let s := decimal n in
  (zeros (len - String.length s) ++ s)%string.

(** [format(d, 'yyyyMMdd')] of a valid date. *)
Definition format_yyyyMMdd (d : date) : string :=
  let y := if 0 <? year d then year d else 1 - year d in
  (addLeadingZeros y 4 ++ addLeadingZeros (month d) 2 ++ addLeadingZeros (day d) 2)%string.

End DateFns.

(** ** Data model *)

(** A [CsvRow] is an object used as a map from column name to value;
    [row[k]] is [prop k row]. *)
Definition CsvRow : Type := JsMap.t string.

Definition prop (k : string) (row : CsvRow) : option string := JsMap.get k row.

(** [row[k]?.trim()]. *)
Definition propTrim (k : string) (row : CsvRow) : option string :=
  option_map Js.trim (prop k row).

Record OrgConf : Type := mkOrgConf { orgName : string; subDetails : string }.

Record DataSource : Type := mkDataSource {
  baseName : string;
  dataMap : JsMap.t CsvRow
}.

(** The aggregate of part_005.  The v1 route's [AppData] has no [paymentMap];
    it is embedded with an empty one. *)
Record AppData : Type := mkAppData {
  dataSources : list DataSource;
  additionalMap : JsMap.t CsvRow;
  paymentMap : JsMap.t CsvRow;
  confData : JsMap.t OrgConf
}.

Definition EXPECTED_MAIN_HEADERS : list string := ["Email"; "Product Configurations"].
Definition EXPECTED_ADDITIONAL_HEADERS : list string :=
  ["Email"; "Approver"; "rat"; "pov"; "Org"].
Definition EXPECTED_PAYMENT_HEADERS : list string :=
  ["Email"; "PaymentDate"; "Approver"; "pov"].
Definition ADDITIONAL_CSV_BASENAME : string := "additional".
Definition PAYMENT_CSV_BASENAME : string := "payment".
Definition USER_CONF_FILENAME : string := "user.conf".
Definition USERID_CONF_FILENAME : string := "userid.conf".
Definition API_PWD_FILENAME : string := "apipwd.conf".

(** ** CSV line parser ([parseCsvLine], the same text in all three routes) *)

Fixpoint parseCsvLine_loop (line : string) (currentVal : string) (inQuotes : bool)
  (values : list string) : list string :=
  match line with
  | EmptyString => (values ++ [currentVal])%list
  | String char rest =>
      if Ascii.eqb char Js.dquote then
        match inQuotes, rest with
        | true, String next rest' =>
            if Ascii.eqb next Js.dquote
            then parseCsvLine_loop rest' (currentVal ++ String Js.dquote EmptyString) inQuotes values
            else parseCsvLine_loop rest currentVal (negb inQuotes) values
        | _, _ => parseCsvLine_loop rest currentVal (negb inQuotes) values
        end
      else if Ascii.eqb char Js.comma && negb inQuotes
      then parseCsvLine_loop rest EmptyString inQuotes (values ++ [currentVal])%list
      else parseCsvLine_loop rest (currentVal ++ String char EmptyString) inQuotes values
  end.

Definition parseCsvLine (line : string) : list string :=
  map Js.trim (parseCsvLine_loop line EmptyString false []).

(** ** Tabular loader ([parseCsvData] of part_005 and of the v1 route) *)

(** [headers.indexOf(h)]. *)
Fixpoint indexOf (h : string) (headers : list string) : option nat :=
  match headers with
  | [] => None
  | x :: rest =>
      if String.eqb x h then Some 0
      else option_map S (indexOf h rest)
  end.

(** [l.includes(x)] on an array of strings. *)
Definition arrayIncludes (x : string) (l : list string) : bool :=
  existsb (String.eqb x) l.

(** The [headers.forEach] that fills a row: [row[header] = (values[index] ?? '').trim()],
    and [rowHasData] records whether some value is non-empty. *)
Fixpoint fillRow (headers : list string) (index : nat) (values : list string)
  (row : CsvRow) (rowHasData : bool) : CsvRow * bool :=
  match headers with
  | [] => (row, rowHasData)
  | header :: rest =>
      let value := Js.trim (nth index values EmptyString) in
      fillRow rest (S index) values (JsMap.set header value row)
              (if Js.truthy value then true else rowHasData)
  end.

(** The body of the loop over data lines: the row the line contributes, or
    [None] when the line is skipped ([continue], or [rowHasData] false). *)
Definition dataLine (headers : list string) (emailHeaderName : string) (line : string)
  : option CsvRow :=
  if negb (Js.truthy line) || Js.onlyCommasAndSpace line then None
  else
    let values := parseCsvLine line in
    if List.length values <? List.length headers then None
    else
      match indexOf emailHeaderName headers with
      | None => None
      | Some emailIndex =>
          if negb (Js.truthy (nth emailIndex values EmptyString)) then None
          else
            let '(row, rowHasData) := fillRow headers 0 values JsMap.empty false in
            if rowHasData then Some row else None
      end.

(** [for (let i = 1; i < lines.length; i++)] with [data.push(row)]. *)
Fixpoint dataLoop (headers : list string) (emailHeaderName : string)
  (lines : list string) (data : list CsvRow) : list CsvRow :=
  match lines with
  | [] => data
  | line :: rest =>
      match dataLine headers emailHeaderName line with
      | Some row => dataLoop headers emailHeaderName rest (data ++ [row])%list
      | None => dataLoop headers emailHeaderName rest data
      end
  end.

(** [text.startsWith('\uFEFF') ? text.substring(1) : text].  U+FEFF is not a
    code unit of the embedding's strings, so the test is false on every text
    of the model. *)
Definition stripBOM (text : string) : string := text.

(** What [parseCsvData] does once the text is split into lines. *)
Definition parseCsvLines (lines : list string) (filePathForLogging : string)
  (expectedHeaders : list string) : list CsvRow :=
  match lines with
  | [] => []
  | line0 :: dataLines =>
      if negb (Js.truthy (Js.trim line0)) then []
      else
        let headers := filter Js.truthy (map Js.trim (parseCsvLine line0)) in
        if List.length headers =? 0 then []
        else
          let lowerCaseHeaders := map Js.toLowerCase headers in
          let missingHeaders :=
            filter (fun eh => negb (arrayIncludes (Js.toLowerCase eh) lowerCaseHeaders))
                   expectedHeaders in
          let isAdditionalFile := Js.includes filePathForLogging ADDITIONAL_CSV_BASENAME in
          let isOrgHeaderOptional :=
            isAdditionalFile &&
            forallb (fun h => String.eqb (Js.toLowerCase h) "org") missingHeaders in
          if (0 <? List.length missingHeaders) && negb isOrgHeaderOptional then []
          else if List.length lines =? 1 then []
          else
            match find (fun h => String.eqb (Js.toLowerCase h) "email") headers with
            | None => []
            | Some emailHeaderName => dataLoop headers emailHeaderName dataLines []
            end
  end.

(** [parseCsvData(text, filePathForLogging, expectedHeaders)].  Nothing in the
    body throws on a string, so the two [catch] blocks are never entered. *)
Definition parseCsvData (text : string) (filePathForLogging : string)
  (expectedHeaders : list string) : list CsvRow :=
  let cleanText := stripBOM text in
  parseCsvLines (Js.splitLines (Js.trim cleanText)) filePathForLogging expectedHeaders.

Definition getBaseName (filePath : string) : string :=
  Js.leadingAlnum (NodePath.basename filePath ".csv").

(** ** The directory of flat files *)

(** [public/] as [fs.readdir] lists it: each file name with its text, or [None]
    when [fs.readFile] rejects.  A failed [readdir] is the empty directory. *)
Definition Directory : Type := list (string * option string).

Definition readdir (dir : Directory) : list string := map fst dir.

Definition readFile (dir : Directory) (name : string) : option string :=
  match find (fun e => String.eqb (fst e) name) dir with
  | Some (_, text) => text
  | None => None
  end.

(** [data.forEach(row => { const key = row['Email']?.trim().toLowerCase();
    if (key) map.set(key, row); })]. *)
Fixpoint indexRows (data : list CsvRow) (m : JsMap.t CsvRow) : JsMap.t CsvRow :=
  match data with
  | [] => m
  | row :: rest =>
      match option_map Js.toLowerCase (propTrim "Email" row) with
      | Some key => indexRows rest (if Js.truthy key then JsMap.set key row m else m)
      | None => indexRows rest m
      end
  end.

(** The loop over [confFiles]: [confData] and [knownBaseNames]. *)
Fixpoint loadConfFiles (dir : Directory) (confFiles : list string)
  (confData : JsMap.t OrgConf) (knownBaseNames : JsSet.t)
  : JsMap.t OrgConf * JsSet.t :=
  match confFiles with
  | [] => (confData, knownBaseNames)
  | confFile :: rest =>
      let baseName := getBaseName confFile in
      match readFile dir confFile with
      | None => loadConfFiles dir rest confData knownBaseNames
      | Some text =>
          match Js.split Js.comma text with
          | orgName :: subDetailsParts =>
              if Js.truthy orgName && (0 <? List.length subDetailsParts)
              then loadConfFiles dir rest
                     (JsMap.set baseName
                        (mkOrgConf (Js.trim orgName)
                                   (Js.trim (Js.join "," subDetailsParts)))
                        confData)
                     (JsSet.add baseName knownBaseNames)
              else loadConfFiles dir rest confData knownBaseNames
          | [] => loadConfFiles dir rest confData knownBaseNames
          end
      end
  end.

(** The loop over [mainCsvFiles]: [groupedData]. *)
Fixpoint loadMainCsvFiles (dir : Directory) (knownBaseNames : JsSet.t)
  (mainCsvFiles : list string) (groupedData : JsMap.t (list CsvRow))
  : JsMap.t (list CsvRow) :=
  match mainCsvFiles with
  | [] => groupedData
  | csvFile :: rest =>
      let baseName := getBaseName csvFile in
      if JsSet.has baseName knownBaseNames then
        match readFile dir csvFile with
        | None => loadMainCsvFiles dir knownBaseNames rest groupedData
        | Some csvText =>
            if negb (Js.truthy (Js.trim csvText))
            then loadMainCsvFiles dir knownBaseNames rest groupedData
            else
              let data := parseCsvData csvText csvFile EXPECTED_MAIN_HEADERS in
              if 0 <? List.length data then
                let existingData :=
                  match JsMap.get baseName groupedData with
                  | Some l => l
                  | None => []
                  end in
                loadMainCsvFiles dir knownBaseNames rest
                  (JsMap.set baseName (existingData ++ data)%list groupedData)
              else loadMainCsvFiles dir knownBaseNames rest groupedData
        end
      else loadMainCsvFiles dir knownBaseNames rest groupedData
  end.

(** [Array.from(groupedData.entries()).map(...)]. *)
Definition buildDataSources (groupedData : JsMap.t (list CsvRow)) : list DataSource :=
  map (fun '(baseName, data) => mkDataSource baseName (indexRows data JsMap.empty))
      (JsMap.entries groupedData).

(** The additional and the payment file: an index of the rows of the first
    file with that base name, empty when there is none or it cannot be read. *)
Definition loadSpecialCsv (dir : Directory) (csvFile : option string)
  (expectedHeaders : list string) : JsMap.t CsvRow :=
  match csvFile with
  | None => JsMap.empty
  | Some f =>
      match readFile dir f with
      | None => JsMap.empty
      | Some csvText =>
          if Js.truthy (Js.trim csvText)
          then indexRows (parseCsvData csvText f expectedHeaders) JsMap.empty
          else JsMap.empty
      end
  end.

(** *** [loadAndProcessData] of part_005 *)

Module QueryRoute.

Definition loadAndProcessData (dir : Directory) : AppData :=
  let publicFiles := readdir dir in
  let confFiles :=
    filter (fun f => Js.endsWith f ".conf"
                     && negb (String.eqb f USER_CONF_FILENAME)
                     && negb (String.eqb f USERID_CONF_FILENAME)) publicFiles in
  let '(confData, knownBaseNames) := loadConfFiles dir confFiles JsMap.empty JsSet.empty in
  let csvFiles := filter (fun f => Js.endsWith f ".csv") publicFiles in
  let mainCsvFiles :=
    filter (fun f => negb (arrayIncludes (getBaseName f)
                             [ADDITIONAL_CSV_BASENAME; PAYMENT_CSV_BASENAME])) csvFiles in
  let additionalCsvFile :=
    find (fun f => String.eqb (getBaseName f) ADDITIONAL_CSV_BASENAME) csvFiles in
  let paymentCsvFile :=
    find (fun f => String.eqb (getBaseName f) PAYMENT_CSV_BASENAME) csvFiles in
  let groupedData := loadMainCsvFiles dir knownBaseNames mainCsvFiles JsMap.empty in
  mkAppData (buildDataSources groupedData)
            (loadSpecialCsv dir additionalCsvFile EXPECTED_ADDITIONAL_HEADERS)
            (loadSpecialCsv dir paymentCsvFile EXPECTED_PAYMENT_HEADERS)
            confData.

End QueryRoute.

(** ** User count *)

Record UserCountConfig : Type := mkUserCountConfig { udgr : Z; naud : Z }.

(** The loop over the lines of [user.conf]:
    [const [key, value] = line.split('=').map(s => s.trim())]. *)
Fixpoint readUserConfLines (lines : list string) (cfg : UserCountConfig) : UserCountConfig :=
  match lines with
  | [] => cfg
  | line :: rest =>
      let parts := map Js.trim (Js.split "="%char line) in
      let key := nth 0 parts EmptyString in
      let value := nth_error parts 1 in
      let parsed := match value with Some v => Js.parseInt v | None => None end in
      let cfg1 :=
        if String.eqb key "udgr"
        then match parsed with Some rate => mkUserCountConfig rate (naud cfg) | None => cfg end
        else cfg in
      let cfg2 :=
        if String.eqb key "naud"
        then match parsed with
             | Some additional => mkUserCountConfig (udgr cfg1) additional
             | None => cfg1
             end
        else cfg1 in
      readUserConfLines rest cfg2
  end.

(** The first step of both [getUserCount]s: the defaults, overwritten from
    [user.conf] when it can be read. *)
Definition readUserCountConfig (dir : Directory) : UserCountConfig :=
  let defaults := mkUserCountConfig 100 0 in
  match readFile dir USER_CONF_FILENAME with
  | None => defaults
  | Some userConfText => readUserConfLines (Js.split Js.LF userConfText) defaults
  end.

(** An integer as a JavaScript number: the nearest binary64. *)
Definition num (z : Z) : spec_float := binary_normalize 53 1024 z 0 false.

(** [Math.floor] as the JSON response shows it: the integer, or [None] ([null])
    for NaN and the infinities. *)
Definition mathFloor (x : spec_float) : option Z :=
  match x with
  | S754_zero _ => Some 0%Z
  | S754_finite s m e =>
      let sm := if s then Z.neg m else Z.pos m in
      Some (if (0 <=? e)%Z then sm * 2 ^ e else sm / 2 ^ (- e))%Z
  | S754_infinity _ => None
  | S754_nan => None
  end.

(** The last step of both [getUserCount]s:
    [Math.floor((totalRowsCount * ((udgr || 100) / 100)) + (naud || 0))]. *)
Definition adjustedCount (cfg : UserCountConfig) (totalRowsCount : nat) : option Z :=
  let rate := SFdiv 53 1024 (num (if (udgr cfg =? 0)%Z then 100 else udgr cfg)) (num 100) in
  let additional := num (naud cfg) in
  mathFloor (SFadd 53 1024 (SFmul 53 1024 (num (Z.of_nat totalRowsCount)) rate) additional).

(** *** The v1 route: [loadAndProcessData] and [getUserCount] *)

Module V1Route.

Definition loadAndProcessData (dir : Directory) : AppData :=
  let publicFiles := readdir dir in
  let confFiles :=
    filter (fun f => Js.endsWith f ".conf"
                     && negb (String.eqb f USER_CONF_FILENAME)
                     && negb (String.eqb f API_PWD_FILENAME)) publicFiles in
  let '(confData, knownBaseNames) := loadConfFiles dir confFiles JsMap.empty JsSet.empty in
  let csvFiles := filter (fun f => Js.endsWith f ".csv") publicFiles in
  let mainCsvFiles :=
    filter (fun f => negb (String.eqb (getBaseName f) ADDITIONAL_CSV_BASENAME)) csvFiles in
  let additionalCsvFile :=
    find (fun f => String.eqb (getBaseName f) ADDITIONAL_CSV_BASENAME) csvFiles in
  let groupedData := loadMainCsvFiles dir knownBaseNames mainCsvFiles JsMap.empty in
  mkAppData (buildDataSources groupedData)
            (loadSpecialCsv dir additionalCsvFile EXPECTED_ADDITIONAL_HEADERS)
            JsMap.empty
            confData.

(** [dataSources.reduce((sum, ds) => sum + ds.dataMap.size, 0)] over the cached
    [AppData]. *)
Definition totalRowsCount (dir : Directory) : nat :=
  fold_left (fun sum ds => sum + JsMap.size (dataMap ds))
            (dataSources (loadAndProcessData dir)) 0.

(** The [count] of the response of [GET ?type=count]. *)
Definition getUserCount (dir : Directory) : option Z :=
  adjustedCount (readUserCountConfig dir) (totalRowsCount dir).

End V1Route.

(** *** The standalone count endpoint (part_006) *)

Module CountRoute.

(** The loop of this file's own [parseCsvData]: no e-mail column is looked
    for, a row is kept when some value is non-empty. *)
Definition dataLine (headers : list string) (line : string) : option CsvRow :=
  if negb (Js.truthy line) || Js.onlyCommasAndSpace line then None
  else
    let values := parseCsvLine line in
    if List.length values <? List.length headers then None
    else
      let '(row, rowHasData) := fillRow headers 0 values JsMap.empty false in
      if rowHasData then Some row else None.

Fixpoint dataLoop (headers : list string) (lines : list string) (data : list CsvRow)
  : list CsvRow :=
  match lines with
  | [] => data
  | line :: rest =>
      match dataLine headers line with
      | Some row => dataLoop headers rest (data ++ [row])%list
      | None => dataLoop headers rest data
      end
  end.

(** The three code units that this file tests for at the start of the text. *)
Definition BOM_LITERAL : string :=
  String (ascii_of_nat 239) (String (ascii_of_nat 187) (String (ascii_of_nat 191) EmptyString)).

(** [parseCsvData] of part_006: the expected headers are not checked. *)
Definition parseCsvData (text : string) (filePathForLogging : string)
  (expectedHeaders : list string) : list CsvRow :=
  let cleanText :=
    if Js.startsWith text BOM_LITERAL
    then String.substring 1 (String.length text - 1) text else text in
  match Js.splitLines (Js.trim cleanText) with
  | [] => []
  | line0 :: dataLines =>
      if negb (Js.truthy (Js.trim line0)) then []
      else
        let headers := filter Js.truthy (map Js.trim (parseCsvLine line0)) in
        if List.length headers =? 0 then []
        else if List.length (line0 :: dataLines) =? 1 then []
        else dataLoop headers dataLines []
  end.

(** The loop over [mainCsvFiles]: [totalRowsCount += data.length]. *)
Fixpoint countMainCsvFiles (dir : Directory) (knownBaseNames : JsSet.t)
  (mainCsvFiles : list string) (totalRowsCount : nat) : nat :=
  match mainCsvFiles with
  | [] => totalRowsCount
  | csvFile :: rest =>
      if JsSet.has (getBaseName csvFile) knownBaseNames then
        match readFile dir csvFile with
        | None => countMainCsvFiles dir knownBaseNames rest totalRowsCount
        | Some csvText =>
            if negb (Js.truthy (Js.trim csvText))
            then countMainCsvFiles dir knownBaseNames rest totalRowsCount
            else
              let data := parseCsvData csvText csvFile EXPECTED_MAIN_HEADERS in
              countMainCsvFiles dir knownBaseNames rest (totalRowsCount + List.length data)
        end
      else countMainCsvFiles dir knownBaseNames rest totalRowsCount
  end.

Definition totalRowsCount (dir : Directory) : nat :=
  let publicFiles := readdir dir in
  let confFiles :=
    filter (fun f => Js.endsWith f ".conf"
                     && negb (String.eqb f USER_CONF_FILENAME)
                     && negb (String.eqb f USERID_CONF_FILENAME)
                     && negb (String.eqb f API_PWD_FILENAME)) publicFiles in
  let knownBaseNames :=
    fold_left (fun known confFile => JsSet.add (getBaseName confFile) known)
              confFiles JsSet.empty in
  let csvFiles := filter (fun f => Js.endsWith f ".csv") publicFiles in
  let mainCsvFiles :=
    filter (fun f => negb (arrayIncludes (getBaseName f)
                             [ADDITIONAL_CSV_BASENAME; PAYMENT_CSV_BASENAME])) csvFiles in
  countMainCsvFiles dir knownBaseNames mainCsvFiles 0.

(** The [count] of the response of [GET /api/count]. *)
Definition getUserCount (dir : Directory) : option Z :=
  adjustedCount (readUserCountConfig dir) (totalRowsCount dir).

End CountRoute.

(** ** Expiration calculator ([calculateExpirationDate], part_005 and v1 route) *)

(** [s.match(/^(\d+)([my])$/)]: the digits and the unit. *)
Definition matchPeriod (s : string) : option (string * ascii) :=
  let '(ds, rest) := Js.span Js.isDigit s in
  match ds, rest with
  | String _ _, String u EmptyString =>
      if Ascii.eqb u "m"%char || Ascii.eqb u "y"%char then Some (ds, u) else None
  | _, _ => None
  end.

Definition isRolling (s : option string) : bool :=
  match s with
  | Some a => String.eqb (Js.toLowerCase (Js.trim a)) "rolling"
  | None => false
  end.

Definition isDash (s : option string) : bool :=
  match s with Some a => String.eqb a "-" | None => false end.

Definition calculateExpirationDate (approvalDateStr validityPeriod : option string) : string :=
  if negb (Js.truthyOpt approvalDateStr) || negb (Js.truthyOpt validityPeriod)
     || isDash approvalDateStr || isDash validityPeriod || isRolling approvalDateStr
  then (if isRolling approvalDateStr then "Rolling" else "-")
  else
    match approvalDateStr, validityPeriod with
    | Some a, Some v =>
        match DateFns.parse_yyyyMMdd (Js.trim a) with
        | None => "-"
        | Some approvalDate =>
            match matchPeriod (Js.toLowerCase (Js.trim v)) with
            | None => "-"
            | Some (digits, unit) =>
                (* parseInt(periodMatch[1], 10), read exactly: an amount too large
                   for a binary64 to hold exactly is far out of the range of Date *)
                let amount := Js.digitsValue digits in
                let expirationDateValue :=
                  if Ascii.eqb unit "y"%char
                  then DateFns.addYears approvalDate amount
                  else DateFns.addMonths approvalDate amount in
                match expirationDateValue with
                | Some e => DateFns.format_yyyyMMdd e
                | None => "-" (* format throws RangeError, caught *)
                end
            end
        end
    | _, _ => "-"
    end.

(** ** Exact search ([performExactSearch], part_005 and v1 route) *)

Inductive Status : Type := Valid | Invalid.

Record SearchResult : Type := mkSearchResult {
  email : string;
  status : Status;
  organization : string;
  subscriptionDetails : string;
  deviceLimit : nat;
  approver : string;
  approvalDate : string;
  expirationDate : string
}.

Definition isInvalid (s : Status) : bool :=
  match s with Invalid => true | Valid => false end.

(** [dataSources.filter(has).map(ds => confData.get(ds.baseName)).filter(Boolean)]. *)
Fixpoint foundInOrgs (lowerCaseEmail : string) (confData : JsMap.t OrgConf)
  (dataSources : list DataSource) : list OrgConf :=
  match dataSources with
  | [] => []
  | ds :: rest =>
      if JsMap.has lowerCaseEmail (dataMap ds) then
        match JsMap.get (baseName ds) confData with
        | Some conf => conf :: foundInOrgs lowerCaseEmail confData rest
        | None => foundInOrgs lowerCaseEmail confData rest
        end
      else foundInOrgs lowerCaseEmail confData rest
  end.

(** The result after the block [if (foundInOrgs.length > 0)]. *)
Definition afterMainSources (email : string) (found : list OrgConf) : SearchResult :=
  if 0 <? List.length found then
    mkSearchResult email Valid
      (Js.join " & " (map orgName found))
      (Js.join " & " (map subDetails found))
      (if List.length found =? 1 then 2 else if 2 <=? List.length found then 4 else 0)
      "-" "-" "Rolling"
  else mkSearchResult email Invalid "-" "-" 0 "-" "-" "-".

(** The block [if (additionalMatch)]. *)
Definition applyAdditional (confData : JsMap.t OrgConf) (additionalMatch : CsvRow)
  (result : SearchResult) : SearchResult :=
  let rawApprovalDate := propTrim "rat" additionalMatch in
  let validityPeriod := propTrim "pov" additionalMatch in
  let calculatedExpDate := calculateExpirationDate rawApprovalDate validityPeriod in
  let orgFromFile := propTrim "Org" additionalMatch in
  let hasExpDate := Js.truthy calculatedExpDate && negb (String.eqb calculatedExpDate "-") in
  (* if (result.status === 'Invalid' && calculatedExpDate && calculatedExpDate !== '-') *)
  let r1 :=
    if isInvalid (status result) && hasExpDate then
      let baseName :=
        if Js.truthyOpt orgFromFile then getBaseName (Js.orElse orgFromFile "") else "" in
      match JsMap.get baseName confData with
      | Some conf =>
          mkSearchResult (email result) Valid (orgName conf) (subDetails conf) 2
            (approver result) (approvalDate result) (expirationDate result)
      | None => result
      end
    else result in
  (* if (orgFromFile) result.organization = conf?.orgName || orgFromFile *)
  let r2 :=
    match orgFromFile with
    | Some org =>
        if Js.truthy org then
          let conf := JsMap.get (getBaseName org) confData in
          mkSearchResult (email r1) (status r1)
            (Js.orElse (option_map orgName conf) org)
            (subscriptionDetails r1) (deviceLimit r1)
            (approver r1) (approvalDate r1) (expirationDate r1)
        else r1
    | None => r1
    end in
  mkSearchResult (email r2) (status r2) (organization r2) (subscriptionDetails r2)
    (deviceLimit r2)
    (Js.orElse (propTrim "Approver" additionalMatch) "-")
    (Js.orElse rawApprovalDate "-")
    (if hasExpDate then calculatedExpDate else expirationDate r2).

(** The final block [if (result.status === 'Invalid')]. *)
Definition resetIfInvalid (result : SearchResult) : SearchResult :=
  if isInvalid (status result)
  then mkSearchResult (email result) Invalid "-" "-" 0 "-" "-" "-"
  else result.

Definition performExactSearch (email : string) (appData : AppData) : SearchResult :=
  let lowerCaseEmail := Js.toLowerCase email in
  let found := foundInOrgs lowerCaseEmail (confData appData) (dataSources appData) in
  let result := afterMainSources email found in
  let result :=
    match JsMap.get lowerCaseEmail (additionalMap appData) with
    | Some additionalMatch => applyAdditional (confData appData) additionalMatch result
    | None => result
    end in
  resetIfInvalid result.

(** ** Fuzzy search *)

(** A JSON response: [{ error }] with its HTTP status, or [{ message }]. *)
Inductive Response : Type :=
| JsonError (error : string) (httpStatus : nat)
| JsonMessage (message : string).

Definition q : string := String Js.dquote EmptyString.

Definition MSG_TOO_SHORT : string :=
  "Fuzzy search requires at least 3 characters. / 模糊搜索至少需要3个字符。".

Definition MSG_POTENTIAL : string :=
  "Potential matches found. Please enter a more specific or full email address for an exact search. / 找到潜在匹配项。请输入更完整或具体的邮箱地址以进行精确搜索。".

Definition msgNoMatch (term : string) : string :=
  "No potential matches found for " ++ q ++ term ++ q ++ ". / 未找到 " ++ q ++ term ++ q
  ++ " 的可能匹配项。".

(** The two loops that set [found]: every key of every DataSource, then, when
    nothing was found, every key of the additional map. *)
Definition fuzzyFound (searchTerm : string) (appData : AppData) : bool :=
  let found :=
    existsb (fun ds => existsb (fun key => Js.includes key searchTerm)
                               (JsMap.keys (dataMap ds)))
            (dataSources appData) in
  if negb found
  then existsb (fun key => Js.includes key searchTerm) (JsMap.keys (additionalMap appData))
  else found.

(** [performFuzzySearch] of the v1 route. *)
Definition performFuzzySearch (searchTerm : string) (appData : AppData) : Response :=
  if String.length searchTerm <? 3 then JsonError MSG_TOO_SHORT 400
  else if fuzzyFound searchTerm appData then JsonMessage MSG_POTENTIAL
  else JsonError (msgNoMatch searchTerm) 404.

(** The branch [type === 'fuzzy'] of [POST] in part_005: the term is the
    trimmed, lower-cased input, the miss message quotes the input itself, and
    every response has status 200. *)
Definition postFuzzy (searchEmail : string) (appData : AppData) : Response :=
  let searchTerm := Js.toLowerCase (Js.trim searchEmail) in
  if String.length searchTerm <? 3 then JsonError MSG_TOO_SHORT 200
  else if fuzzyFound searchTerm appData then JsonMessage MSG_POTENTIAL
  else JsonError (msgNoMatch searchEmail) 200.

(** ** Expired accounts ([getExpiredAccounts] of part_005) *)

Record ExpiredAccountInfo : Type := mkExpired {
  exp_email : string;
  exp_organization : string;
  exp_approver : string;
  exp_expirationDate : string
}.

(** [dataSources.some(ds => ds.dataMap.has(email))]. *)
Definition isInMainSource (dataSources : list DataSource) (email : string) : bool :=
  existsb (fun ds => JsMap.has email (dataMap ds)) dataSources.

(** The condition on the computed expiration date: a date, and not after
    [today] as strings. *)
Definition isPastDue (expirationDate today : string) : bool :=
  Js.truthy expirationDate && negb (String.eqb expirationDate "-")
  && negb (String.eqb expirationDate "Rolling") && Js.leb expirationDate today.

(** The loop over [additionalMap.entries()]. *)
Fixpoint expiredLoop (dataSources : list DataSource) (today : string)
  (entries : list (string * CsvRow)) (expiredAccounts : list ExpiredAccountInfo)
  : list ExpiredAccountInfo :=
  match entries with
  | [] => expiredAccounts
  | (email, row) :: rest =>
      let expirationDate := calculateExpirationDate (prop "rat" row) (prop "pov" row) in
      if isPastDue expirationDate today && isInMainSource dataSources email
      then expiredLoop dataSources today rest
             (expiredAccounts ++
              [mkExpired email (Js.orElse (prop "Org" row) "Unknown")
                         (Js.orElse (prop "Approver" row) "-") expirationDate])%list
      else expiredLoop dataSources today rest expiredAccounts
  end.

(** [if (approverFilter && approverFilter.toLowerCase() !== 'admin')]. *)
Definition filterApplies (approverFilter : option string) : bool :=
  match approverFilter with
  | Some f => Js.truthy f && negb (String.eqb (Js.toLowerCase f) "admin")
  | None => false
  end.

(** [today] is [format(new Date(), 'yyyyMMdd')], read from the clock. *)
Definition getExpiredAccounts (appData : AppData) (approverFilter : option string)
  (today : string) : list ExpiredAccountInfo :=
  let expiredAccounts :=
    expiredLoop (dataSources appData) today (JsMap.entries (additionalMap appData)) [] in
  match approverFilter with
  | Some f =>
      if filterApplies approverFilter
      then filter (fun account =>
                     String.eqb (Js.toLowerCase (exp_approver account)) (Js.toLowerCase f))
                  expiredAccounts
      else expiredAccounts
  | None => expiredAccounts
  end.

(** ** Quick audit ([getQuickAuditAccounts] of part_005) *)

Inductive Reason : Type := NotRegistered | NotPaid.

Record QuickAuditAccountInfo : Type := mkQA {
  qa_email : string;
  qa_rat : string;
  qa_approver : string;
  qa_pov : string;
  qa_reason : Reason
}.

Definition NOT_PAID_DATE_THRESHOLD : Z := 20250724.

(** [ratStr ? parseInt(ratStr, 10) : 0]; [None] is NaN. *)
Definition ratNum (ratStr : option string) : option Z :=
  match ratStr with
  | Some s => if Js.truthy s then Js.parseInt s else Some 0%Z
  | None => Some 0%Z
  end.

(** The negation of [!ratNum || ratNum < NOT_PAID_DATE_THRESHOLD]: the entry is
    not skipped by the date test. *)
Definition passesDateThreshold (ratStr : option string) : bool :=
  match ratNum ratStr with
  | None => false
  | Some n => negb (n =? 0)%Z && negb (n <? NOT_PAID_DATE_THRESHOLD)%Z
  end.

(** The first loop: [auditAccounts] and [addedEmails] after it. *)
Fixpoint notPaidLoop (dataSources : list DataSource) (paymentMap : JsMap.t CsvRow)
  (entries : list (string * CsvRow))
  (auditAccounts : list QuickAuditAccountInfo) (addedEmails : JsSet.t)
  : list QuickAuditAccountInfo * JsSet.t :=
  match entries with
  | [] => (auditAccounts, addedEmails)
  | (email, additionalInfo) :: rest =>
      let ratStr := propTrim "rat" additionalInfo in
      if negb (passesDateThreshold ratStr)
      then notPaidLoop dataSources paymentMap rest auditAccounts addedEmails
      else if negb (isInMainSource dataSources email)
      then notPaidLoop dataSources paymentMap rest auditAccounts addedEmails
      else if negb (JsMap.has email paymentMap)
      then notPaidLoop dataSources paymentMap rest
             (auditAccounts ++
              [mkQA email (Js.orElse ratStr "-")
                    (Js.orElse (propTrim "Approver" additionalInfo) "-")
                    (Js.orElse (propTrim "pov" additionalInfo) "-") NotPaid])%list
             (JsSet.add email addedEmails)
      else notPaidLoop dataSources paymentMap rest auditAccounts addedEmails
  end.

Definition excludedBaseNames : list string := ["blueskyy"; "parvis"].

(** The inner loop of the second pass, over the keys of one DataSource. *)
Fixpoint notRegisteredKeys (additionalMap : JsMap.t CsvRow) (keys : list string)
  (auditAccounts : list QuickAuditAccountInfo) (addedEmails : JsSet.t)
  : list QuickAuditAccountInfo * JsSet.t :=
  match keys with
  | [] => (auditAccounts, addedEmails)
  | email :: rest =>
      if JsSet.has email addedEmails
      then notRegisteredKeys additionalMap rest auditAccounts addedEmails
      else if negb (JsMap.has email additionalMap)
      then notRegisteredKeys additionalMap rest
             (auditAccounts ++ [mkQA email "-" "-" "-" NotRegistered])%list
             (JsSet.add email addedEmails)
      else notRegisteredKeys additionalMap rest auditAccounts addedEmails
  end.

(** The second loop, over the DataSources. *)
Fixpoint notRegisteredLoop (additionalMap : JsMap.t CsvRow) (dataSources : list DataSource)
  (auditAccounts : list QuickAuditAccountInfo) (addedEmails : JsSet.t)
  : list QuickAuditAccountInfo * JsSet.t :=
  match dataSources with
  | [] => (auditAccounts, addedEmails)
  | dataSource :: rest =>
      if arrayIncludes (baseName dataSource) excludedBaseNames
      then notRegisteredLoop additionalMap rest auditAccounts addedEmails
      else
        let '(accounts', added') :=
          notRegisteredKeys additionalMap (JsMap.keys (dataMap dataSource))
                            auditAccounts addedEmails in
        notRegisteredLoop additionalMap rest accounts' added'
  end.

Definition getQuickAuditAccounts (appData : AppData) : list QuickAuditAccountInfo :=
  let '(auditAccounts, addedEmails) :=
    notPaidLoop (dataSources appData) (paymentMap appData)
                (JsMap.entries (additionalMap appData)) [] JsSet.empty in
  fst (notRegisteredLoop (additionalMap appData) (dataSources appData)
                         auditAccounts addedEmails).

(** ** The data repository's cache ([getData], part_005 and v1 route)

    The module variables [cachedData] and [dataPromise], and the event loop
    around them.  A promise is named by the number of the load that settles
    it.  The events are: a call of [getData]; the [then] callback of a load
    that fulfilled; the [catch] callback of a load that rejected. *)

Module Cache.

(** How a build ended, for those who await its promise. *)
Inductive Outcome : Type :=
| Fulfilled (data : AppData)
| Rejected.

Record State : Type := mkState {
  cachedData : option AppData;
  dataPromise : option nat;
  (** calls of [loadAndProcessData] that have not settled yet *)
  inFlight : list nat;
  (** calls of [loadAndProcessData] made so far *)
  started : nat;
  (** the builds that have settled, with what their promise settled to *)
  settled : list (nat * Outcome)
}.

Definition initial : State := mkState None None [] 0 [].

(** What [getData] returns: [Promise.resolve(cachedData)], or [dataPromise]. *)
Inductive Returned : Type :=
| Resolved (data : AppData)
| Shared (promise : nat).

Definition getData (s : State) : Returned * State :=
  match cachedData s with
  | Some data => (Resolved data, s)
  | None =>
      match dataPromise s with
      | Some p => (Shared p, s)
      | None =>
          let p := started s in
          (Shared p, mkState None (Some p) (p :: inFlight s) (S p) (settled s))
      end
  end.

Definition removeLoad (p : nat) (l : list nat) : list nat :=
  filter (fun x => negb (x =? p)) l.

(** [data => { cachedData = data; return data; }] *)
Definition onFulfilled (p : nat) (data : AppData) (s : State) : State :=
  mkState (Some data) (dataPromise s) (removeLoad p (inFlight s)) (started s)
          ((p, Fulfilled data) :: settled s).

(** [err => { dataPromise = null; throw err; }] *)
Definition onRejected (p : nat) (s : State) : State :=
  mkState (cachedData s) None (removeLoad p (inFlight s)) (started s)
          ((p, Rejected) :: settled s).

Inductive Event : Type :=
| Call
| Fulfil (p : nat) (data : AppData)
| Reject (p : nat).

(** One turn of the event loop; a load can only settle while in flight. *)
Definition step (s : State) (e : Event) : option State :=
  match e with
  | Call => Some (snd (getData s))
  | Fulfil p data =>
      if existsb (Nat.eqb p) (inFlight s) then Some (onFulfilled p data s) else None
  | Reject p =>
      if existsb (Nat.eqb p) (inFlight s) then Some (onRejected p s) else None
  end.

Fixpoint run (s : State) (trace : list Event) : option State :=
  match trace with
  | [] => Some s
  | e :: rest =>
      match step s e with
      | Some s' => run s' rest
      | None => None
      end
  end.

(** The three states of the cache. *)
Inductive Phase : Type :=
| Empty
| Loading (p : nat)
| Loaded (data : AppData).

Definition phase (s : State) : Phase :=
  match cachedData s, dataPromise s with
  | Some data, _ => Loaded data
  | None, Some p => Loading p
  | None, None => Empty
  end.

End Cache.

(** ** The quick-audit view of [GET ?type=qa] (part_005)

    [if (approverRole !== 'admin') qaAccounts = qaAccounts.filter(...)]: the
    comparison with the admin sentinel is exact here, the one of approvers
    is up to case. *)
Definition qaForRole (approverRole : string) (appData : AppData)
  : list QuickAuditAccountInfo :=
  let qaAccounts := getQuickAuditAccounts appData in
  if negb (String.eqb approverRole "admin")
  then filter (fun acc => String.eqb (Js.toLowerCase (qa_approver acc))
                                     (Js.toLowerCase approverRole)) qaAccounts
  else qaAccounts.

(** ** Proxy dashboard ([getProxyData], part_005) *)

(** [{ ...searchResult, tag }]. *)
Record ProxyAccount : Type := mkProxy {
  proxy_result : SearchResult;
  proxy_tag : string
}.

(** The string of a [reason]. *)
Definition reasonText (r : Reason) : string :=
  match r with
  | NotRegistered => "Not Registered"
  | NotPaid => "Not Paid"
  end.

(** [new Map(qaResults.map(item => [item.email, item.reason]))]. *)
Definition buildQaMap (qaResults : list QuickAuditAccountInfo) : JsMap.t Reason :=
  fold_left (fun m item => JsMap.set (qa_email item) (qa_reason item) m)
            qaResults JsMap.empty.

(** The callback of [allAccounts.map]: [None] is [null]. *)
Definition proxyRow (appData : AppData) (qaMap : JsMap.t Reason) (today : string)
  (row : CsvRow) : option ProxyAccount :=
  let email := Js.toLowerCase (Js.orElse (prop "Email" row) "") in
  if negb (Js.truthy email) then None
  else
    let searchResult := performExactSearch email appData in
    if isInvalid (status searchResult) then None
    else
      let expirationDate := calculateExpirationDate (prop "rat" row) (prop "pov" row) in
      let tag :=
        if isPastDue expirationDate today
        then (if isInMainSource (dataSources appData) email
              then "Authorization Expired" else "")
        else "" in
      let tag :=
        if negb (Js.truthy tag) && JsMap.has email qaMap
        then match JsMap.get email qaMap with
             | Some reason => reasonText reason
             | None => tag
             end
        else tag in
      Some (mkProxy searchResult tag).

(** [today] is [format(new Date(), 'yyyyMMdd')], read from the clock. *)
Definition getProxyData (appData : AppData) (approverFilter : string) (today : string)
  : list ProxyAccount :=
  let allAccounts := JsMap.values (additionalMap appData) in
  let allAccounts :=
    if negb (String.eqb (Js.toLowerCase approverFilter) "admin")
    then filter (fun account =>
                   String.eqb (Js.toLowerCase (Js.orElse (prop "Approver" account) ""))
                              (Js.toLowerCase approverFilter)) allAccounts
    else allAccounts in
  let qaMap := buildQaMap (getQuickAuditAccounts appData) in
  flat_map (fun row => match proxyRow appData qaMap today row with
                       | Some account => [account]
                       | None => []
                       end) allAccounts.

(** ** Bearer-token check of the v1 route ([getApiKey], [handleRequest]) *)

Module V1Auth.

(** [s.substring(n)]. *)
Fixpoint substringFrom (n : nat) (s : string) : string :=
  match n, s with
  | O, _ => s
  | S n', String _ s' => substringFrom n' s'
  | S _, EmptyString => EmptyString
  end.

(** [getApiKey()], with the module variable [apiKey] passed in and out and the
    text of [apipwd.conf] ([None] when it cannot be read).  The first
    component is the key, or [None] when the function throws. *)
Definition getApiKey (apiKey : option string) (file : option string)
  : option string * option string :=
  if Js.truthyOpt apiKey then (apiKey, apiKey)
  else
    match file with
    | None => (None, apiKey)
    | Some text =>
        let key := Js.trim text in
        if negb (Js.truthy key) then (None, apiKey) else (Some key, Some key)
    end.

(** What [handleRequest] does before it runs the action. *)
Inductive Decision : Type :=
| Refuse (error : string) (httpStatus : nat)
| RunAction.

Definition handleRequest (apiKey : option string) (file : option string)
  (authHeader : option string) : Decision * option string :=
  match getApiKey apiKey file with
  | (None, apiKey') =>
      (Refuse "Server configuration error: API key not available." 500, apiKey')
  | (Some expectedApiKey, apiKey') =>
      match authHeader with
      | None =>
          (Refuse "Unauthorized: Missing or invalid Authorization header." 401, apiKey')
      | Some h =>
          if negb (Js.truthy h) || negb (Js.startsWith h "Bearer ")
          then (Refuse "Unauthorized: Missing or invalid Authorization header." 401, apiKey')
          else
            let providedKey := substringFrom 7 h in
            if negb (String.eqb providedKey expectedApiKey)
            then (Refuse "Unauthorized: Invalid API Key." 401, apiKey')
            else (RunAction, apiKey')
      end
  end.

End V1Auth.

(** ** PIN login ([POST] of the login route, part_003) *)

Module Login.

(** The callback of [.map]: [[userPin, user]] of one line of [userid.conf]. *)
Definition pinTuple (line : string) : string * string :=
  let parts := Js.split "="%char line in
  let user := Js.trim (nth 0 parts EmptyString) in
  let userPin := Js.trim (Js.join "=" (tl parts)) in
  (userPin, user).

(** The tuples that the [Map] is built from. *)
Definition pinTuples (pinConfigText : string) : list (string * string) :=
  filter (fun tuple => Js.truthy (fst tuple) && Js.truthy (snd tuple))
         (map pinTuple (filter Js.truthy (Js.split Js.LF pinConfigText))).

(** [new Map(tuples)]: a pin written twice takes the later role. *)
Definition pinConfig (pinConfigText : string) : JsMap.t string :=
  fold_left (fun m tuple => JsMap.set (fst tuple) (snd tuple) m)
            (pinTuples pinConfigText) JsMap.empty.

Inductive Result : Type :=
| PinRequired        (* 400 *)
| IncorrectPin       (* 401 *)
| Success (role : string)
| AuthenticationFailed (* 500 *).

(** [POST] for a [pin] that is a string; [file] is the text of [userid.conf],
    [None] when it cannot be read. *)
Definition POST (pin : string) (file : option string) : Result :=
  if negb (Js.truthy pin) then PinRequired
  else
    match file with
    | None => AuthenticationFailed
    | Some pinConfigText =>
        match JsMap.get (Js.trim pin) (pinConfig pinConfigText) with
        | Some userRole => if Js.truthy userRole then Success userRole else IncorrectPin
        | None => IncorrectPin
        end
    end.

End Login.
(** ** The exact branch of [POST] (part_005 and v1 route)

    [performExactSearch(searchEmail.trim().toLowerCase(), appData)]. *)
Definition postExact (searchEmail : string) (appData : AppData) : SearchResult :=
  performExactSearch (Js.toLowerCase (Js.trim searchEmail)) appData.

(* ================================================================== *)
(** * Part II.  Vocabulary and scenarios                                *)
(* ================================================================== *)

(** ** Vocabulary of the statements *)

(** The e-mail is a key of no DataSource index. *)
Definition absentFromMainSources (app : AppData) (key : string) : Prop :=
  forall ds, In ds (dataSources app) -> JsMap.has key (dataMap ds) = false.

(** The expiration that exact search computes for an additional record. *)
Definition computedExpiration (row : CsvRow) : string :=
  calculateExpirationDate (propTrim "rat" row) (propTrim "pov" row).

(** The trimmed org hint of an additional record, empty when it has none. *)
Definition orgHint (row : CsvRow) : string := Js.orElse (propTrim "Org" row) "".

(** The OrgConfig that the hint's leading-alphanumeric base name selects. *)
Definition resolvedOrg (app : AppData) (row : CsvRow) : option OrgConf :=
  JsMap.get (getBaseName (orgHint row)) (confData app).

(** The organization that the main DataSources alone give an e-mail. *)
Definition organizationFromMainSources (app : AppData) (email : string) : string :=
  organization
    (resetIfInvalid
       (afterMainSources email
          (foundInOrgs (Js.toLowerCase email) (confData app) (dataSources app)))).

(** *** Scenarios *)

Definition confAlpha : JsMap.t OrgConf :=
  [("alpha", mkOrgConf "Alpha School" "All Apps plan")].

Definition rowBob : CsvRow :=
  [("Email", "bob@x.com"); ("Product Configurations", "All Apps")].

Definition dsAlpha : DataSource := mkDataSource "alpha" [("bob@x.com", rowBob)].

(** eve is in no DataSource; her additional record is rolling and names alpha. *)
Definition rowEveRolling : CsvRow :=
  [("Email", "eve@x.com"); ("Approver", "carol"); ("rat", "rolling");
   ("pov", "12m"); ("Org", "alpha")].

Definition appEveRolling : AppData :=
  mkAppData [dsAlpha] [("eve@x.com", rowEveRolling)] [] confAlpha.

(** bob is in DataSource alpha; his additional record names an unknown org. *)
Definition rowBobGamma : CsvRow :=
  [("Email", "bob@x.com"); ("Approver", "carol"); ("rat", "20240101");
   ("pov", "12m"); ("Org", "Gamma")].

Definition appBobGamma : AppData :=
  mkAppData [dsAlpha] [("bob@x.com", rowBobGamma)] [] confAlpha.

(** Two rows for one e-mail in the only main CSV; no [user.conf]. *)
Definition dirDuplicateRows : Directory :=
  [ ("alpha.conf", Some "Alpha School,All Apps plan");
    ("alpha.csv",
     Some ("Email,Product Configurations" ++ String Js.LF
           "bob@x.com,All Apps" ++ String Js.LF "bob@x.com,Photoshop")%string) ].

(** One row per e-mail, and tuning values. *)
Definition dirScenario : Directory :=
  [ ("user.conf", Some ("udgr=150" ++ String Js.LF "naud=10")%string);
    ("alpha.conf", Some "Alpha School,All Apps plan");
    ("alpha.csv",
     Some ("Email,Product Configurations" ++ String Js.LF
           "bob@x.com,All Apps" ++ String Js.LF "amy@x.com,Photoshop")%string) ].

(** eve again, with a dated approval. *)
Definition rowEveDated : CsvRow :=
  [("Email", "eve@x.com"); ("Approver", "carol"); ("rat", "20240101");
   ("pov", "12m"); ("Org", "alpha")].

Definition appEveDated : AppData :=
  mkAppData [dsAlpha] [("eve@x.com", rowEveDated)] [] confAlpha.

(** *** Digit strings *)

Fixpoint allb (p : ascii -> bool) (s : string) : bool :=
  match s with
  | EmptyString => true
  | String c s' => p c && allb p s'
  end.

(** A non-empty string of decimal digits. *)
Definition isDigits (s : string) : Prop := Js.truthy s = true /\ allb Js.isDigit s = true.

Definition startsWithDigit (s : string) : bool :=
  match s with
  | String c _ => Js.isDigit c
  | EmptyString => false
  end.

(** *** Expired accounts *)


(** How the listing shows an entry: the approver is the Approver column, or
    "-" when the column is empty or missing. *)
Definition listedAs (email : string) (row : CsvRow) : ExpiredAccountInfo :=
  mkExpired email (Js.orElse (prop "Org" row) "Unknown")
            (Js.orElse (prop "Approver" row) "-")
            (calculateExpirationDate (prop "rat" row) (prop "pov" row)).


(** bob's approval of 2024-01-01 for twelve months, approved by carol. *)
Definition rowBobCarol : CsvRow :=
  [("Email", "bob@x.com"); ("Approver", "carol"); ("rat", "20240101"); ("pov", "12m")].

Definition appBobCarol : AppData :=
  mkAppData [dsAlpha] [("bob@x.com", rowBobCarol)] [] confAlpha.

(** *** Fuzzy search *)

(** [t] occurs in [s]. *)
Definition isSubstring (t s : string) : Prop :=
  exists pre post, s = (pre ++ t ++ post)%string.

(** [key] is an indexed e-mail: a key of some DataSource index or of the
    additional map. *)
Definition indexedEmail (app : AppData) (key : string) : Prop :=
  (exists ds, In ds (dataSources app) /\ In key (JsMap.keys (dataMap ds))) \/
  In key (JsMap.keys (additionalMap app)).

Definition hasIndexedMatch (app : AppData) (term : string) : Prop :=
  exists key, indexedEmail app key /\ isSubstring term key.

(** amy is known to the additional map only. *)
Definition appAmyAdditional : AppData :=
  mkAppData [] [("amy@x.com", [("Email", "amy@x.com"); ("Approver", "dave")])] [] confAlpha.

(** *** Quick audit *)

(** The e-mail meets the conditions of the Not Paid pass. *)
Definition qualifiesNotPaid (app : AppData) (email : string) : Prop :=
  exists row,
    In (email, row) (JsMap.entries (additionalMap app)) /\
    passesDateThreshold (propTrim "rat" row) = true /\
    isInMainSource (dataSources app) email = true /\
    JsMap.has email (paymentMap app) = false.

(** The e-mail is a key of a DataSource that the Not Registered pass visits. *)
Definition inAuditedDataSource (app : AppData) (email : string) : Prop :=
  exists ds,
    In ds (dataSources app) /\
    arrayIncludes (baseName ds) excludedBaseNames = false /\
    In email (JsMap.keys (dataMap ds)).

(** The entries of the listing for one e-mail. *)
Definition entriesFor (email : string) (accounts : list QuickAuditAccountInfo)
  : list QuickAuditAccountInfo :=
  filter (fun a => String.eqb (qa_email a) email) accounts.

(** bob is in two DataSources and was approved, unpaid, on 2025-08-01; amy
    is in both DataSources and has no additional record. *)
Definition rowBobUnpaid : CsvRow :=
  [("Email", "bob@x.com"); ("Approver", "carol"); ("rat", "20250801"); ("pov", "12m")].

Definition rowAmy : CsvRow :=
  [("Email", "amy@x.com"); ("Product Configurations", "Photoshop")].

Definition appAudit : AppData :=
  mkAppData
    [ mkDataSource "alpha" [("bob@x.com", rowBob); ("amy@x.com", rowAmy)];
      mkDataSource "beta" [("amy@x.com", rowAmy); ("bob@x.com", rowBob)] ]
    [("bob@x.com", rowBobUnpaid)]
    []
    (("beta", mkOrgConf "Beta College" "Single App") :: confAlpha).

(** What the loops of the quick audit keep true: no e-mail is listed twice,
    and every listed e-mail is in [addedEmails]. *)
Definition auditInvariant (accounts : list QuickAuditAccountInfo) (added : JsSet.t) : Prop :=
  NoDup (map qa_email accounts) /\
  forall e, In e (map qa_email accounts) -> JsSet.has e added = true.

(** *** The cache *)

(** A state that some sequence of events leads to from the initial one. *)
Definition reachable (s : Cache.State) : Prop :=
  exists trace, Cache.run Cache.initial trace = Some s.

(** The loads in flight agree with the two variables: none when the cache is
    empty or loaded, exactly the pending build while loading; and the
    memoized data is what the shared build was fulfilled with. *)
Definition coherent (s : Cache.State) : Prop :=
  match Cache.cachedData s, Cache.dataPromise s with
  | None, None => Cache.inFlight s = []
  | None, Some p => Cache.inFlight s = [p]
  | Some data, Some p =>
      Cache.inFlight s = [] /\ In (p, Cache.Fulfilled data) (Cache.settled s)
  | Some _, None => False
  end.

(** The moves of the cache: empty to loading, loading to loaded, loading back
    to empty, or none. *)
Inductive allowed : Cache.Phase -> Cache.Phase -> Prop :=
| allowed_stay : forall ph, allowed ph ph
| allowed_start : forall p, allowed Cache.Empty (Cache.Loading p)
| allowed_succeed : forall p data, allowed (Cache.Loading p) (Cache.Loaded data)
| allowed_fail : forall p, allowed (Cache.Loading p) Cache.Empty.

(** *** Tabular loader *)

(** The column names that the loader reads off the header line. *)
Definition headerNames (line0 : string) : list string :=
  filter Js.truthy (map Js.trim (parseCsvLine line0)).

(** The e-mail column: the first header that is "email" up to case. *)
Definition emailHeader (headers : list string) : option string :=
  find (fun h => String.eqb (Js.toLowerCase h) "email") headers.

(** A malformed data line: fewer fields than headers, or an empty e-mail
    field. *)
Definition malformedLine (headers : list string) (line : string) : Prop :=
  List.length (parseCsvLine line) < List.length headers \/
  exists eh i,
    emailHeader headers = Some eh /\ indexOf eh headers = Some i /\
    nth i (parseCsvLine line) EmptyString = EmptyString.

(** The rows of a list of data lines, one line at a time. *)
Definition rowsOfLines (headers : list string) (emailHeaderName : string)
  (lines : list string) : list CsvRow :=
  flat_map (fun line => match dataLine headers emailHeaderName line with
                        | Some row => [row]
                        | None => []
                        end) lines.

(** A main CSV whose second data line has one field and whose third has no
    e-mail. *)
Definition csvWithBadLines : string :=
  "Email,Product Configurations" ++ String Js.LF
  "bob@x.com,All Apps" ++ String Js.LF
  "broken" ++ String Js.LF
  ",Photoshop" ++ String Js.LF
  "amy@x.com,Photoshop".

(** *** Expiration calculator *)

(** A calendar date that an eight-digit [YYYYMMDD] string can hold and that
    the parser accepts: year 0001 to 9999, a month, and a day of that month. *)
Definition validDate (d : DateFns.date) : Prop :=
  (1 <= DateFns.year d <= 9999 /\ 1 <= DateFns.month d <= 12 /\
   1 <= DateFns.day d <= DateFns.daysInMonth (DateFns.year d) (DateFns.month d))%Z.

(** The decimal digit of [n] at position [k], as a character. *)
Definition digitAt (n : Z) (k : Z) : ascii := DateFns.digitChar ((n / 10 ^ k) mod 10).

Definition fourDigits (n : Z) (rest : string) : string :=
  String (digitAt n 3) (String (digitAt n 2) (String (digitAt n 1) (String (digitAt n 0) rest))).

Definition twoDigits (n : Z) (rest : string) : string :=
  String (digitAt n 1) (String (digitAt n 0) rest).

(** The fixed-width [YYYYMMDD] text of a date. *)
Definition yyyymmdd (d : DateFns.date) : string :=
  fourDigits (DateFns.year d) (twoDigits (DateFns.month d) (twoDigits (DateFns.day d) EmptyString)).

(** Months since year 0. *)
Definition monthIndex (d : DateFns.date) : Z :=
  (DateFns.year d * 12 + (DateFns.month d - 1))%Z.

(** [d'] is [d] plus [k] calendar months: [k] months later, on the same day
    of the month, or on the last day of the month when it is shorter. *)
Definition plusMonths (d : DateFns.date) (k : Z) (d' : DateFns.date) : Prop :=
  (monthIndex d' = monthIndex d + k /\ 1 <= DateFns.month d' <= 12 /\
   DateFns.day d' =
     Z.min (DateFns.day d) (DateFns.daysInMonth (DateFns.year d') (DateFns.month d')))%Z.

(** The unit of a period code, in either case, and the months it stands for. *)
Definition isPeriodUnit (u : ascii) : Prop :=
  u = "m"%char \/ u = "M"%char \/ u = "y"%char \/ u = "Y"%char.

Definition monthsOfPeriod (amount : Z) (u : ascii) : Z :=
  if Ascii.eqb u "y"%char || Ascii.eqb u "Y"%char then (amount * 12)%Z else amount.

(** *** Tactics *)

(** Closes the cases of exact search once the record is computed. *)
Ltac search_cases :=
  repeat split; intros;
  repeat match goal with
         | H : _ /\ _ |- _ => destruct H
         | H : exists _, _ |- _ => destruct H
         | H : Some _ = Some _ |- _ => inversion H; subst; clear H
         end;
  try discriminate; try reflexivity; try contradiction; try tauto;
  try (eexists; reflexivity).

(** ** Vocabulary of the further properties *)

(** *** Maps built from entries *)

(** The value of the last entry of [l] with key [k]. *)
Definition lastValue {V : Type} (k : string) (l : list (string * V)) : option V :=
  fold_left (fun acc e => if String.eqb (fst e) k then Some (snd e) else acc) l None.

(** The key under which [indexRows] files a row: its [Email] value, trimmed
    and in lower case; none when the row has no such value or it is empty. *)
Definition emailKey (row : CsvRow) : option string :=
  match option_map Js.toLowerCase (propTrim "Email" row) with
  | Some key => if Js.truthy key then Some key else None
  | None => None
  end.

(** *** Separators and quoting *)

(** The code unit [c] does not occur in [s]. *)
Definition freeOf (c : ascii) (s : string) : Prop :=
  allb (fun x => negb (Ascii.eqb x c)) s = true.

(** A field with every double quote doubled. *)
Fixpoint csvEscape (f : string) : string :=
  match f with
  | EmptyString => EmptyString
  | String c f' =>
      if Ascii.eqb c Js.dquote
      then String Js.dquote (String Js.dquote (csvEscape f'))
      else String c (csvEscape f')
  end.

(** A field as a CSV writer quotes it: between double quotes, with the double
    quotes of the field doubled. *)
Definition csvQuote (f : string) : string :=
  String Js.dquote (csvEscape f ++ String Js.dquote EmptyString).

(** What may follow a closing quote: the end of the line, or a code unit
    other than the double quote. *)
Definition notQuoteNext (rest : string) : Prop :=
  match rest with
  | EmptyString => True
  | String c _ => Ascii.eqb c Js.dquote = false
  end.

(** *** Loaded data *)

(** [app] is what one of the two query routes builds from the directory. *)
Definition loadedFrom (dir : Directory) (app : AppData) : Prop :=
  app = QueryRoute.loadAndProcessData dir \/ app = V1Route.loadAndProcessData dir.

(** The DataSources whose index holds the key. *)
Definition sourcesWith (app : AppData) (key : string) : list DataSource :=
  filter (fun ds => JsMap.has key (dataMap ds)) (dataSources app).

(** The record with another [email] field. *)
Definition withEmail (e : string) (r : SearchResult) : SearchResult :=
  mkSearchResult e (status r) (organization r) (subscriptionDetails r) (deviceLimit r)
                 (approver r) (approvalDate r) (expirationDate r).

(** *** Quick audit entries *)

(** The "Not Paid" entry of an additional record. *)
Definition notPaidAccount (email : string) (row : CsvRow) : QuickAuditAccountInfo :=
  mkQA email (Js.orElse (propTrim "rat" row) "-")
       (Js.orElse (propTrim "Approver" row) "-")
       (Js.orElse (propTrim "pov" row) "-") NotPaid.

(** The "Not Registered" entry of an e-mail. *)
Definition notRegisteredAccount (email : string) : QuickAuditAccountInfo :=
  mkQA email "-" "-" "-" NotRegistered.

(** What the second pass keeps true of [addedEmails]: an e-mail in it has an
    additional record or is listed as "Not Registered". *)
Definition registeredOrListed (additionalMap : JsMap.t CsvRow)
  (accounts : list QuickAuditAccountInfo) (added : JsSet.t) : Prop :=
  forall e, JsSet.has e added = true ->
            JsMap.has e additionalMap = true \/ In (notRegisteredAccount e) accounts.

(** *** Parsed rows *)

(** Every value of the row is trimmed. *)
Definition trimmedRow (row : CsvRow) : Prop :=
  forall k v, In (k, v) row -> Js.trim v = v.

(** The map is keyed by the e-mail of its rows, and its rows are trimmed. *)
Definition keyedByEmail (m : JsMap.t CsvRow) : Prop :=
  forall k row, In (k, row) m -> emailKey row = Some k /\ trimmedRow row.

(** A main CSV whose e-mail column is spelled in upper case. *)
Definition csvUpperCaseHeader : string :=
  "EMAIL,Product Configurations" ++ String Js.LF "bob@x.com,All Apps".

(** *** File names *)

(** The text does not go on with a letter or a digit. *)
Definition notAlnumNext (rest : string) : Prop :=
  match rest with
  | EmptyString => True
  | String c _ => Js.isAlnum c = false
  end.

(** *** A directory with an additional file *)

(** bob and amy are in the only main CSV.  bob's approval of 2024-01-01 for
    twelve months is approved by carol; amy's, of 2025-08-01, by dave; eve
    has an additional record only. *)
Definition dirProxy : Directory :=
  [ ("alpha.conf", Some "Alpha School,All Apps plan");
    ("alpha.csv",
     Some ("Email,Product Configurations" ++ String Js.LF
           "bob@x.com,All Apps" ++ String Js.LF "amy@x.com,Photoshop")%string);
    ("additional.csv",
     Some ("Email,Approver,rat,pov,Org" ++ String Js.LF
           "bob@x.com,carol,20240101,12m,alpha" ++ String Js.LF
           "amy@x.com,dave,20250801,12m,alpha" ++ String Js.LF
           "eve@x.com,dave,20250801,12m,alpha")%string) ].

Definition bobProxy : ProxyAccount :=
  mkProxy (mkSearchResult "bob@x.com" Valid "Alpha School" "All Apps plan" 2 "carol"
                          "20240101" "20250101")
          "Authorization Expired".

(* ================================================================== *)
(** * Part III.  Properties                                             *)
(* ================================================================== *)

(** ** Exact search *)

Lemma foundInOrgs_absent :
  forall key conf dss,
    (forall ds, In ds dss -> JsMap.has key (dataMap ds) = false) ->
    foundInOrgs key conf dss = [].
Proof.
  intros key conf dss; induction dss as [|ds rest IH]; intros Habs; simpl.
  - reflexivity.
  - rewrite (Habs ds (or_introl eq_refl)).
    apply IH. intros ds' Hin. apply Habs. now right.
Qed.

Lemma decimal_loop_truthy :
  forall fuel n acc, Js.truthy acc = true -> Js.truthy (DateFns.decimal_loop fuel n acc) = true.
Proof.
  induction fuel as [|f IH]; intros n acc Hacc; simpl.
  - exact Hacc.
  - destruct (n <? 10)%Z; [reflexivity | apply IH; reflexivity].
Qed.

Lemma decimal_truthy : forall n, Js.truthy (DateFns.decimal n) = true.
Proof.
  intros n. unfold DateFns.decimal. simpl.
  destruct (n <? 10)%Z; [reflexivity | apply decimal_loop_truthy; reflexivity].
Qed.

Lemma truthy_append_r :
  forall a b, Js.truthy b = true -> Js.truthy (a ++ b)%string = true.
Proof.
  intros a b Hb. destruct a; simpl; [exact Hb | reflexivity].
Qed.

Lemma format_truthy : forall d, Js.truthy (DateFns.format_yyyyMMdd d) = true.
Proof.
  intros d. unfold DateFns.format_yyyyMMdd, DateFns.addLeadingZeros.
  repeat apply truthy_append_r. apply decimal_truthy.
Qed.

(** The calculator never returns the empty string. *)
Lemma calculateExpirationDate_truthy :
  forall a v, Js.truthy (calculateExpirationDate a v) = true.
Proof.
  intros a v. unfold calculateExpirationDate.
  destruct (negb (Js.truthyOpt a) || negb (Js.truthyOpt v) || isDash a || isDash v
            || isRolling a).
  - destruct (isRolling a); reflexivity.
  - destruct a as [a|]; [|reflexivity]. destruct v as [v|]; [|reflexivity].
    destruct (DateFns.parse_yyyyMMdd (Js.trim a)); [|reflexivity].
    destruct (matchPeriod (Js.toLowerCase (Js.trim v))) as [[ds u]|]; [|reflexivity].
    destruct (if Ascii.eqb u "y" then _ else _); [apply format_truthy | reflexivity].
Qed.

Lemma getBaseName_empty : getBaseName "" = "".
Proof. reflexivity. Qed.

(** C1, as the code has it.  For an e-mail that is in no DataSource index
    and has an additional record, exact search returns status Valid exactly
    when the computed expiration is not "-" (a date or "Rolling") and the
    base name of the record's org hint selects an OrgConfig; the result then
    has deviceLimit 2, the subscription details of that config and its
    orgName as organization (the hint itself stands in for an empty orgName).
    Otherwise the result is the Invalid record with every field reset. *)
Theorem exact_search_additional_only_upgrade :
  forall (app : AppData) (email : string) (row : CsvRow),
    absentFromMainSources app (Js.toLowerCase email) ->
    JsMap.get (Js.toLowerCase email) (additionalMap app) = Some row ->
    let r := performExactSearch email app in
    (status r = Valid <->
       computedExpiration row <> "-" /\ exists conf, resolvedOrg app row = Some conf) /\
    (forall conf, status r = Valid -> resolvedOrg app row = Some conf ->
       deviceLimit r = 2 /\ subscriptionDetails r = subDetails conf /\
       organization r = Js.orElse (Some (orgName conf)) (orgHint row)) /\
    (status r = Invalid -> r = mkSearchResult email Invalid "-" "-" 0 "-" "-" "-").
Proof.
  intros app email row Habs Hget r. subst r.
  unfold performExactSearch. rewrite (foundInOrgs_absent _ _ _ Habs), Hget.
  unfold resolvedOrg, orgHint, computedExpiration, applyAdditional.
  cbn [afterMainSources List.length Nat.ltb Nat.leb status isInvalid andb].
  rewrite calculateExpirationDate_truthy. cbn [andb].
  set (exp := calculateExpirationDate (propTrim "rat" row) (propTrim "pov" row)).
  destruct (propTrim "Org" row) as [org|] eqn:Horg; cbn [Js.truthyOpt Js.orElse].
  - destruct (Js.truthy org) eqn:Ht.
    + destruct (String.eqb_spec exp "-") as [He|He]; cbn [negb].
      * cbn. search_cases.
      * destruct (JsMap.get (getBaseName org) (confData app)) as [conf|] eqn:Hc;
          cbn; search_cases.
    + rewrite getBaseName_empty.
      destruct (String.eqb_spec exp "-") as [He|He]; cbn [negb].
      * cbn. search_cases.
      * destruct (JsMap.get "" (confData app)) as [conf|] eqn:Hc; cbn; search_cases.
        match goal with |- context [orgName ?c] => destruct (orgName c); reflexivity end.
  - rewrite getBaseName_empty.
    destruct (String.eqb_spec exp "-") as [He|He]; cbn [negb].
    + cbn. search_cases.
    + destruct (JsMap.get "" (confData app)) as [conf|] eqn:Hc; cbn; search_cases.
      match goal with |- context [orgName ?c] => destruct (orgName c); reflexivity end.
Qed.

(** C1 fails as stated: eve is in no DataSource, her additional record has
    the approval date "rolling" and names the org alpha; the computed
    expiration is "Rolling", not a date, and exact search returns Valid. *)
Lemma exact_search_upgrades_rolling_record :
  absentFromMainSources appEveRolling (Js.toLowerCase "eve@x.com") /\
  JsMap.get (Js.toLowerCase "eve@x.com") (additionalMap appEveRolling) = Some rowEveRolling /\
  computedExpiration rowEveRolling = "Rolling" /\
  resolvedOrg appEveRolling rowEveRolling = Some (mkOrgConf "Alpha School" "All Apps plan") /\
  performExactSearch "eve@x.com" appEveRolling =
    mkSearchResult "eve@x.com" Valid "Alpha School" "All Apps plan" 2 "carol" "rolling" "Rolling".
Proof.
  repeat split; try reflexivity.
  intros ds [<-|[]]. reflexivity.
Qed.

Lemma eve_absent_from_alpha :
  absentFromMainSources appEveDated (Js.toLowerCase "eve@x.com").
Proof. intros ds [<-|[]]. reflexivity. Defined.

(** The theorem at eve's dated record: approved 2024-01-01 for twelve months. *)
Lemma exact_search_additional_only_upgrade_witness :
  performExactSearch "eve@x.com" appEveDated =
    mkSearchResult "eve@x.com" Valid "Alpha School" "All Apps plan" 2 "carol" "20240101" "20250101"
  /\ (status (performExactSearch "eve@x.com" appEveDated) = Valid <->
      computedExpiration rowEveDated <> "-" /\
      exists conf, resolvedOrg appEveDated rowEveDated = Some conf).
Proof.
  split; [reflexivity|].
  exact (proj1 (exact_search_additional_only_upgrade appEveDated "eve@x.com" rowEveDated
                  eve_absent_from_alpha eq_refl)).
Defined.

(** C2, as the code has it.  For an e-mail whose additional record has a
    non-empty org hint, the organization of the result is "-" when the final
    status is Invalid; when it is Valid, it is the orgName of the config that
    the hint's base name selects if there is one with a non-empty orgName,
    and the hint itself otherwise.  Either way it replaces the joined names
    of the main DataSources. *)
Theorem exact_search_org_override :
  forall (app : AppData) (email : string) (row : CsvRow) (hint : string),
    JsMap.get (Js.toLowerCase email) (additionalMap app) = Some row ->
    propTrim "Org" row = Some hint ->
    hint <> "" ->
    let r := performExactSearch email app in
    organization r =
      match status r with
      | Invalid => "-"
      | Valid =>
          match JsMap.get (getBaseName hint) (confData app) with
          | Some conf => if Js.truthy (orgName conf) then orgName conf else hint
          | None => hint
          end
      end.
Proof.
  intros app email row hint Hget Horg Hne r. subst r.
  unfold performExactSearch. rewrite Hget.
  unfold applyAdditional. rewrite Horg.
  assert (Ht : Js.truthy hint = true) by (destruct hint; [contradiction | reflexivity]).
  cbn [Js.truthyOpt Js.orElse]. rewrite Ht.
  rewrite calculateExpirationDate_truthy. cbn [andb].
  unfold afterMainSources.
  destruct (0 <? List.length _); cbn [status isInvalid andb].
  - cbn. destruct (JsMap.get (getBaseName hint) (confData app)); reflexivity.
  - destruct (negb _); cbn [andb].
    + destruct (JsMap.get (getBaseName hint) (confData app)) as [conf|]; reflexivity.
    + destruct (JsMap.get (getBaseName hint) (confData app)) as [conf|]; reflexivity.
Qed.

(** C2 fails as stated: bob is in DataSource alpha, the hint "Gamma" of his
    additional record selects no config, and the organization is overridden
    all the same, from "Alpha School" to "Gamma". *)
Lemma exact_search_overrides_without_config :
  JsMap.get (Js.toLowerCase "bob@x.com") (additionalMap appBobGamma) = Some rowBobGamma /\
  propTrim "Org" rowBobGamma = Some "Gamma" /\
  JsMap.get (getBaseName "Gamma") (confData appBobGamma) = None /\
  organizationFromMainSources appBobGamma "bob@x.com" = "Alpha School" /\
  performExactSearch "bob@x.com" appBobGamma =
    mkSearchResult "bob@x.com" Valid "Gamma" "All Apps plan" 2 "carol" "20240101" "20250101".
Proof. repeat split; reflexivity. Qed.

Lemma gamma_not_empty : "Gamma" <> "".
Proof. discriminate. Defined.

(** The theorem at bob's record with the hint "Gamma". *)
Lemma exact_search_org_override_witness :
  organization (performExactSearch "bob@x.com" appBobGamma) =
    match status (performExactSearch "bob@x.com" appBobGamma) with
    | Invalid => "-"
    | Valid =>
        match JsMap.get (getBaseName "Gamma") (confData appBobGamma) with
        | Some conf => if Js.truthy (orgName conf) then orgName conf else "Gamma"
        | None => "Gamma"
        end
    end.
Proof.
  exact (exact_search_org_override appBobGamma "bob@x.com" rowBobGamma "Gamma"
           eq_refl eq_refl gamma_not_empty).
Defined.

(** The scenarios of the specification: bob with his approval; amy in two
    DataSources without one; an unknown e-mail. *)
Example exact_search_scenarios :
  performExactSearch "bob@x.com" appBobCarol =
    mkSearchResult "bob@x.com" Valid "Alpha School" "All Apps plan" 2 "carol"
                   "20240101" "20250101" /\
  performExactSearch "amy@x.com" appAudit =
    mkSearchResult "amy@x.com" Valid "Alpha School & Beta College"
                   "All Apps plan & Single App" 4 "-" "-" "Rolling" /\
  performExactSearch "zoe@x.com" appAudit =
    mkSearchResult "zoe@x.com" Invalid "-" "-" 0 "-" "-" "-".
Proof. repeat split; reflexivity. Qed.

(** ** User count *)




(** The scenario of the specification: 100 rows at [udgr=150], [naud=10];
    the arithmetic is binary64, so 100 rows at [udgr=57] count as 56. *)
Example adjustedCount_scenarios :
  adjustedCount (mkUserCountConfig 150 10) 100 = Some 160%Z /\
  adjustedCount (mkUserCountConfig 100 0) 100 = Some 100%Z /\
  adjustedCount (mkUserCountConfig 0 0) 100 = Some 100%Z /\
  adjustedCount (mkUserCountConfig 57 0) 100 = Some 56%Z.
Proof. repeat split; vm_compute; reflexivity. Qed.

(** Without [user.conf] the tuning values are the defaults, and a value that
    is not a number leaves its default in place. *)
Example readUserCountConfig_defaults :
  readUserCountConfig dirDuplicateRows = mkUserCountConfig 100 0 /\
  readUserCountConfig [("user.conf", Some ("udgr=fast" ++ String Js.LF "naud=7")%string)]
    = mkUserCountConfig 100 7 /\
  readUserCountConfig dirScenario = mkUserCountConfig 150 10.
Proof. repeat split; vm_compute; reflexivity. Qed.

(** A line of [user.conf] whose key is neither [udgr] nor [naud], or whose
    value is missing or not a number, changes nothing. *)
Lemma readUserConfLines_ignores :
  forall line rest cfg,
    (nth 0 (map Js.trim (Js.split "="%char line)) EmptyString <> "udgr" /\
     nth 0 (map Js.trim (Js.split "="%char line)) EmptyString <> "naud") \/
    match nth_error (map Js.trim (Js.split "="%char line)) 1 with
    | Some v => Js.parseInt v
    | None => None
    end = None ->
    readUserConfLines (line :: rest) cfg = readUserConfLines rest cfg.
Proof.
  intros line rest cfg H. cbn [readUserConfLines].
  set (parts := map Js.trim (Js.split "="%char line)) in *.
  destruct H as [[Hu Hn]|Hv].
  - apply String.eqb_neq in Hu, Hn. now rewrite Hu, Hn.
  - rewrite Hv. destruct (String.eqb _ "udgr"), (String.eqb _ "naud"); destruct cfg; reflexivity.
Qed.

(** Without a readable [user.conf] the tuning values are the defaults. *)
Lemma readUserCountConfig_missing :
  forall dir, readFile dir USER_CONF_FILENAME = None ->
              readUserCountConfig dir = mkUserCountConfig 100 0.
Proof. intros dir H. unfold readUserCountConfig. now rewrite H. Qed.

(** With the default tuning values the count is the total, for every total
    up to a thousand rows (checked one total at a time). *)
Lemma adjustedCount_default_small :
  forall n, n <= 1000 -> adjustedCount (mkUserCountConfig 100 0) n = Some (Z.of_nat n).
Proof.
  assert (H : forallb (fun n => match adjustedCount (mkUserCountConfig 100 0) n with
                                | Some z => Z.eqb z (Z.of_nat n)
                                | None => false
                                end) (seq 0 (Z.to_nat 1001)) = true)
    by (vm_compute; reflexivity).
  intros n Hn. rewrite forallb_forall in H. specialize (H n).
  destruct (adjustedCount (mkUserCountConfig 100 0) n) as [z|].
  - f_equal. apply Z.eqb_eq, H, in_seq. lia.
  - discriminate H. apply in_seq. lia.
Qed.

(** ** The date threshold of the quick audit *)

Lemma digit_not_space : forall c, Js.isDigit c = true -> Js.isWhiteSpace c = false.
Proof. intros [[] [] [] [] [] [] [] []]; intros H; try discriminate H; reflexivity. Qed.

Lemma digit_not_sign :
  forall c, Js.isDigit c = true -> Ascii.eqb c "-" = false /\ Ascii.eqb c "+" = false.
Proof. intros [[] [] [] [] [] [] [] []]; intros H; try discriminate H; split; reflexivity. Qed.

Lemma span_digits :
  forall ds rest,
    allb Js.isDigit ds = true -> startsWithDigit rest = false ->
    Js.span Js.isDigit (ds ++ rest) = (ds, rest).
Proof.
  induction ds as [|c ds IH]; intros rest Hd Hr; simpl.
  - destruct rest as [|c r]; [reflexivity|]. simpl in Hr. simpl. rewrite Hr. reflexivity.
  - simpl in Hd. apply andb_true_iff in Hd as [Hc Hd].
    rewrite Hc, (IH rest Hd Hr). reflexivity.
Qed.

Lemma parseInt_digit_prefix :
  forall ds rest,
    isDigits ds -> startsWithDigit rest = false ->
    Js.parseInt (ds ++ rest) = Some (Js.digitsValue ds).
Proof.
  intros ds rest [Hne Hd] Hr. destruct ds as [|c ds]; [discriminate|].
  pose proof Hd as Hd'. simpl in Hd'. apply andb_true_iff in Hd' as [Hc _].
  unfold Js.parseInt. cbn [append Js.trimStart].
  rewrite (digit_not_space _ Hc).
  destruct (digit_not_sign _ Hc) as [Hm Hp]. rewrite Hm, Hp.
  change (String c (ds ++ rest)) with (String c ds ++ rest)%string.
  rewrite (span_digits _ _ Hd Hr). reflexivity.
Qed.

Lemma parseInt_plus_digit_prefix :
  forall ds rest,
    isDigits ds -> startsWithDigit rest = false ->
    Js.parseInt ("+" ++ ds ++ rest) = Some (Js.digitsValue ds).
Proof.
  intros ds rest [Hne Hd] Hr. destruct ds as [|c ds]; [discriminate|].
  unfold Js.parseInt.
  change ("+" ++ String c ds ++ rest)%string with (String "+" (String c ds ++ rest)).
  cbn [Js.trimStart].
  change (Js.isWhiteSpace "+") with false. cbv iota.
  change (Ascii.eqb "+" "-") with false. change (Ascii.eqb "+" "+") with true. cbv iota.
  rewrite (span_digits _ _ Hd Hr). reflexivity.
Qed.

Lemma digitsValue_loop_nonneg :
  forall s acc, (0 <= acc)%Z -> (0 <= Js.digitsValue_loop s acc)%Z.
Proof.
  induction s as [|c s IH]; intros acc Hacc; cbn [Js.digitsValue_loop]; [exact Hacc|].
  apply IH. unfold Js.digitVal. lia.
Qed.

Lemma parseInt_nondigit_start :
  forall c rest,
    Js.isDigit c = false -> Js.isWhiteSpace c = false -> c <> "+"%char ->
    Js.parseInt (String c rest) = None \/
    exists n, Js.parseInt (String c rest) = Some n /\ (n <= 0)%Z.
Proof.
  intros c rest Hd Hw Hp. unfold Js.parseInt. cbn [Js.trimStart]. rewrite Hw.
  destruct (Ascii.eqb_spec c "-") as [->|Hm].
  - destruct (Js.span Js.isDigit rest) as [ds r]. destruct ds as [|d ds]; [now left|].
    right. eexists; split; [reflexivity|].
    pose proof (digitsValue_loop_nonneg (String d ds) 0 ltac:(lia)). unfold Js.digitsValue. lia.
  - destruct (Ascii.eqb_spec c "+") as [->|_]; [contradiction|].
    cbn [Js.span]. rewrite Hd. now left.
Qed.

(** C10, as the code has it.  An entry passes the date test of the Not Paid
    pass exactly when its trimmed rat is non-empty and [parseInt] reads from
    it an integer of at least 20250724.  So a rat whose leading digits, after
    an optional plus sign, make such a number passes whatever follows them;
    a missing or empty rat, a rat that starts with anything but a digit or a
    plus sign, and a rat that parses to 0 do not. *)
Theorem not_paid_date_threshold :
  (forall ratStr : option string,
     passesDateThreshold ratStr = true <->
     exists s n, ratStr = Some s /\ s <> "" /\ Js.parseInt s = Some n
                 /\ (NOT_PAID_DATE_THRESHOLD <= n)%Z) /\
  NOT_PAID_DATE_THRESHOLD = 20250724%Z /\
  (forall ds rest,
     isDigits ds -> startsWithDigit rest = false ->
     (20250724 <= Js.digitsValue ds)%Z ->
     passesDateThreshold (Some (ds ++ rest)) = true /\
     passesDateThreshold (Some ("+" ++ ds ++ rest)) = true) /\
  passesDateThreshold None = false /\
  passesDateThreshold (Some "") = false /\
  (forall c rest,
     Js.isDigit c = false -> Js.isWhiteSpace c = false -> c <> "+"%char ->
     passesDateThreshold (Some (String c rest)) = false) /\
  (forall s, Js.parseInt s = Some 0%Z -> passesDateThreshold (Some s) = false).
Proof.
  assert (Hiff : forall ratStr : option string,
     passesDateThreshold ratStr = true <->
     exists s n, ratStr = Some s /\ s <> "" /\ Js.parseInt s = Some n
                 /\ (NOT_PAID_DATE_THRESHOLD <= n)%Z).
  { intros ratStr. unfold passesDateThreshold, ratNum, NOT_PAID_DATE_THRESHOLD. split.
    - destruct ratStr as [s|]; [|discriminate].
      destruct s as [|c s]; [discriminate|]. cbn [Js.truthy].
      destruct (Js.parseInt (String c s)) as [n|] eqn:Hp; [|discriminate].
      intros H. apply andb_true_iff in H as [H0 Ht].
      exists (String c s), n. repeat split; try assumption; [discriminate|].
      apply negb_true_iff, Z.ltb_ge in Ht. exact Ht.
    - intros (s & n & -> & Hne & Hp & Hn).
      destruct s as [|c s]; [contradiction|]. cbn [Js.truthy]. rewrite Hp.
      apply andb_true_iff; split; apply negb_true_iff; [apply Z.eqb_neq | apply Z.ltb_ge]; lia. }
  split; [exact Hiff|]. split; [reflexivity|].
  split; [|split; [reflexivity|split; [reflexivity|split]]].
  - intros ds rest Hds Hr Hv. split; apply Hiff.
    + exists (ds ++ rest)%string, (Js.digitsValue ds). repeat split.
      * destruct Hds as [Hne _]. destruct ds; [discriminate|discriminate].
      * apply parseInt_digit_prefix; assumption.
      * exact Hv.
    + exists ("+" ++ ds ++ rest)%string, (Js.digitsValue ds). repeat split.
      * discriminate.
      * apply parseInt_plus_digit_prefix; assumption.
      * exact Hv.
  - intros c rest Hd Hw Hp. unfold passesDateThreshold, ratNum. cbn [Js.truthy].
    destruct (parseInt_nondigit_start c rest Hd Hw Hp) as [->|(n & -> & Hn)]; [reflexivity|].
    unfold NOT_PAID_DATE_THRESHOLD.
    destruct (Z.eqb_spec n 0); cbn [negb andb]; [reflexivity|].
    apply negb_false_iff, Z.ltb_lt. lia.
  - intros s Hp. unfold passesDateThreshold, ratNum.
    destruct (Js.truthy s); [rewrite Hp|]; reflexivity.
Qed.

(** C10 fails as stated: "+20250801" starts with a character that is not a
    digit, and passes the date test. *)
Lemma plus_sign_rat_passes_threshold :
  Js.isDigit "+"%char = false /\
  Js.trim "+20250801" = "+20250801" /\
  Js.parseInt "+20250801" = Some 20250801%Z /\
  passesDateThreshold (Some "+20250801") = true.
Proof. repeat split; reflexivity. Qed.

(** The theorem at "20250801x" and "+20250801x". *)
Lemma not_paid_date_threshold_witness :
  passesDateThreshold (Some "20250801x") = true /\
  passesDateThreshold (Some "+20250801x") = true.
Proof.
  apply (proj1 (proj2 (proj2 not_paid_date_threshold)) "20250801" "x").
  - split; reflexivity.
  - reflexivity.
  - vm_compute. discriminate.
Defined.

(** ** Expiration calculator *)

Lemma digitChar_facts :
  forall k, (0 <= k <= 9)%Z ->
    Js.isDigit (DateFns.digitChar k) = true /\ Js.digitVal (DateFns.digitChar k) = k /\
    nat_of_ascii (DateFns.digitChar k) = 48 + Z.to_nat k.
Proof.
  intros k Hk.
  assert (H : (k = 0 \/ k = 1 \/ k = 2 \/ k = 3 \/ k = 4 \/ k = 5 \/ k = 6 \/ k = 7
               \/ k = 8 \/ k = 9)%Z) by lia.
  repeat (destruct H as [->|H]; [repeat split; reflexivity|]); subst; repeat split; reflexivity.
Qed.

Lemma digitAt_range : forall n k, (0 <= (n / 10 ^ k) mod 10 <= 9)%Z.
Proof. intros n k. pose proof (Z.mod_pos_bound (n / 10 ^ k) 10 ltac:(lia)). lia. Qed.

Lemma digitAt_isDigit : forall n k, Js.isDigit (digitAt n k) = true.
Proof. intros n k. apply digitChar_facts, digitAt_range. Qed.

Lemma digitAt_val : forall n k, Js.digitVal (digitAt n k) = ((n / 10 ^ k) mod 10)%Z.
Proof. intros n k. apply digitChar_facts, digitAt_range. Qed.

Lemma digit_lower : forall c, Js.isDigit c = true -> Js.lowerChar c = c.
Proof. intros [[] [] [] [] [] [] [] []]; intros H; try discriminate H; reflexivity. Qed.

Lemma digit_not_r_dash :
  forall c, Js.isDigit c = true -> Ascii.eqb c "r" = false /\ Ascii.eqb c "-" = false.
Proof. intros [[] [] [] [] [] [] [] []]; intros H; try discriminate H; split; reflexivity. Qed.

(** [trim] leaves a string without white space as it is. *)
Lemma trimEnd_no_space :
  forall s, allb (fun c => negb (Js.isWhiteSpace c)) s = true -> Js.trimEnd s = s.
Proof.
  induction s as [|c s IH]; intros H; [reflexivity|].
  cbn [allb] in H. apply andb_true_iff in H as [Hc Hs]. cbn [Js.trimEnd].
  rewrite (IH Hs). destruct s; [|reflexivity].
  apply negb_true_iff in Hc. now rewrite Hc.
Qed.

Lemma trim_no_space :
  forall s, allb (fun c => negb (Js.isWhiteSpace c)) s = true -> Js.trim s = s.
Proof.
  intros s H. unfold Js.trim.
  assert (Hs : Js.trimStart s = s).
  { destruct s as [|c s]; [reflexivity|]. cbn [allb] in H.
    apply andb_true_iff in H as [Hc _]. apply negb_true_iff in Hc.
    cbn [Js.trimStart]. now rewrite Hc. }
  rewrite Hs. now apply trimEnd_no_space.
Qed.

Lemma allb_app :
  forall p a b, allb p (a ++ b)%string = allb p a && allb p b.
Proof.
  intros p a b. induction a as [|c a IH]; [reflexivity|].
  cbn [append allb]. now rewrite IH, andb_assoc.
Qed.

Lemma allb_impl :
  forall (p q : ascii -> bool) s,
    (forall c, p c = true -> q c = true) -> allb p s = true -> allb q s = true.
Proof.
  intros p q s Hpq. induction s as [|c s IH]; [reflexivity|]. cbn [allb].
  rewrite !andb_true_iff. intros [Hc Hs]. split; [now apply Hpq | now apply IH].
Qed.

Lemma digits_no_space :
  forall s, allb Js.isDigit s = true -> allb (fun c => negb (Js.isWhiteSpace c)) s = true.
Proof.
  intros s. apply allb_impl. intros c Hc. now rewrite (digit_not_space c Hc).
Qed.

Lemma toLowerCase_app :
  forall a b, Js.toLowerCase (a ++ b) = (Js.toLowerCase a ++ Js.toLowerCase b)%string.
Proof.
  intros a b. induction a as [|c a IH]; [reflexivity|].
  cbn [append Js.toLowerCase]. now rewrite IH.
Qed.

Lemma toLowerCase_digits :
  forall s, allb Js.isDigit s = true -> Js.toLowerCase s = s.
Proof.
  induction s as [|c s IH]; intros H; [reflexivity|]. cbn [allb] in H.
  apply andb_true_iff in H as [Hc Hs]. cbn [Js.toLowerCase].
  now rewrite (digit_lower c Hc), (IH Hs).
Qed.

(** A period code of digits followed by a unit is read as that amount and
    that unit, in lower case. *)
Lemma matchPeriod_code :
  forall digits u,
    isDigits digits -> isPeriodUnit u ->
    matchPeriod (Js.toLowerCase (Js.trim (digits ++ String u EmptyString))) =
      Some (digits, Js.lowerChar u) /\
    Ascii.eqb (Js.lowerChar u) "y" = (Ascii.eqb u "y" || Ascii.eqb u "Y").
Proof.
  intros digits u [Hne Hd] Hu.
  assert (Hu' : Js.isWhiteSpace u = false /\ Js.isDigit (Js.lowerChar u) = false /\
                (Ascii.eqb (Js.lowerChar u) "m" || Ascii.eqb (Js.lowerChar u) "y") = true /\
                Ascii.eqb (Js.lowerChar u) "y" = (Ascii.eqb u "y" || Ascii.eqb u "Y")).
  { destruct Hu as [-> | [-> | [-> | ->]]]; repeat split; reflexivity. }
  destruct Hu' as (Hw & Hnd & Hmy & Hy). split; [|exact Hy].
  rewrite trim_no_space.
  2:{ rewrite allb_app, (digits_no_space _ Hd). cbn [allb andb]. now rewrite Hw. }
  rewrite toLowerCase_app, (toLowerCase_digits _ Hd). cbn [Js.toLowerCase].
  unfold matchPeriod. rewrite span_digits; [|exact Hd | cbn; exact Hnd].
  destruct digits as [|c ds]; [discriminate|]. now rewrite Hmy.
Qed.

Lemma four_digits_value :
  forall n, (0 <= n <= 9999)%Z ->
    (10 * (10 * (10 * (10 * 0 + (n / 10 ^ 3) mod 10) + (n / 10 ^ 2) mod 10)
           + (n / 10 ^ 1) mod 10) + (n / 10 ^ 0) mod 10 = n)%Z.
Proof.
  intros n Hn. change (10 ^ 3)%Z with 1000%Z. change (10 ^ 2)%Z with 100%Z.
  change (10 ^ 1)%Z with 10%Z. change (10 ^ 0)%Z with 1%Z.
  Z.div_mod_to_equations. lia.
Qed.

Lemma two_digits_value :
  forall n, (0 <= n <= 99)%Z ->
    (10 * (10 * 0 + (n / 10 ^ 1) mod 10) + (n / 10 ^ 0) mod 10 = n)%Z.
Proof.
  intros n Hn. change (10 ^ 1)%Z with 10%Z. change (10 ^ 0)%Z with 1%Z.
  Z.div_mod_to_equations. lia.
Qed.

Lemma daysInMonth_bounds : forall y m, (28 <= DateFns.daysInMonth y m <= 31)%Z.
Proof.
  intros y m. unfold DateFns.daysInMonth.
  destruct (m =? 2)%Z; [destruct (DateFns.isLeapYearIndex y); lia|].
  destruct (_ || _); lia.
Qed.

(** The parser reads the fixed-width text of a valid date back. *)
Lemma parse_yyyymmdd :
  forall d, validDate d -> DateFns.parse_yyyyMMdd (yyyymmdd d) = Some d.
Proof.
  intros [y m dd] (Hy & Hm & Hd). cbn [DateFns.year DateFns.month DateFns.day] in *.
  pose proof (daysInMonth_bounds y m) as Hdim.
  unfold yyyymmdd, fourDigits, twoDigits, DateFns.parse_yyyyMMdd, DateFns.parseNDigits.
  cbn [DateFns.year DateFns.month DateFns.day DateFns.takeDigits].
  rewrite !digitAt_isDigit. cbn [Js.truthy].
  unfold Js.digitsValue. cbn [Js.digitsValue_loop]. rewrite !digitAt_val.
  rewrite four_digits_value by lia.
  cbn [DateFns.takeDigits]. rewrite !digitAt_isDigit. cbn [Js.truthy Js.digitsValue_loop].
  rewrite !digitAt_val. rewrite two_digits_value by lia.
  cbn [DateFns.takeDigits]. rewrite !digitAt_isDigit. cbn [Js.truthy Js.digitsValue_loop].
  rewrite !digitAt_val. rewrite two_digits_value by lia.
  cbn [DateFns.allWhiteSpace negb].
  replace (0 <? y)%Z with true by (symmetry; apply Z.ltb_lt; lia).
  replace (1 <=? m)%Z with true by (symmetry; apply Z.leb_le; lia).
  replace (m <=? 12)%Z with true by (symmetry; apply Z.leb_le; lia).
  replace (1 <=? dd)%Z with true by (symmetry; apply Z.leb_le; lia).
  replace (dd <=? DateFns.daysInMonth y m)%Z with true by (symmetry; apply Z.leb_le; lia).
  reflexivity.
Qed.

(** [addLeadingZeros] on every number of at most four, and of at most two,
    digits: checked one number at a time. *)
Lemma addLeadingZeros_four_check :
  forallb (fun k => String.eqb (DateFns.addLeadingZeros (Z.of_nat k) 4)
                               (fourDigits (Z.of_nat k) EmptyString))
          (seq 0 (Z.to_nat 10000)) = true.
Proof. vm_compute. reflexivity. Qed.

Lemma addLeadingZeros_two_check :
  forallb (fun k => String.eqb (DateFns.addLeadingZeros (Z.of_nat k) 2)
                               (twoDigits (Z.of_nat k) EmptyString))
          (seq 0 100) = true.
Proof. vm_compute. reflexivity. Qed.

Lemma addLeadingZeros_four :
  forall n, (0 <= n <= 9999)%Z ->
    DateFns.addLeadingZeros n 4 = fourDigits n EmptyString.
Proof.
  intros n Hn. pose proof addLeadingZeros_four_check as H.
  rewrite forallb_forall in H. specialize (H (Z.to_nat n)).
  rewrite Z2Nat.id in H by lia. apply String.eqb_eq, H, in_seq. lia.
Qed.

Lemma addLeadingZeros_two :
  forall n, (0 <= n <= 99)%Z ->
    DateFns.addLeadingZeros n 2 = twoDigits n EmptyString.
Proof.
  intros n Hn. pose proof addLeadingZeros_two_check as H.
  rewrite forallb_forall in H. specialize (H (Z.to_nat n)).
  rewrite Z2Nat.id in H by lia. apply String.eqb_eq, H, in_seq. lia.
Qed.

(** [format] writes the fixed-width text of a valid date. *)
Lemma format_yyyymmdd :
  forall d, validDate d -> DateFns.format_yyyyMMdd d = yyyymmdd d.
Proof.
  intros [y m dd] (Hy & Hm & Hd). cbn [DateFns.year DateFns.month DateFns.day] in *.
  pose proof (daysInMonth_bounds y m) as Hdim.
  unfold DateFns.format_yyyyMMdd, yyyymmdd.
  cbn [DateFns.year DateFns.month DateFns.day].
  replace (0 <? y)%Z with true by (symmetry; apply Z.ltb_lt; lia).
  rewrite addLeadingZeros_four, !addLeadingZeros_two by lia. reflexivity.
Qed.

Lemma inRange_four_digit_year :
  forall y m d, (1 <= y <= 9999)%Z -> (1 <= m <= 12)%Z -> (1 <= d <= 31)%Z ->
    DateFns.inRange y m d = true.
Proof.
  intros y m d Hy Hm Hd. unfold DateFns.inRange, DateFns.daysFromCivil.
  apply andb_true_iff. rewrite !Z.leb_le.
  destruct (m <=? 2)%Z; destruct (2 <? m)%Z; Z.div_mod_to_equations; lia.
Qed.

(** [addMonths] computes the calendar date [k] months later. *)
Lemma addMonths_plusMonths :
  forall d k d',
    validDate d -> (0 <= k)%Z -> plusMonths d k d' -> (DateFns.year d' <= 9999)%Z ->
    DateFns.addMonths d k = Some d' /\ validDate d'.
Proof.
  intros [y m dd] k [y' m' dd'] (Hy & Hm & Hd) Hk (Hidx & Hm' & Hday) Hy'.
  unfold monthIndex in Hidx. cbn [DateFns.year DateFns.month DateFns.day] in *.
  pose proof (daysInMonth_bounds y m) as Hdim.
  pose proof (daysInMonth_bounds y' m') as Hdim'.
  assert (Hvalid : validDate (DateFns.mkDate y' m' dd')).
  { unfold validDate. cbn [DateFns.year DateFns.month DateFns.day]. lia. }
  split; [|exact Hvalid].
  unfold DateFns.addMonths. cbn [DateFns.year DateFns.month DateFns.day].
  destruct (Z.eqb_spec k 0) as [->|Hk0].
  - assert (y' = y /\ m' = m) as [-> ->] by lia.
    f_equal. f_equal. lia.
  - assert (Hq : ((y * 12 + (m - 1) + k) / 12 = y')%Z).
    { symmetry. apply (Z.div_unique _ 12 y' (m' - 1)); lia. }
    assert (Hr : ((y * 12 + (m - 1) + k) mod 12 + 1 = m')%Z).
    { assert (((y * 12 + (m - 1) + k) mod 12 = m' - 1)%Z); [|lia].
      symmetry. apply (Z.mod_unique _ 12 y' (m' - 1)); lia. }
    rewrite Hq, Hr.
    rewrite inRange_four_digit_year by lia. cbn [negb].
    destruct (Z.leb_spec (DateFns.daysInMonth y' m') dd); f_equal; f_equal; lia.
Qed.

Lemma leb_digit_cons :
  forall a b s t, (0 <= a <= 9)%Z -> (0 <= b <= 9)%Z ->
    Js.leb (String (DateFns.digitChar a) s) (String (DateFns.digitChar b) t) =
      if (a <? b)%Z then true else if (b <? a)%Z then false else Js.leb s t.
Proof.
  intros a b s t Ha Hb. cbn [Js.leb].
  destruct (digitChar_facts a Ha) as (_ & _ & ->).
  destruct (digitChar_facts b Hb) as (_ & _ & ->).
  destruct (Z.ltb_spec a b); destruct (Z.ltb_spec b a);
    destruct (Nat.ltb_spec (48 + Z.to_nat a) (48 + Z.to_nat b));
    destruct (Nat.ltb_spec (48 + Z.to_nat b) (48 + Z.to_nat a));
    try reflexivity; lia.
Qed.

(** On fixed-width texts the string order is the order of the dates. *)
Lemma leb_yyyymmdd :
  forall d d',
    validDate d -> validDate d' ->
    (monthIndex d < monthIndex d')%Z \/ d' = d ->
    Js.leb (yyyymmdd d) (yyyymmdd d') = true.
Proof.
  intros [y m dd] [y' m' dd'] (Hy & Hm & Hd) (Hy' & Hm' & Hd') Hle.
  unfold monthIndex in Hle. cbn [DateFns.year DateFns.month DateFns.day] in *.
  pose proof (daysInMonth_bounds y m) as Hdim.
  pose proof (daysInMonth_bounds y' m') as Hdim'.
  assert (Hlex : (y < y' \/ (y = y' /\ (m < m' \/ (m = m' /\ dd = dd'))))%Z).
  { destruct Hle as [Hlt|Heq]; [lia|]. inversion Heq; subst. lia. }
  clear Hle.
  unfold yyyymmdd, fourDigits, twoDigits, digitAt.
  cbn [DateFns.year DateFns.month DateFns.day].
  pose proof (four_digits_value y ltac:(lia)) as Ey.
  pose proof (four_digits_value y' ltac:(lia)) as Ey'.
  pose proof (two_digits_value m ltac:(lia)) as Em.
  pose proof (two_digits_value m' ltac:(lia)) as Em'.
  pose proof (two_digits_value dd ltac:(lia)) as Ed.
  pose proof (two_digits_value dd' ltac:(lia)) as Ed'.
  repeat match goal with
         | |- context [((?n / 10 ^ ?k) mod 10)%Z] =>
             let a := fresh "a" in
             pose proof (digitAt_range n k);
             set (a := ((n / 10 ^ k) mod 10)%Z) in *; clearbody a
         end.
  rewrite !leb_digit_cons by assumption. cbn [Js.leb].
  repeat match goal with
         | |- context [(?a <? ?b)%Z] => destruct (Z.ltb_spec a b); cbv iota
         end; try reflexivity; lia.
Qed.

(** C6, as the code has it.  For a valid eight-digit approval date (year
    0001 to 9999) and a period code of digits followed by m or y in either
    case, let [d'] be the approval date plus that many months (twelve per
    year), on the same day of the month or on the month's last day if it is
    shorter.  Whenever the year of [d'] still has four digits, the calculator
    returns the fixed-width text of [d'], and that text is at least the
    approval date as a string. *)
Theorem expiration_is_approval_plus_period :
  forall (d d' : DateFns.date) (digits : string) (u : ascii),
    validDate d ->
    isDigits digits ->
    isPeriodUnit u ->
    plusMonths d (monthsOfPeriod (Js.digitsValue digits) u) d' ->
    (DateFns.year d' <= 9999)%Z ->
    calculateExpirationDate (Some (yyyymmdd d)) (Some (digits ++ String u EmptyString))
      = yyyymmdd d' /\
    Js.leb (yyyymmdd d) (yyyymmdd d') = true.
Proof.
  intros d d' digits u Hd Hdigits Hu Hplus Hy'.
  assert (Hamount : (0 <= Js.digitsValue digits)%Z)
    by (apply digitsValue_loop_nonneg; lia).
  assert (Hk : (0 <= monthsOfPeriod (Js.digitsValue digits) u)%Z)
    by (unfold monthsOfPeriod; destruct (_ || _); lia).
  destruct (addMonths_plusMonths d _ d' Hd Hk Hplus Hy') as [Hadd Hd'].
  split.
  - unfold calculateExpirationDate.
    assert (Hstr : exists c rest, yyyymmdd d = String c rest /\ Js.isDigit c = true
                                  /\ allb Js.isDigit (yyyymmdd d) = true).
    { eexists _, _. split; [reflexivity|]. split; [apply digitAt_isDigit|].
      unfold yyyymmdd, fourDigits, twoDigits. cbn [allb]. now rewrite !digitAt_isDigit. }
    destruct Hstr as (c & rest & Hs & Hc & Hall).
    assert (Htrim : Js.trim (yyyymmdd d) = yyyymmdd d)
      by (apply trim_no_space, digits_no_space, Hall).
    assert (Hguard : negb (Js.truthyOpt (Some (yyyymmdd d)))
                     || negb (Js.truthyOpt (Some (digits ++ String u EmptyString)%string))
                     || isDash (Some (yyyymmdd d))
                     || isDash (Some (digits ++ String u EmptyString)%string)
                     || isRolling (Some (yyyymmdd d)) = false).
    { unfold isRolling, isDash. rewrite Htrim, (toLowerCase_digits _ Hall), Hs.
      destruct (digit_not_r_dash c Hc) as [Hr Hdash].
      cbn [Js.truthyOpt Js.truthy negb orb String.eqb]. rewrite Hr, Hdash.
      destruct Hdigits as [Hne Hdg]. destruct digits as [|c0 ds]; [discriminate|].
      cbn [append Js.truthy negb orb String.eqb].
      cbn [allb] in Hdg. apply andb_true_iff in Hdg as [Hc0 _].
      destruct (digit_not_r_dash c0 Hc0) as [_ Hdash0]. now rewrite Hdash0. }
    rewrite Hguard, Htrim, (parse_yyyymmdd d Hd).
    destruct (matchPeriod_code digits u Hdigits Hu) as [Hmatch Hunit].
    rewrite Hmatch, Hunit.
    unfold monthsOfPeriod in Hadd. unfold DateFns.addYears.
    destruct (Ascii.eqb u "y" || Ascii.eqb u "Y"); rewrite Hadd; now apply format_yyyymmdd.
  - apply leb_yyyymmdd; try assumption.
    destruct Hplus as (Hidx & _ & Hday).
    destruct (Z.eq_dec (monthsOfPeriod (Js.digitsValue digits) u) 0) as [H0|H0].
    + right. rewrite H0 in Hadd. unfold DateFns.addMonths in Hadd. cbn in Hadd.
      now inversion Hadd.
    + left. lia.
Qed.

(** C6 fails as stated past the year 9999: eight thousand years after
    2024-01-01 the text has nine characters and sorts before the approval
    date; three hundred thousand years after it there is no date at all. *)
Lemma expiration_past_year_9999 :
  yyyymmdd (DateFns.mkDate 2024 1 1) = "20240101" /\
  calculateExpirationDate (Some "20240101") (Some "8000y") = "100240101" /\
  Js.leb "20240101" (calculateExpirationDate (Some "20240101") (Some "8000y")) = false /\
  calculateExpirationDate (Some "20240101") (Some "300000y") = "-".
Proof. repeat split; vm_compute; reflexivity. Qed.

Lemma jan31_valid : validDate (DateFns.mkDate 2024 1 31).
Proof. unfold validDate. repeat split; vm_compute; congruence. Defined.

Lemma one_is_digits : isDigits "1".
Proof. split; reflexivity. Defined.

Lemma m_is_unit : isPeriodUnit "m"%char.
Proof. now left. Defined.

Lemma jan31_plus_one_month :
  plusMonths (DateFns.mkDate 2024 1 31) (monthsOfPeriod (Js.digitsValue "1") "m")
             (DateFns.mkDate 2024 2 29).
Proof. unfold plusMonths, monthIndex. repeat split; vm_compute; congruence. Defined.

Lemma year_2024_four_digits : (DateFns.year (DateFns.mkDate 2024 2 29) <= 9999)%Z.
Proof. vm_compute. congruence. Defined.

(** The theorem at 2024-01-31 plus one month: the last day of February. *)
Lemma expiration_is_approval_plus_period_witness :
  calculateExpirationDate (Some "20240131") (Some "1m") = "20240229" /\
  Js.leb "20240131" "20240229" = true.
Proof.
  exact (expiration_is_approval_plus_period
           (DateFns.mkDate 2024 1 31) (DateFns.mkDate 2024 2 29) "1" "m"%char
           jan31_valid one_is_digits m_is_unit jan31_plus_one_month year_2024_four_digits).
Defined.

(** The scenario of the specification, and the sentinels. *)
Example expiration_scenarios :
  calculateExpirationDate (Some "20240101") (Some "12m") = "20250101" /\
  calculateExpirationDate (Some "20240229") (Some "1Y") = "20250228" /\
  calculateExpirationDate (Some "Rolling") (Some "whatever") = "Rolling" /\
  calculateExpirationDate (Some "rolling") None = "Rolling" /\
  calculateExpirationDate (Some "20240101") (Some "-") = "-" /\
  calculateExpirationDate (Some "20240230") (Some "1m") = "-" /\
  calculateExpirationDate (Some "20240101") (Some "1w") = "-" /\
  calculateExpirationDate None (Some "1m") = "-".
Proof. repeat split; reflexivity. Qed.

(** ** Expired accounts *)


Lemma isInMainSource_true :
  forall dss email,
    isInMainSource dss email = true <->
    exists ds, In ds dss /\ JsMap.has email (dataMap ds) = true.
Proof. intros dss email. unfold isInMainSource. apply existsb_exists. Qed.

Lemma expiredLoop_In :
  forall dss today entries acc0 x,
    In x (expiredLoop dss today entries acc0) <->
    In x acc0 \/
    exists email row,
      In (email, row) entries /\
      isPastDue (calculateExpirationDate (prop "rat" row) (prop "pov" row)) today = true /\
      isInMainSource dss email = true /\ x = listedAs email row.
Proof.
  intros dss today entries.
  induction entries as [|[email row] rest IH]; intros acc0 x; cbn [expiredLoop].
  - split; [now left | intros [H|(e & r & [] & _)]; exact H].
  - destruct (isPastDue _ today && isInMainSource dss email) eqn:Hc; rewrite IH.
    + apply andb_true_iff in Hc as [Hp Hm]. rewrite in_app_iff. cbn [In]. split.
      * intros [[H|[<-|[]]]|(e & r & Hin & H)].
        -- now left.
        -- right. exists email, row. repeat split; auto; now left.
        -- right. exists e, r. split; [now right | exact H].
      * intros [H|(e & r & [Heq|Hin] & Hp' & Hm' & ->)].
        -- left. now left.
        -- inversion Heq; subst. left. right. now left.
        -- right. exists e, r. auto.
    + split.
      * intros [H|(e & r & Hin & H)]; [now left|].
        right. exists e, r. split; [now right | exact H].
      * intros [H|(e & r & [Heq|Hin] & Hp' & Hm' & ->)]; [now left| |].
        -- inversion Heq; subst. rewrite Hp', Hm' in Hc. discriminate.
        -- right. exists e, r. auto.
Qed.


(** The scenario of the specification: bob, approved on 2024-01-01 for twelve
    months, is listed on 2025-02-01, for the admin and for carol. *)
Example expired_accounts_scenario :
  getExpiredAccounts appBobCarol (Some "admin") "20250201"
    = [mkExpired "bob@x.com" "Unknown" "carol" "20250101"] /\
  getExpiredAccounts appBobCarol (Some "Carol") "20250201"
    = [mkExpired "bob@x.com" "Unknown" "carol" "20250101"] /\
  getExpiredAccounts appBobCarol (Some "dave") "20250201" = [] /\
  getExpiredAccounts appBobCarol (Some "admin") "20241231" = [].
Proof. repeat split; reflexivity. Qed.

(** ** Fuzzy search *)

Lemma startsWith_spec :
  forall p s, Js.startsWith s p = true <-> exists post, s = (p ++ post)%string.
Proof.
  induction p as [|a p IH]; intros s; cbn [Js.startsWith].
  - split; [intros _; exists s; reflexivity | reflexivity].
  - destruct s as [|b s].
    + split; [discriminate | intros [post H]; discriminate H].
    + rewrite andb_true_iff, IH. split.
      * intros [Hab [post ->]]. apply Ascii.eqb_eq in Hab. subst b.
        exists post. reflexivity.
      * intros [post H]. cbn in H. inversion H; subst. split.
        -- apply Ascii.eqb_refl.
        -- exists post. reflexivity.
Qed.

Lemma includes_spec :
  forall s t, Js.includes s t = true <-> isSubstring t s.
Proof.
  unfold isSubstring.
  induction s as [|c s IH]; intros t; cbn [Js.includes]; rewrite orb_true_iff.
  - split.
    + intros [H|H]; [|discriminate]. apply startsWith_spec in H as [post H].
      exists EmptyString, post. exact H.
    + intros (pre & post & H). left. apply startsWith_spec.
      destruct pre; [|discriminate]. exists post. exact H.
  - rewrite IH. split.
    + intros [H|(pre & post & ->)].
      * apply startsWith_spec in H as [post H]. exists EmptyString, post. exact H.
      * exists (String c pre), post. reflexivity.
    + intros (pre & post & H). destruct pre as [|a pre].
      * left. apply startsWith_spec. exists post. exact H.
      * right. cbn in H. inversion H; subst. exists pre, post. reflexivity.
Qed.

Lemma fuzzyFound_spec :
  forall term app, fuzzyFound term app = true <-> hasIndexedMatch app term.
Proof.
  intros term app. unfold fuzzyFound, hasIndexedMatch, indexedEmail.
  destruct (existsb (fun ds => existsb _ (JsMap.keys (dataMap ds))) (dataSources app))
    eqn:Hmain; cbn [negb].
  - split; [intros _ | reflexivity].
    apply existsb_exists in Hmain as (ds & Hds & Hk).
    apply existsb_exists in Hk as (key & Hkey & Hinc).
    exists key. split; [left; exists ds; auto | apply includes_spec; exact Hinc].
  - rewrite existsb_exists. split.
    + intros (key & Hkey & Hinc). exists key. split; [now right | now apply includes_spec].
    + intros (key & [(ds & Hds & Hkey)|Hkey] & Hsub).
      * exfalso. apply not_true_iff_false in Hmain. apply Hmain.
        apply existsb_exists. exists ds. split; [exact Hds|].
        apply existsb_exists. exists key. split; [exact Hkey | now apply includes_spec].
      * exists key. split; [exact Hkey | now apply includes_spec].
Qed.

(** C8.  For a term of at least three characters fuzzy search tells a hit
    from a miss and nothing more.  On a hit, whichever indexed e-mails hold
    the term, the response is the fixed message, so any two data sets with a
    match answer identically; on a miss the response is the error message
    built from the caller's term alone.  The same holds for the fuzzy branch
    of the internal route, whose miss message quotes the caller's input. *)
Theorem fuzzy_search_reveals_only_found :
  forall term : string,
    3 <= String.length term ->
    (forall app1 app2,
       hasIndexedMatch app1 term -> hasIndexedMatch app2 term ->
       performFuzzySearch term app1 = JsonMessage MSG_POTENTIAL /\
       performFuzzySearch term app2 = performFuzzySearch term app1) /\
    (forall app,
       ~ hasIndexedMatch app term ->
       performFuzzySearch term app = JsonError (msgNoMatch term) 404) /\
    (forall input app1 app2,
       term = Js.toLowerCase (Js.trim input) ->
       hasIndexedMatch app1 term -> hasIndexedMatch app2 term ->
       postFuzzy input app1 = JsonMessage MSG_POTENTIAL /\
       postFuzzy input app2 = postFuzzy input app1) /\
    (forall input app,
       term = Js.toLowerCase (Js.trim input) ->
       ~ hasIndexedMatch app term ->
       postFuzzy input app = JsonError (msgNoMatch input) 200).
Proof.
  intros term Hlen.
  assert (Hlt : (String.length term <? 3) = false) by (apply Nat.ltb_ge; exact Hlen).
  assert (Hhit : forall app, hasIndexedMatch app term ->
                             performFuzzySearch term app = JsonMessage MSG_POTENTIAL).
  { intros app H. unfold performFuzzySearch. rewrite Hlt.
    apply fuzzyFound_spec in H. rewrite H. reflexivity. }
  assert (Hhit' : forall input app, term = Js.toLowerCase (Js.trim input) ->
                    hasIndexedMatch app term -> postFuzzy input app = JsonMessage MSG_POTENTIAL).
  { intros input app Ht H. unfold postFuzzy. rewrite <- Ht, Hlt.
    apply fuzzyFound_spec in H. rewrite H. reflexivity. }
  repeat split.
  - apply Hhit; assumption.
  - rewrite !Hhit by assumption. reflexivity.
  - intros app Hno. unfold performFuzzySearch. rewrite Hlt.
    destruct (fuzzyFound term app) eqn:Hf; [|reflexivity].
    apply fuzzyFound_spec in Hf. contradiction.
  - apply Hhit'; assumption.
  - rewrite !Hhit' by assumption. reflexivity.
  - intros input app Ht Hno. unfold postFuzzy. rewrite <- Ht, Hlt.
    destruct (fuzzyFound term app) eqn:Hf; [|reflexivity].
    apply fuzzyFound_spec in Hf. contradiction.
Qed.

Lemma bob_matches_in_alpha : hasIndexedMatch appBobCarol "bob".
Proof.
  exists "bob@x.com". split.
  - left. exists dsAlpha. split; [now left | now left].
  - exists "", "@x.com". reflexivity.
Defined.

Lemma amy_matches_in_additional : hasIndexedMatch appAmyAdditional "x.com".
Proof.
  exists "amy@x.com". split.
  - right. now left.
  - exists "amy@", "". reflexivity.
Defined.

Lemma bob_matches_x_com : hasIndexedMatch appBobCarol "x.com".
Proof.
  exists "bob@x.com". split.
  - left. exists dsAlpha. split; [now left | now left].
  - exists "bob@", "". reflexivity.
Defined.

Lemma three_le_five : 3 <= String.length "x.com".
Proof. cbn. lia. Defined.

(** The theorem at the term "x.com", found in a DataSource of one data set
    and in the additional map of another. *)
Lemma fuzzy_search_reveals_only_found_witness :
  performFuzzySearch "x.com" appBobCarol = JsonMessage MSG_POTENTIAL /\
  performFuzzySearch "x.com" appAmyAdditional = performFuzzySearch "x.com" appBobCarol.
Proof.
  exact (proj1 (fuzzy_search_reveals_only_found "x.com" three_le_five)
           appBobCarol appAmyAdditional bob_matches_x_com amy_matches_in_additional).
Defined.

(** ** Quick audit *)

Lemma JsSet_has_add :
  forall x y s, JsSet.has x (JsSet.add y s) = true <-> x = y \/ JsSet.has x s = true.
Proof.
  intros x y s. unfold JsSet.add.
  destruct (JsSet.has y s) eqn:Hy.
  - split; [now right | intros [->|H]; assumption].
  - unfold JsSet.has. rewrite existsb_app, orb_true_iff. cbn [existsb].
    rewrite orb_false_r, String.eqb_eq. tauto.
Qed.

Lemma JsMap_has_In :
  forall (V : Type) k (m : JsMap.t V), JsMap.has k m = true <-> In k (JsMap.keys m).
Proof.
  intros V k m. unfold JsMap.has. induction m as [|[k' v] m IH]; cbn [JsMap.get JsMap.keys map In fst].
  - split; [discriminate | contradiction].
  - destruct (String.eqb_spec k' k) as [->|Hne].
    + split; [now left | reflexivity].
    + rewrite IH. unfold JsMap.keys. split; [now right | intros [H|H]; [contradiction | exact H]].
Qed.

(** The account that the first pass pushes for an entry. *)
Lemma notPaidLoop_closed_form :
  forall dss pm entries accounts added,
    fst (notPaidLoop dss pm entries accounts added) =
      (accounts ++
       map (fun e => mkQA (fst e) (Js.orElse (propTrim "rat" (snd e)) "-")
                          (Js.orElse (propTrim "Approver" (snd e)) "-")
                          (Js.orElse (propTrim "pov" (snd e)) "-") NotPaid)
           (filter (fun e => passesDateThreshold (propTrim "rat" (snd e))
                             && isInMainSource dss (fst e)
                             && negb (JsMap.has (fst e) pm)) entries))%list.
Proof.
  intros dss pm entries.
  induction entries as [|[email row] rest IH]; intros accounts added;
    cbn [notPaidLoop filter map fst snd].
  - now rewrite app_nil_r.
  - destruct (passesDateThreshold (propTrim "rat" row)); cbn [negb andb]; [|apply IH].
    destruct (isInMainSource dss email); cbn [negb andb]; [|apply IH].
    destruct (JsMap.has email pm); cbn [negb]; [apply IH|].
    rewrite IH, <- app_assoc. reflexivity.
Qed.

Lemma notPaidLoop_added :
  forall dss pm entries accounts added,
    (forall e, In e (map qa_email accounts) -> JsSet.has e added = true) ->
    forall e, In e (map qa_email (fst (notPaidLoop dss pm entries accounts added))) ->
              JsSet.has e (snd (notPaidLoop dss pm entries accounts added)) = true.
Proof.
  intros dss pm entries.
  induction entries as [|[email row] rest IH]; intros accounts added Hinv;
    cbn [notPaidLoop fst snd].
  - exact Hinv.
  - destruct (negb (passesDateThreshold (propTrim "rat" row))); [now apply IH|].
    destruct (negb (isInMainSource dss email)); [now apply IH|].
    destruct (negb (JsMap.has email pm)); [|now apply IH].
    apply IH. intros e. rewrite map_app, in_app_iff. cbn [map In qa_email].
    intros [H|[<-|[]]]; apply JsSet_has_add; [right; now apply Hinv | now left].
Qed.

Lemma NoDup_snoc :
  forall (A : Type) (l : list A) (x : A), NoDup l -> ~ In x l -> NoDup (l ++ [x]).
Proof.
  intros A l x Hnd. induction Hnd as [|y l Hy Hnd IH]; intros Hx; cbn [app].
  - constructor; [intros [] | constructor].
  - constructor.
    + rewrite in_app_iff. cbn [In]. intros [H|[H|[]]]; [contradiction|].
      apply Hx. now left.
    + apply IH. intros H. apply Hx. now right.
Qed.

Lemma notRegisteredKeys_invariant :
  forall am keys accounts added,
    auditInvariant accounts added ->
    auditInvariant (fst (notRegisteredKeys am keys accounts added))
                   (snd (notRegisteredKeys am keys accounts added)) /\
    (forall a, In a accounts -> In a (fst (notRegisteredKeys am keys accounts added))).
Proof.
  intros am keys.
  induction keys as [|email rest IH]; intros accounts added Hinv;
    cbn [notRegisteredKeys fst snd].
  - split; [exact Hinv | auto].
  - destruct (JsSet.has email added) eqn:Hadded; [now apply IH|].
    destruct (negb (JsMap.has email am)); [|now apply IH].
    destruct Hinv as [Hnd Hin].
    destruct (IH (accounts ++ [mkQA email "-" "-" "-" NotRegistered])%list
                 (JsSet.add email added)) as [Hinv' Hkeep].
    + split.
      * rewrite map_app. cbn [map qa_email].
        apply NoDup_snoc; [exact Hnd|].
        intros H. apply Hin in H. rewrite H in Hadded. discriminate.
      * intros e. rewrite map_app, in_app_iff. cbn [map In qa_email].
        intros [H|[<-|[]]]; apply JsSet_has_add; [right; now apply Hin | now left].
    + split; [exact Hinv'|]. intros a Ha. apply Hkeep, in_app_iff. now left.
Qed.

Lemma notRegisteredLoop_invariant :
  forall am dss accounts added,
    auditInvariant accounts added ->
    auditInvariant (fst (notRegisteredLoop am dss accounts added))
                   (snd (notRegisteredLoop am dss accounts added)) /\
    (forall a, In a accounts -> In a (fst (notRegisteredLoop am dss accounts added))).
Proof.
  intros am dss.
  induction dss as [|ds rest IH]; intros accounts added Hinv; cbn [notRegisteredLoop fst snd].
  - split; [exact Hinv | auto].
  - destruct (arrayIncludes (baseName ds) excludedBaseNames); [now apply IH|].
    destruct (notRegisteredKeys_invariant am (JsMap.keys (dataMap ds)) accounts added Hinv)
      as [Hinv' Hkeep].
    destruct (notRegisteredKeys am (JsMap.keys (dataMap ds)) accounts added)
      as [accounts' added'].
    cbn [fst snd] in Hinv', Hkeep.
    destruct (IH accounts' added' Hinv') as [Hinv'' Hkeep'].
    split; [exact Hinv''|]. intros a Ha. apply Hkeep', Hkeep, Ha.
Qed.

Lemma NoDup_map_filter :
  forall (A B : Type) (f : A -> B) (p : A -> bool) (l : list A),
    NoDup (map f l) -> NoDup (map f (filter p l)).
Proof.
  intros A B f p l. induction l as [|x l IH]; cbn [map filter]; intros Hnd.
  - constructor.
  - inversion Hnd as [|y l' Hx Hnd']; subst.
    destruct (p x); cbn [map]; [|now apply IH].
    constructor; [|now apply IH].
    intros H. apply Hx. apply in_map_iff in H as (z & Hz & Hin).
    apply filter_In in Hin as [Hin _]. apply in_map_iff. exists z. auto.
Qed.

Lemma NoDup_map_entriesFor :
  forall accounts a,
    NoDup (map qa_email accounts) -> In a accounts ->
    entriesFor (qa_email a) accounts = [a].
Proof.
  unfold entriesFor.
  induction accounts as [|x l IH]; intros a Hnd Hin; [contradiction|].
  cbn [map] in Hnd. inversion Hnd as [|y l' Hx Hnd']; subst. cbn [filter].
  destruct Hin as [->|Hin].
  - rewrite String.eqb_refl. f_equal.
    clear IH Hnd Hnd'. induction l as [|z l IHl]; [reflexivity|]. cbn [filter].
    destruct (String.eqb_spec (qa_email z) (qa_email a)) as [He|He].
    + exfalso. apply Hx. cbn [map In]. now left.
    + apply IHl. intros H. apply Hx. cbn [map In]. now right.
  - destruct (String.eqb_spec (qa_email x) (qa_email a)) as [He|He].
    + exfalso. apply Hx. rewrite He. now apply in_map.
    + now apply IH.
Qed.

(** After the first pass nothing is listed twice. *)
Lemma notPaidLoop_invariant :
  forall dss pm entries,
    NoDup (map fst entries) ->
    auditInvariant (fst (notPaidLoop dss pm entries [] JsSet.empty))
                   (snd (notPaidLoop dss pm entries [] JsSet.empty)).
Proof.
  intros dss pm entries Hnd. split.
  - rewrite notPaidLoop_closed_form. cbn [app]. rewrite map_map. cbn [qa_email].
    now apply NoDup_map_filter.
  - apply notPaidLoop_added. intros e [].
Qed.

(** C5.  The quick audit lists no e-mail twice, whether it comes from the
    Not Paid pass, the Not Registered pass, or from several DataSources; and
    an e-mail that meets the conditions of the Not Paid pass has exactly one
    entry, with reason Not Paid, also when it is a key of DataSources that
    the Not Registered pass visits. *)
Theorem quick_audit_lists_each_email_once :
  forall app : AppData,
    JsMap.wf (additionalMap app) ->
    NoDup (map qa_email (getQuickAuditAccounts app)) /\
    (forall email,
       qualifiesNotPaid app email ->
       exists a, entriesFor email (getQuickAuditAccounts app) = [a] /\
                 qa_email a = email /\ qa_reason a = NotPaid).
Proof.
  intros app Hwf. unfold getQuickAuditAccounts.
  pose proof (notPaidLoop_invariant (dataSources app) (paymentMap app)
                (JsMap.entries (additionalMap app)) Hwf) as Hinv1.
  pose proof (notPaidLoop_closed_form (dataSources app) (paymentMap app)
                (JsMap.entries (additionalMap app)) [] JsSet.empty) as Hform.
  destruct (notPaidLoop (dataSources app) (paymentMap app)
              (JsMap.entries (additionalMap app)) [] JsSet.empty) as [accounts1 added1].
  cbn [fst snd] in Hinv1, Hform.
  destruct (notRegisteredLoop_invariant (additionalMap app) (dataSources app)
              accounts1 added1 Hinv1) as [[Hnd _] Hkeep].
  split; [exact Hnd|].
  intros email (row & Hin & Hpass & Hmain & Hpay).
  set (a := mkQA email (Js.orElse (propTrim "rat" row) "-")
                 (Js.orElse (propTrim "Approver" row) "-")
                 (Js.orElse (propTrim "pov" row) "-") NotPaid).
  exists a. split; [|split; reflexivity].
  change email with (qa_email a). apply NoDup_map_entriesFor; [exact Hnd|].
  apply Hkeep. rewrite Hform. cbn [List.app]. apply in_map_iff.
  exists (email, row). split; [reflexivity|].
  apply filter_In. split; [exact Hin|]. cbn [fst snd].
  rewrite Hpass, Hmain, Hpay. reflexivity.
Qed.

Lemma appAudit_wf : JsMap.wf (additionalMap appAudit).
Proof. repeat constructor. intros []. Defined.

Lemma bob_qualifies_not_paid : qualifiesNotPaid appAudit "bob@x.com".
Proof. exists rowBobUnpaid. repeat split; try reflexivity. now left. Defined.

(** The theorem at a data set where bob is unpaid and a key of both
    DataSources, and amy is a key of both without an additional record. *)
Lemma quick_audit_lists_each_email_once_witness :
  getQuickAuditAccounts appAudit =
    [ mkQA "bob@x.com" "20250801" "carol" "12m" NotPaid;
      mkQA "amy@x.com" "-" "-" "-" NotRegistered ] /\
  inAuditedDataSource appAudit "bob@x.com" /\
  NoDup (map qa_email (getQuickAuditAccounts appAudit)) /\
  exists a, entriesFor "bob@x.com" (getQuickAuditAccounts appAudit) = [a] /\
            qa_email a = "bob@x.com" /\ qa_reason a = NotPaid.
Proof.
  split; [reflexivity|]. split.
  - exists (mkDataSource "alpha" [("bob@x.com", rowBob); ("amy@x.com", rowAmy)]).
    repeat split; [now left | now left].
  - split.
    + exact (proj1 (quick_audit_lists_each_email_once appAudit appAudit_wf)).
    + exact (proj2 (quick_audit_lists_each_email_once appAudit appAudit_wf)
                   "bob@x.com" bob_qualifies_not_paid).
Defined.

(** *** The maps that the loader builds have no key twice *)

Lemma JsMap_set_keys_In :
  forall (V : Type) k (v : V) (m : JsMap.t V) x,
    In x (JsMap.keys (JsMap.set k v m)) -> x = k \/ In x (JsMap.keys m).
Proof.
  intros V k v m x. unfold JsMap.keys.
  induction m as [|[k' v'] m IH]; cbn [JsMap.set map fst In].
  - intros [H|[]]. now left.
  - destruct (String.eqb_spec k' k) as [->|Hne]; cbn [map fst In].
    + intros [H|H]; [now left | right; now right].
    + intros [H|H]; [right; now left|]. destruct (IH H) as [H'|H']; [now left | right; now right].
Qed.

Lemma JsMap_set_wf :
  forall (V : Type) k (v : V) (m : JsMap.t V), JsMap.wf m -> JsMap.wf (JsMap.set k v m).
Proof.
  intros V k v m. unfold JsMap.wf.
  induction m as [|[k' v'] m IH]; intros Hwf; cbn [JsMap.set].
  - repeat constructor. intros [].
  - unfold JsMap.keys in *. cbn [map fst] in Hwf. inversion Hwf as [|x l Hx Hnd]; subst.
    destruct (String.eqb_spec k' k) as [->|Hne]; cbn [map fst].
    + now constructor.
    + constructor; [|now apply IH].
      intros H. apply JsMap_set_keys_In in H as [H|H]; [now apply Hne | contradiction].
Qed.

Lemma indexRows_wf :
  forall data m, JsMap.wf m -> JsMap.wf (indexRows data m).
Proof.
  induction data as [|row rest IH]; intros m Hwf; cbn [indexRows]; [exact Hwf|].
  destruct (option_map Js.toLowerCase (propTrim "Email" row)) as [key|]; [|now apply IH].
  apply IH. destruct (Js.truthy key); [now apply JsMap_set_wf | exact Hwf].
Qed.

Lemma loadSpecialCsv_wf :
  forall dir f expected, JsMap.wf (loadSpecialCsv dir f expected).
Proof.
  intros dir f expected. unfold loadSpecialCsv.
  assert (He : JsMap.wf (@JsMap.empty CsvRow)) by constructor.
  destruct f as [f|]; [|exact He]. destruct (readFile dir f) as [t|]; [|exact He].
  destruct (Js.truthy (Js.trim t)); [|exact He]. now apply indexRows_wf.
Qed.

(** The hypothesis of the quick-audit theorem holds of every loaded data set. *)
Lemma loaded_additionalMap_wf :
  forall dir, JsMap.wf (additionalMap (QueryRoute.loadAndProcessData dir)).
Proof.
  intros dir. unfold QueryRoute.loadAndProcessData.
  destruct (loadConfFiles dir _ JsMap.empty JsSet.empty) as [conf known].
  cbn [additionalMap]. apply loadSpecialCsv_wf.
Qed.

(** ** The cache of the data repository *)

Lemma step_coherent :
  forall s e s', coherent s -> Cache.step s e = Some s' -> coherent s'.
Proof.
  intros [cd dp fl st sd] e s' Hc Hs. unfold coherent in *. cbn in Hc.
  destruct e as [|p data|p]; cbn in Hs.
  - inversion Hs; subst; clear Hs. unfold Cache.getData. cbn.
    destruct cd as [d|]; cbn; [exact Hc|].
    destruct dp as [p|]; cbn; [exact Hc|]. now subst fl.
  - destruct (existsb (Nat.eqb p) fl) eqn:Hin; [|discriminate].
    inversion Hs; subst; clear Hs. cbn.
    destruct cd as [d|]; [destruct dp; [destruct Hc as [-> _]; discriminate | contradiction]|].
    destruct dp as [q|]; [|subst fl; discriminate].
    subst fl. cbn in Hin. rewrite orb_false_r in Hin.
    apply Nat.eqb_eq in Hin. subst q. unfold Cache.removeLoad. cbn.
    rewrite Nat.eqb_refl. split; [reflexivity | now left].
  - destruct (existsb (Nat.eqb p) fl) eqn:Hin; [|discriminate].
    inversion Hs; subst; clear Hs. cbn.
    destruct cd as [d|]; [destruct dp; [destruct Hc as [-> _]; discriminate | contradiction]|].
    destruct dp as [q|]; [|subst fl; discriminate].
    subst fl. cbn in Hin. rewrite orb_false_r in Hin.
    apply Nat.eqb_eq in Hin. subst q. unfold Cache.removeLoad. cbn.
    rewrite Nat.eqb_refl. reflexivity.
Qed.

Lemma run_coherent :
  forall trace s s', coherent s -> Cache.run s trace = Some s' -> coherent s'.
Proof.
  induction trace as [|e rest IH]; intros s s' Hc Hr; cbn in Hr.
  - inversion Hr; subst. exact Hc.
  - destruct (Cache.step s e) as [s1|] eqn:Hs; [|discriminate].
    apply (IH s1 s'); [apply (step_coherent s e s1 Hc Hs) | exact Hr].
Qed.

Lemma reachable_coherent : forall s, reachable s -> coherent s.
Proof.
  intros s [trace Hr]. apply (run_coherent trace Cache.initial s); [reflexivity | exact Hr].
Qed.

Lemma run_app :
  forall t1 t2 s s1 s2,
    Cache.run s t1 = Some s1 -> Cache.run s1 t2 = Some s2 ->
    Cache.run s (t1 ++ t2) = Some s2.
Proof.
  induction t1 as [|e rest IH]; intros t2 s s1 s2 H1 H2; cbn in *.
  - inversion H1; subst. exact H2.
  - destruct (Cache.step s e) as [s'|]; [|discriminate]. now apply (IH t2 s' s1 s2).
Qed.

Lemma reachable_step :
  forall s e s', reachable s -> Cache.step s e = Some s' -> reachable s'.
Proof.
  intros s e s' [trace Hr] Hs. exists (trace ++ [e])%list.
  apply (run_app trace [e] Cache.initial s s' Hr). cbn. rewrite Hs. reflexivity.
Qed.

(** Once loaded, no event changes the state. *)
Lemma loaded_is_fixed :
  forall trace s s' data,
    coherent s -> Cache.cachedData s = Some data ->
    Cache.run s trace = Some s' -> s' = s.
Proof.
  induction trace as [|e rest IH]; intros s s' data Hc Hd Hr; cbn in Hr.
  - now inversion Hr.
  - assert (Hfl : Cache.inFlight s = []).
    { unfold coherent in Hc. rewrite Hd in Hc.
      destruct (Cache.dataPromise s); [apply Hc | contradiction]. }
    assert (Hs : Cache.step s e = Some s \/ Cache.step s e = None).
    { destruct e as [|p d|p]; cbn.
      - left. unfold Cache.getData. rewrite Hd. reflexivity.
      - rewrite Hfl. now right.
      - rewrite Hfl. now right. }
    destruct Hs as [Hs|Hs]; rewrite Hs in Hr; [|discriminate].
    now apply (IH s s' data).
Qed.

(** C7.  In every state that the event loop can reach: at most one load is
    in flight; every event moves the cache along empty, loading, loaded, or
    from loading back to empty; a call made while a build is pending returns
    that same build and starts nothing; once loaded, every call returns the
    memoized data, which is what the shared build was fulfilled with, and no
    sequence of events changes the state or starts a load; a failed build
    leaves the cache empty, where the next call starts a fresh load. *)
Theorem cache_state_machine :
  forall s : Cache.State,
    reachable s ->
    List.length (Cache.inFlight s) <= 1 /\
    (forall e s', Cache.step s e = Some s' ->
                  allowed (Cache.phase s) (Cache.phase s') /\ reachable s') /\
    (forall p, Cache.phase s = Cache.Loading p ->
               Cache.inFlight s = [p] /\ Cache.getData s = (Cache.Shared p, s)) /\
    (forall data, Cache.phase s = Cache.Loaded data ->
               Cache.inFlight s = [] /\
               Cache.getData s = (Cache.Resolved data, s) /\
               (exists p, Cache.dataPromise s = Some p /\
                          In (p, Cache.Fulfilled data) (Cache.settled s)) /\
               forall trace s', Cache.run s trace = Some s' -> s' = s) /\
    (forall p data s', Cache.phase s = Cache.Loading p ->
               Cache.step s (Cache.Fulfil p data) = Some s' ->
               Cache.phase s' = Cache.Loaded data /\ Cache.inFlight s' = []) /\
    (forall p s', Cache.phase s = Cache.Loading p ->
               Cache.step s (Cache.Reject p) = Some s' ->
               Cache.phase s' = Cache.Empty /\ Cache.inFlight s' = []) /\
    (Cache.phase s = Cache.Empty ->
               Cache.inFlight s = [] /\
               Cache.getData s =
                 (Cache.Shared (Cache.started s),
                  Cache.mkState None (Some (Cache.started s)) [Cache.started s]
                                (S (Cache.started s)) (Cache.settled s))).
Proof.
  intros s Hreach. pose proof (reachable_coherent s Hreach) as Hc.
  assert (Hstep : forall e s', Cache.step s e = Some s' -> reachable s')
    by (intros e s'; apply reachable_step; exact Hreach).
  assert (Hfix : forall data, Cache.cachedData s = Some data ->
                   forall trace s', Cache.run s trace = Some s' -> s' = s)
    by (intros data Hd trace s'; apply (loaded_is_fixed trace s s' data Hc Hd)).
  clear Hreach.
  destruct s as [cd dp fl st sd]. unfold coherent in Hc. cbn in Hc, Hfix.
  unfold Cache.phase.
  cbn [Cache.cachedData Cache.dataPromise Cache.inFlight Cache.started Cache.settled].
  destruct cd as [d|]; [destruct dp as [q|]; [|contradiction] | destruct dp as [q|]].
  - (* loaded *)
    destruct Hc as [-> Hq]. repeat split; try discriminate.
    + cbn. lia.
    + destruct e as [|p data|p]; cbn in H; inversion H; subst; constructor.
    + eapply Hstep; eassumption.
    + inversion H; subst. reflexivity.
    + inversion H; subst. exists q. split; [reflexivity | exact Hq].
    + inversion H; subst. apply (Hfix data eq_refl).
  - (* loading *)
    subst fl. repeat split; try discriminate.
    + cbn. lia.
    + destruct e as [|p data|p]; cbn in H.
      * inversion H; subst. constructor.
      * destruct (p =? q); cbn in H; inversion H; subst. constructor.
      * destruct (p =? q); cbn in H; inversion H; subst. constructor.
    + eapply Hstep; eassumption.
    + inversion H; subst. reflexivity.
    + inversion H; subst. reflexivity.
    + inversion H; subst. cbn in H0. rewrite Nat.eqb_refl in H0. cbn in H0.
      inversion H0; subst. reflexivity.
    + inversion H; subst. cbn in H0. rewrite Nat.eqb_refl in H0. cbn in H0.
      inversion H0; subst. cbn. unfold Cache.removeLoad. cbn. rewrite Nat.eqb_refl. reflexivity.
    + inversion H; subst. cbn in H0. rewrite Nat.eqb_refl in H0. cbn in H0.
      inversion H0; subst. reflexivity.
    + inversion H; subst. cbn in H0. rewrite Nat.eqb_refl in H0. cbn in H0.
      inversion H0; subst. cbn. unfold Cache.removeLoad. cbn. rewrite Nat.eqb_refl. reflexivity.
  - (* empty *)
    subst fl. repeat split; try discriminate.
    + cbn. lia.
    + destruct e as [|p data|p]; cbn in H; inversion H; subst. constructor.
    + eapply Hstep; eassumption.
Qed.

Lemma cache_scenario_reachable :
  reachable (Cache.mkState (Some appBobCarol) (Some 1) [] 2
               [(1, Cache.Fulfilled appBobCarol); (0, Cache.Rejected)]).
Proof.
  exists [Cache.Call; Cache.Call; Cache.Reject 0; Cache.Call;
          Cache.Fulfil 1 appBobCarol; Cache.Call].
  reflexivity.
Defined.

(** The theorem after a failed and a successful build. *)
Lemma cache_state_machine_witness :
  Cache.run Cache.initial
    [Cache.Call; Cache.Call; Cache.Reject 0; Cache.Call; Cache.Fulfil 1 appBobCarol]
    = Some (Cache.mkState (Some appBobCarol) (Some 1) [] 2
              [(1, Cache.Fulfilled appBobCarol); (0, Cache.Rejected)]) /\
  (forall trace s',
     Cache.run (Cache.mkState (Some appBobCarol) (Some 1) [] 2
                  [(1, Cache.Fulfilled appBobCarol); (0, Cache.Rejected)]) trace = Some s' ->
     s' = Cache.mkState (Some appBobCarol) (Some 1) [] 2
            [(1, Cache.Fulfilled appBobCarol); (0, Cache.Rejected)]).
Proof.
  split; [reflexivity|].
  exact (proj2 (proj2 (proj2 (proj1 (proj2 (proj2 (proj2
           (cache_state_machine _ cache_scenario_reachable)))) appBobCarol eq_refl)))).
Defined.

(** ** Tabular loader *)

Lemma dataLoop_rowsOfLines :
  forall headers eh lines data,
    dataLoop headers eh lines data = (data ++ rowsOfLines headers eh lines)%list.
Proof.
  intros headers eh lines. unfold rowsOfLines.
  induction lines as [|line rest IH]; intros data; cbn [dataLoop flat_map].
  - now rewrite app_nil_r.
  - destruct (dataLine headers eh line) as [row|]; rewrite IH.
    + now rewrite <- app_assoc.
    + reflexivity.
Qed.

Lemma rowsOfLines_length :
  forall headers eh lines,
    List.length (rowsOfLines headers eh lines) <= List.length lines.
Proof.
  intros headers eh lines. unfold rowsOfLines.
  induction lines as [|line rest IH]; cbn [flat_map List.length]; [lia|].
  rewrite length_app. destruct (dataLine headers eh line); cbn [List.length]; lia.
Qed.

Lemma rowsOfLines_app :
  forall headers eh l1 l2,
    rowsOfLines headers eh (l1 ++ l2) =
      (rowsOfLines headers eh l1 ++ rowsOfLines headers eh l2)%list.
Proof. intros. unfold rowsOfLines. apply flat_map_app. Qed.

Lemma malformed_dataLine :
  forall headers eh line,
    emailHeader headers = Some eh ->
    malformedLine headers line ->
    dataLine headers eh line = None.
Proof.
  intros headers eh line Heh Hbad. unfold dataLine.
  destruct (negb (Js.truthy line) || Js.onlyCommasAndSpace line); [reflexivity|].
  destruct Hbad as [Hlen|(eh' & i & Heh' & Hidx & Hnth)].
  - apply Nat.ltb_lt in Hlen. rewrite Hlen. reflexivity.
  - rewrite Heh in Heh'. inversion Heh'; subst eh'.
    destruct (List.length (parseCsvLine line) <? List.length headers); [reflexivity|].
    rewrite Hidx, Hnth. reflexivity.
Qed.

Lemma parseCsvLines_length :
  forall lines label expected,
    List.length (parseCsvLines lines label expected) <= List.length lines - 1.
Proof.
  intros lines label expected. unfold parseCsvLines.
  destruct lines as [|line0 dataLines]; [cbn; lia|].
  repeat match goal with
         | |- context [if ?c then [] else _] => destruct c; [cbn; lia|]
         end.
  destruct (find _ _) as [eh|]; [|cbn; lia].
  rewrite dataLoop_rowsOfLines. cbn [List.app List.length].
  pose proof (rowsOfLines_length (filter Js.truthy (map Js.trim (parseCsvLine line0)))
                eh dataLines). lia.
Qed.

(** C9.  The tabular loader is a total function from the text to a list of
    rows, with at most one row per data line; and a malformed data line (fewer
    fields than headers, or an empty e-mail field) is skipped and nothing
    else: the rows of a text are the rows of the same lines without it. *)
Theorem tabular_loader_skips_malformed_lines :
  forall (text label : string) (expected : list string),
    List.length (parseCsvData text label expected)
      <= List.length (Js.splitLines (Js.trim text)) - 1 /\
    (forall line0 before bad after,
       Js.splitLines (Js.trim text) = (line0 :: before ++ bad :: after)%list ->
       malformedLine (headerNames line0) bad ->
       parseCsvData text label expected =
         parseCsvLines (line0 :: before ++ after)%list label expected).
Proof.
  intros text label expected. unfold parseCsvData, stripBOM. split.
  - apply parseCsvLines_length.
  - intros line0 before bad after Hlines Hbad. rewrite Hlines.
    unfold parseCsvLines. unfold headerNames in Hbad.
    set (headers := filter Js.truthy (map Js.trim (parseCsvLine line0))) in *.
    destruct (negb (Js.truthy (Js.trim line0))); [reflexivity|].
    destruct (List.length headers =? 0); [reflexivity|].
    destruct ((0 <? List.length (filter _ expected)) && negb _); [reflexivity|].
    assert (Hlong : (List.length (line0 :: before ++ bad :: after) =? 1) = false).
    { apply Nat.eqb_neq. cbn [List.length]. rewrite length_app. cbn [List.length]. lia. }
    rewrite Hlong.
    destruct (find _ headers) as [eh|] eqn:Heh.
    + rewrite !dataLoop_rowsOfLines. cbn [List.app].
      assert (Hskip : rowsOfLines headers eh (before ++ bad :: after) =
                      rowsOfLines headers eh (before ++ after)).
      { rewrite !rowsOfLines_app. f_equal. unfold rowsOfLines at 1. cbn [flat_map].
        rewrite (malformed_dataLine headers eh bad Heh Hbad). reflexivity. }
      rewrite Hskip.
      destruct (List.length (line0 :: before ++ after) =? 1) eqn:Hone; [|reflexivity].
      apply Nat.eqb_eq in Hone. cbn [List.length] in Hone.
      destruct (before ++ after)%list; [reflexivity | discriminate].
    + destruct (List.length (line0 :: before ++ after) =? 1); reflexivity.
Qed.

Lemma broken_line_is_malformed :
  malformedLine (headerNames "Email,Product Configurations") "broken".
Proof. left. vm_compute. apply le_n. Defined.

(** The theorem at a text whose third line has a single field. *)
Lemma tabular_loader_skips_malformed_lines_witness :
  parseCsvData csvWithBadLines "alpha.csv" EXPECTED_MAIN_HEADERS =
    parseCsvLines ["Email,Product Configurations"; "bob@x.com,All Apps";
                   ",Photoshop"; "amy@x.com,Photoshop"]
                  "alpha.csv" EXPECTED_MAIN_HEADERS.
Proof.
  exact (proj2 (tabular_loader_skips_malformed_lines csvWithBadLines "alpha.csv"
                  EXPECTED_MAIN_HEADERS)
           "Email,Product Configurations" ["bob@x.com,All Apps"] "broken"
           [",Photoshop"; "amy@x.com,Photoshop"] eq_refl broken_line_is_malformed).
Defined.

Example tabular_loader_scenario :
  parseCsvData csvWithBadLines "alpha.csv" EXPECTED_MAIN_HEADERS =
    [ [("Email", "bob@x.com"); ("Product Configurations", "All Apps")];
      [("Email", "amy@x.com"); ("Product Configurations", "Photoshop")] ].
Proof. reflexivity. Qed.

(* ================================================================== *)
(** * Part IV.  Further properties of the code                        *)
(* ================================================================== *)

(** ** Strings and maps *)

Lemma lowerChar_idempotent : forall c, Js.lowerChar (Js.lowerChar c) = Js.lowerChar c.
Proof. intros [[] [] [] [] [] [] [] []]; reflexivity. Qed.

Lemma lowerChar_space : forall c, Js.isWhiteSpace (Js.lowerChar c) = Js.isWhiteSpace c.
Proof. intros [[] [] [] [] [] [] [] []]; reflexivity. Qed.

Lemma toLowerCase_idempotent :
  forall s, Js.toLowerCase (Js.toLowerCase s) = Js.toLowerCase s.
Proof.
  induction s as [|c s IH]; [reflexivity|]. cbn [Js.toLowerCase].
  now rewrite lowerChar_idempotent, IH.
Qed.

Lemma trimStart_lower :
  forall s, Js.trimStart (Js.toLowerCase s) = Js.toLowerCase (Js.trimStart s).
Proof.
  induction s as [|c s IH]; [reflexivity|]. cbn [Js.toLowerCase Js.trimStart].
  rewrite lowerChar_space. destruct (Js.isWhiteSpace c); [exact IH | reflexivity].
Qed.

Lemma trimEnd_lower :
  forall s, Js.trimEnd (Js.toLowerCase s) = Js.toLowerCase (Js.trimEnd s).
Proof.
  induction s as [|c s IH]; [reflexivity|]. cbn [Js.toLowerCase Js.trimEnd].
  rewrite IH, lowerChar_space.
  destruct (Js.trimEnd s); cbn [Js.toLowerCase]; [destruct (Js.isWhiteSpace c)|]; reflexivity.
Qed.

(** [trim] and [toLowerCase] commute. *)
Lemma trim_lower : forall s, Js.trim (Js.toLowerCase s) = Js.toLowerCase (Js.trim s).
Proof. intros s. unfold Js.trim. now rewrite trimStart_lower, trimEnd_lower. Qed.

Lemma trimEnd_idempotent : forall s, Js.trimEnd (Js.trimEnd s) = Js.trimEnd s.
Proof.
  induction s as [|c s IH]; [reflexivity|]. cbn [Js.trimEnd].
  destruct (Js.trimEnd s) as [|d t] eqn:Ht.
  - destruct (Js.isWhiteSpace c) eqn:Hc; [reflexivity|]. cbn [Js.trimEnd]. now rewrite Hc.
  - cbn [Js.trimEnd]. cbn [Js.trimEnd] in IH. rewrite IH. reflexivity.
Qed.

Lemma trimStart_trimEnd_no_space :
  forall s, Js.trimStart s = s -> Js.trimStart (Js.trimEnd s) = Js.trimEnd s.
Proof.
  intros [|c s] H; [reflexivity|]. cbn [Js.trimStart] in H.
  destruct (Js.isWhiteSpace c) eqn:Hc.
  - exfalso. assert (Hlen : String.length (Js.trimStart s) <= String.length s).
    { clear. induction s as [|d s IH]; cbn; [lia|]. destruct (Js.isWhiteSpace d); cbn; lia. }
    rewrite H in Hlen. cbn in Hlen. lia.
  - cbn [Js.trimEnd]. destruct (Js.trimEnd s); rewrite ?Hc; cbn [Js.trimStart]; now rewrite Hc.
Qed.

Lemma trimStart_idempotent : forall s, Js.trimStart (Js.trimStart s) = Js.trimStart s.
Proof.
  induction s as [|c s IH]; [reflexivity|]. cbn [Js.trimStart].
  destruct (Js.isWhiteSpace c) eqn:Hc; [exact IH|]. cbn [Js.trimStart]. now rewrite Hc.
Qed.

Lemma trim_idempotent : forall s, Js.trim (Js.trim s) = Js.trim s.
Proof.
  intros s. unfold Js.trim.
  rewrite (trimStart_trimEnd_no_space _ (trimStart_idempotent s)).
  apply trimEnd_idempotent.
Qed.

Lemma JsMap_get_set_same :
  forall (V : Type) k (v : V) (m : JsMap.t V), JsMap.get k (JsMap.set k v m) = Some v.
Proof.
  intros V k v m. induction m as [|[k' v'] m IH]; cbn [JsMap.set JsMap.get].
  - now rewrite String.eqb_refl.
  - destruct (String.eqb_spec k' k) as [->|Hne]; cbn [JsMap.get].
    + now rewrite String.eqb_refl.
    + apply String.eqb_neq in Hne. now rewrite Hne.
Qed.

Lemma JsMap_get_set_other :
  forall (V : Type) k k' (v : V) (m : JsMap.t V),
    k <> k' -> JsMap.get k' (JsMap.set k v m) = JsMap.get k' m.
Proof.
  intros V k k' v m Hne. induction m as [|[k0 v0] m IH]; cbn [JsMap.set JsMap.get].
  - apply String.eqb_neq in Hne. now rewrite Hne.
  - destruct (String.eqb_spec k0 k) as [->|Hk]; cbn [JsMap.get].
    + apply String.eqb_neq in Hne. now rewrite Hne.
    + destruct (String.eqb k0 k'); [reflexivity | exact IH].
Qed.

(** A map filled entry by entry holds, for each key, the value of the last
    entry with that key. *)
Lemma JsMap_get_fold_set :
  forall (V : Type) (l : list (string * V)) (m : JsMap.t V) k,
    JsMap.get k (fold_left (fun m e => JsMap.set (fst e) (snd e) m) l m) =
      match lastValue k l with
      | Some v => Some v
      | None => JsMap.get k m
      end.
Proof.
  intros V l m k. unfold lastValue.
  induction l as [|[k0 v0] l IH] using rev_ind; [reflexivity|].
  rewrite !fold_left_app. cbn [fold_left fst snd].
  destruct (String.eqb_spec k0 k) as [->|Hne].
  - apply JsMap_get_set_same.
  - rewrite (JsMap_get_set_other _ _ _ _ _ Hne). exact IH.
Qed.

Lemma lastValue_snoc :
  forall (V : Type) k (l : list (string * V)) k0 v0,
    lastValue k (l ++ [(k0, v0)])%list =
      if String.eqb k0 k then Some v0 else lastValue k l.
Proof. intros. unfold lastValue. now rewrite fold_left_app. Qed.

Lemma lastValue_app :
  forall (V : Type) k (l1 l2 : list (string * V)),
    lastValue k (l1 ++ l2)%list =
      match lastValue k l2 with
      | Some v => Some v
      | None => lastValue k l1
      end.
Proof.
  intros V k l1 l2. induction l2 as [|[k0 v0] l2 IH] using rev_ind.
  - now rewrite app_nil_r.
  - rewrite app_assoc, !lastValue_snoc.
    destruct (String.eqb k0 k); [reflexivity | exact IH].
Qed.

Lemma lastValue_In :
  forall (V : Type) k (l : list (string * V)) v,
    lastValue k l = Some v -> In (k, v) l.
Proof.
  intros V k l v. induction l as [|[k0 v0] l IH] using rev_ind; [discriminate|].
  rewrite lastValue_snoc.
  destruct (String.eqb_spec k0 k) as [->|Hne]; intros H; apply in_or_app.
  - injection H as <-. right. now left.
  - left. now apply IH.
Qed.

Lemma lastValue_None :
  forall (V : Type) k (l : list (string * V)),
    lastValue k l = None <-> ~ In k (map fst l).
Proof.
  intros V k l. induction l as [|[k0 v0] l IH] using rev_ind.
  - split; [intros _ []|reflexivity].
  - rewrite lastValue_snoc, map_app, in_app_iff. cbn [fst map In].
    destruct (String.eqb_spec k0 k) as [->|Hne]; split; intros H.
    + discriminate.
    + exfalso. apply H. right. now left.
    + intros [Hin|[He|[]]]; [now apply IH in H | congruence].
    + apply IH. intros Hin. apply H. now left.
Qed.

(** ** Splitting and joining *)

Lemma append_nil_r : forall s : string, (s ++ "")%string = s.
Proof. induction s as [|c s IH]; cbn; [reflexivity | now rewrite IH]. Qed.

Lemma append_assoc :
  forall a b c : string, ((a ++ b) ++ c)%string = (a ++ (b ++ c))%string.
Proof. induction a as [|x a IH]; intros; cbn; [reflexivity | now rewrite IH]. Qed.

Lemma split_loop_cur :
  forall sep s cur,
    Js.split_loop sep s cur =
      match Js.split_loop sep s EmptyString with
      | x :: r => (cur ++ x)%string :: r
      | [] => []
      end.
Proof.
  intros sep s. induction s as [|c s IH]; intros cur; cbn [Js.split_loop append].
  - now rewrite append_nil_r.
  - destruct (Ascii.eqb c sep).
    + now rewrite append_nil_r.
    + rewrite IH. rewrite (IH (String c EmptyString)).
      destruct (Js.split_loop sep s EmptyString); [reflexivity|].
      now rewrite append_assoc.
Qed.

Lemma split_cons_other :
  forall sep c s,
    Ascii.eqb c sep = false ->
    Js.split sep (String c s) =
      match Js.split sep s with
      | x :: r => String c x :: r
      | [] => []
      end.
Proof.
  intros sep c s H. unfold Js.split. cbn [Js.split_loop append]. rewrite H.
  now rewrite split_loop_cur.
Qed.

(** Up to the first separator. *)
Lemma split_first :
  forall sep a b,
    freeOf sep a ->
    Js.split sep (a ++ String sep b) = a :: Js.split sep b.
Proof.
  intros sep a b. unfold freeOf. induction a as [|c a IH]; cbn [allb append]; intros H.
  - unfold Js.split. cbn [Js.split_loop]. now rewrite Ascii.eqb_refl.
  - apply andb_prop in H as [Hc Ha]. apply negb_true_iff in Hc.
    rewrite (split_cons_other _ _ _ Hc), (IH Ha). reflexivity.
Qed.

Lemma split_free : forall sep s, freeOf sep s -> Js.split sep s = [s].
Proof.
  intros sep s. unfold freeOf. induction s as [|c s IH]; cbn [allb]; intros H; [reflexivity|].
  apply andb_prop in H as [Hc Hs]. apply negb_true_iff in Hc.
  rewrite (split_cons_other _ _ _ Hc), (IH Hs). reflexivity.
Qed.

Lemma split_not_nil : forall sep s, Js.split sep s <> [].
Proof.
  intros sep s. unfold Js.split. generalize EmptyString.
  induction s as [|c s IH]; intros cur; cbn [Js.split_loop]; [discriminate|].
  destruct (Ascii.eqb c sep); [discriminate | apply IH].
Qed.

(** Joining the pieces with the separator gives the text back. *)
Lemma join_cons2 :
  forall sep a b l,
    Js.join sep (a :: b :: l) = (a ++ sep ++ Js.join sep (b :: l))%string.
Proof. reflexivity. Qed.

Lemma join_split :
  forall sep s, Js.join (String sep EmptyString) (Js.split sep s) = s.
Proof.
  intros sep s. induction s as [|c s IH]; [reflexivity|].
  pose proof (split_not_nil sep s) as Hne.
  destruct (Ascii.eqb c sep) eqn:Hc.
  - apply Ascii.eqb_eq in Hc. subst c.
    change (String sep s) with (EmptyString ++ String sep s)%string at 1.
    rewrite split_first by reflexivity.
    destruct (Js.split sep s) as [|x r] eqn:E; [contradiction|].
    rewrite join_cons2, IH. reflexivity.
  - rewrite (split_cons_other _ _ _ Hc).
    destruct (Js.split sep s) as [|x r] eqn:E; [contradiction|].
    destruct r as [|y r].
    + cbn [Js.join] in *. now rewrite IH.
    + rewrite join_cons2 in *. rewrite <- IH. reflexivity.
Qed.

(** Splitting what was joined gives the pieces back. *)
Lemma split_join :
  forall sep l,
    l <> [] -> (forall x, In x l -> freeOf sep x) ->
    Js.split sep (Js.join (String sep EmptyString) l) = l.
Proof.
  intros sep l. induction l as [|x l IH]; intros Hne Hfree; [contradiction|].
  destruct l as [|y l].
  - cbn [Js.join]. apply split_free. apply Hfree. now left.
  - rewrite join_cons2. cbn [append].
    rewrite split_first by (apply Hfree; now left).
    rewrite IH; [reflexivity | discriminate | intros z Hz; apply Hfree; now right].
Qed.

(** ** CSV line parser *)

Lemma parseCsvLine_loop_unquoted :
  forall line cur values,
    freeOf Js.dquote line ->
    parseCsvLine_loop line cur false values =
      (values ++ Js.split_loop Js.comma line cur)%list.
Proof.
  unfold freeOf. induction line as [|c line IH]; intros cur values H; cbn [allb] in H.
  - reflexivity.
  - apply andb_prop in H as [Hc Hl]. apply negb_true_iff in Hc.
    cbn [parseCsvLine_loop Js.split_loop]. rewrite Hc.
    destruct (Ascii.eqb c Js.comma); cbn [andb negb].
    + rewrite (IH _ _ Hl), <- app_assoc. reflexivity.
    + apply (IH _ _ Hl).
Qed.

(** On a line without double quotes the parser is a split at the commas,
    each piece trimmed. *)
Theorem parseCsvLine_unquoted_is_split :
  forall line : string,
    freeOf Js.dquote line ->
    parseCsvLine line = map Js.trim (Js.split Js.comma line).
Proof.
  intros line H. unfold parseCsvLine, Js.split.
  now rewrite (parseCsvLine_loop_unquoted _ _ _ H).
Qed.

Lemma parseCsvLine_unquoted_is_split_witness :
  parseCsvLine " bob@x.com , All Apps,," = ["bob@x.com"; "All Apps"; ""; ""].
Proof.
  rewrite (parseCsvLine_unquoted_is_split " bob@x.com , All Apps,,"); reflexivity.
Defined.

Lemma append_snoc :
  forall (cur : string) c f, ((cur ++ String c "") ++ f)%string = (cur ++ String c f)%string.
Proof. intros. now rewrite append_assoc. Qed.

Lemma parseCsvLine_loop_quoted :
  forall f rest cur values,
    notQuoteNext rest ->
    parseCsvLine_loop (csvEscape f ++ String Js.dquote rest) cur true values =
      parseCsvLine_loop rest (cur ++ f) false values.
Proof.
  induction f as [|c f IH]; intros rest cur values Hrest.
  - rewrite append_nil_r. destruct rest as [|n rest'].
    + cbn [csvEscape append parseCsvLine_loop]. now rewrite Ascii.eqb_refl.
    + cbn [notQuoteNext] in Hrest.
      cbn [csvEscape append parseCsvLine_loop]. now rewrite Ascii.eqb_refl, Hrest.
  - cbn [csvEscape]. destruct (Ascii.eqb c Js.dquote) eqn:Hc.
    + apply Ascii.eqb_eq in Hc. subst c.
      cbn [append parseCsvLine_loop]. rewrite Ascii.eqb_refl.
      rewrite (IH _ _ _ Hrest), append_snoc. reflexivity.
    + cbn [append parseCsvLine_loop]. rewrite Hc. rewrite andb_false_r.
      rewrite (IH _ _ _ Hrest), append_snoc. reflexivity.
Qed.

Lemma parseCsvLine_loop_quoted_fields :
  forall fields values,
    fields <> [] ->
    parseCsvLine_loop (Js.join "," (map csvQuote fields)) EmptyString false values =
      (values ++ fields)%list.
Proof.
  induction fields as [|f fields IH]; intros values Hne; [contradiction|].
  destruct fields as [|g fields].
  - cbn [map Js.join]. unfold csvQuote.
    cbn [parseCsvLine_loop]. rewrite Ascii.eqb_refl. cbn [negb].
    rewrite parseCsvLine_loop_quoted by exact I. reflexivity.
  - cbn [map]. rewrite join_cons2. unfold csvQuote at 1.
    cbn [parseCsvLine_loop append]. rewrite Ascii.eqb_refl. cbn [negb].
    rewrite append_assoc. cbn [append].
    rewrite parseCsvLine_loop_quoted by reflexivity.
    cbn [parseCsvLine_loop append]. change (Ascii.eqb "," Js.dquote) with false.
    change (Ascii.eqb "," Js.comma) with true. cbn [andb negb].
    change (csvQuote g :: map csvQuote fields) with (map csvQuote (g :: fields)).
    rewrite (IH (values ++ [f])%list) by discriminate.
    now rewrite <- app_assoc.
Qed.

(** A line written field by field, each field between double quotes and
    its double quotes doubled, is read back as the fields, trimmed. *)
Theorem parseCsvLine_reads_quoted_fields :
  forall fields : list string,
    fields <> [] ->
    parseCsvLine (Js.join "," (map csvQuote fields)) = map Js.trim fields.
Proof.
  intros fields Hne. unfold parseCsvLine.
  now rewrite (parseCsvLine_loop_quoted_fields _ [] Hne).
Qed.

Lemma two_fields_not_nil : ["Doe, Jane"; String Js.dquote "x"] <> [].
Proof. discriminate. Defined.

Lemma parseCsvLine_reads_quoted_fields_witness :
  parseCsvLine (Js.join "," (map csvQuote ["Doe, Jane"; String Js.dquote "x"]))
    = map Js.trim ["Doe, Jane"; String Js.dquote "x"].
Proof. exact (parseCsvLine_reads_quoted_fields _ two_fields_not_nil). Defined.

(** ** Organization config files *)

Lemma truthy_ne : forall s, Js.truthy s = true <-> s <> "".
Proof. intros [|c s]; cbn; split; congruence. Qed.

Lemma truthy_false : forall s, Js.truthy s = false <-> s = "".
Proof. intros [|c s]; cbn; split; congruence. Qed.

(** A config file is read as the organization name up to the first comma and
    the subscription details after it, commas included, both trimmed; a file
    that cannot be read, has no comma or starts with one is passed over. *)
Theorem conf_file_is_name_then_details :
  forall (dir : Directory) (confFile : string) (rest : list string)
         (confData : JsMap.t OrgConf) (known : JsSet.t),
    (forall org details,
       readFile dir confFile = Some (org ++ "," ++ details)%string ->
       freeOf Js.comma org -> org <> "" ->
       loadConfFiles dir (confFile :: rest) confData known =
         loadConfFiles dir rest
           (JsMap.set (getBaseName confFile)
                      (mkOrgConf (Js.trim org) (Js.trim details)) confData)
           (JsSet.add (getBaseName confFile) known)) /\
    (forall text,
       readFile dir confFile = Some text ->
       freeOf Js.comma text \/ Js.startsWith text "," = true ->
       loadConfFiles dir (confFile :: rest) confData known =
         loadConfFiles dir rest confData known) /\
    (readFile dir confFile = None ->
     loadConfFiles dir (confFile :: rest) confData known =
       loadConfFiles dir rest confData known).
Proof.
  intros dir confFile rest confData known. split; [|split].
  - intros org details Hread Hfree Hne.
    cbn [loadConfFiles]. rewrite Hread.
    change ("," ++ details)%string with (String Js.comma details).
    rewrite (split_first _ _ _ Hfree).
    apply truthy_ne in Hne. rewrite Hne.
    pose proof (split_not_nil Js.comma details) as Hparts.
    destruct (Js.split Js.comma details) as [|p ps] eqn:E; [contradiction|].
    cbn [List.length Nat.ltb Nat.leb andb].
    rewrite <- E. change "," with (String Js.comma EmptyString).
    now rewrite join_split.
  - intros text Hread [Hfree|Hstart].
    + cbn [loadConfFiles]. rewrite Hread, (split_free _ _ Hfree).
      cbn [List.length Nat.ltb Nat.leb]. now rewrite andb_false_r.
    + cbn [loadConfFiles]. rewrite Hread.
      destruct text as [|c text]; [discriminate|].
      cbn [Js.startsWith] in Hstart. rewrite andb_true_r in Hstart.
      apply Ascii.eqb_eq in Hstart. subst c.
      change (String "," text) with (EmptyString ++ String Js.comma text)%string.
      rewrite split_first by reflexivity. reflexivity.
  - intros Hread. cbn [loadConfFiles]. now rewrite Hread.
Qed.

Lemma conf_file_is_name_then_details_witness :
  loadConfFiles [("alpha.conf", Some "Alpha School, All Apps, 2 devices")]
                ["alpha.conf"] JsMap.empty JsSet.empty =
    ([("alpha", mkOrgConf "Alpha School" "All Apps, 2 devices")], ["alpha"]).
Proof.
  rewrite (proj1 (conf_file_is_name_then_details
                    [("alpha.conf", Some "Alpha School, All Apps, 2 devices")]
                    "alpha.conf" [] JsMap.empty JsSet.empty)
                 "Alpha School" " All Apps, 2 devices");
    [reflexivity | reflexivity | reflexivity | discriminate].
Defined.

(** ** PIN login *)

Lemma pinTuples_truthy :
  forall text p role,
    In (p, role) (Login.pinTuples text) -> p <> "" /\ role <> "".
Proof.
  intros text p role H. unfold Login.pinTuples in H.
  apply filter_In in H as [_ H]. cbn [fst snd] in H.
  apply andb_prop in H as [Hp Hr]. now rewrite <- !truthy_ne.
Qed.

(** A login succeeds exactly when the PIN is not empty and, trimmed, is the PIN
    of some valid line of [userid.conf]; the role granted is the one of the
    last such line.  The role is never empty, and a PIN of white space only is
    never accepted. *)
Theorem login_grants_role_of_last_line_with_pin :
  forall (pin text role : string),
    (Login.POST pin (Some text) = Login.Success role <->
     pin <> "" /\ lastValue (Js.trim pin) (Login.pinTuples text) = Some role) /\
    (Login.POST pin (Some text) = Login.Success role ->
     role <> "" /\ Js.trim pin <> "" /\
     exists line, In line (Js.split Js.LF text) /\
                  Login.pinTuple line = (Js.trim pin, role)).
Proof.
  intros pin text role.
  assert (Hiff : Login.POST pin (Some text) = Login.Success role <->
                 pin <> "" /\ lastValue (Js.trim pin) (Login.pinTuples text) = Some role).
  { unfold Login.POST. destruct (Js.truthy pin) eqn:Hp; cbn [negb].
    - apply truthy_ne in Hp. unfold Login.pinConfig.
      rewrite (JsMap_get_fold_set string (Login.pinTuples text) JsMap.empty (Js.trim pin)).
      cbn [JsMap.get JsMap.empty].
      destruct (lastValue (Js.trim pin) (Login.pinTuples text)) as [r|] eqn:E.
      + apply lastValue_In in E. apply pinTuples_truthy in E as [_ Hr].
        apply truthy_ne in Hr. rewrite Hr.
        split; [intros H; injection H as <-; now split | intros [_ H]; congruence].
      + split; [discriminate | intros [_ H]; discriminate].
    - apply truthy_false in Hp. split; [discriminate | intros [H _]; contradiction]. }
  split; [exact Hiff|].
  intros H. apply Hiff in H as [_ H]. apply lastValue_In in H.
  pose proof (pinTuples_truthy _ _ _ H) as [Hp Hr].
  split; [exact Hr|]. split; [exact Hp|].
  unfold Login.pinTuples in H. apply filter_In in H as [H _].
  apply in_map_iff in H as [line [Hline Hin]].
  apply filter_In in Hin as [Hin _]. now exists line.
Qed.

Lemma login_grants_role_of_last_line_with_pin_witness :
  Login.POST " 4321 " (Some ("amy=4321" ++ String Js.LF "carol = 4321")%string)
    = Login.Success "carol".
Proof.
  apply (proj1 (login_grants_role_of_last_line_with_pin
                  " 4321 " ("amy=4321" ++ String Js.LF "carol = 4321")%string "carol")).
  split; [discriminate | reflexivity].
Defined.

(** ** Bearer-token check *)

Lemma substringFrom_append :
  forall p s, V1Auth.substringFrom (String.length p) (p ++ s) = s.
Proof. induction p as [|c p IH]; intros s; cbn; [reflexivity | apply IH]. Qed.

Lemma getApiKey_truthy :
  forall cache file key cache',
    V1Auth.getApiKey cache file = (Some key, cache') -> key <> "" /\ cache' = Some key.
Proof.
  intros cache file key cache'. unfold V1Auth.getApiKey.
  destruct cache as [c|]; cbn [Js.truthyOpt].
  - destruct (Js.truthy c) eqn:Hc.
    + intros H. injection H as <- <-. apply truthy_ne in Hc. now split.
    + destruct file as [text|]; [|discriminate].
      destruct (Js.truthy (Js.trim text)) eqn:Ht; cbn [negb]; [|discriminate].
      intros H. injection H as <- <-. apply truthy_ne in Ht. now split.
  - destruct file as [text|]; [|discriminate].
    destruct (Js.truthy (Js.trim text)) eqn:Ht; cbn [negb]; [|discriminate].
    intros H. injection H as <- <-. apply truthy_ne in Ht. now split.
Qed.

(** The action runs exactly when the Authorization header is ["Bearer "]
    followed by the configured key, code unit for code unit; the key is never
    empty, so a header with an empty token is always refused. *)
Theorem bearer_token_must_equal_key :
  forall (cache file header : option string),
    (fst (V1Auth.handleRequest cache file header) = V1Auth.RunAction <->
     exists key,
       fst (V1Auth.getApiKey cache file) = Some key /\
       header = Some ("Bearer " ++ key)%string) /\
    (fst (V1Auth.handleRequest cache file header) = V1Auth.RunAction ->
     header <> Some "Bearer ").
Proof.
  intros cache file header.
  assert (Hiff : fst (V1Auth.handleRequest cache file header) = V1Auth.RunAction <->
                 exists key, fst (V1Auth.getApiKey cache file) = Some key /\
                             header = Some ("Bearer " ++ key)%string).
  { unfold V1Auth.handleRequest.
    destruct (V1Auth.getApiKey cache file) as [[expected|] cache'] eqn:Ekey; cbn [fst].
    - destruct header as [h|].
      + destruct (Js.truthy h) eqn:Hh; cbn [negb orb fst].
        * destruct (Js.startsWith h "Bearer ") eqn:Hs; cbn [negb fst].
          -- apply startsWith_spec in Hs as [post ->].
             change 7 with (String.length "Bearer ").
             rewrite substringFrom_append.
             destruct (String.eqb_spec post expected) as [->|Hne]; cbn [negb fst].
             ++ split; [intros _; now exists expected | reflexivity].
             ++ split; [discriminate|]. intros [key [Hk Hh']].
                injection Hk as <-. injection Hh' as Hh'. contradiction.
          -- split; [discriminate|]. intros [key [_ Hh']]. injection Hh' as ->.
             discriminate.
        * split; [discriminate|]. intros [key [_ Hh']]. injection Hh' as ->. discriminate.
      + cbn [fst]. split; [discriminate|]. intros [key [_ Hh']]. discriminate.
    - split; [discriminate|]. intros [key [Hk _]]. discriminate. }
  split; [exact Hiff|].
  intros H. apply Hiff in H as [key [Hk ->]].
  destruct (V1Auth.getApiKey cache file) as [k cache'] eqn:E. cbn [fst] in Hk. subst k.
  apply getApiKey_truthy in E as [Hne _].
  intros Heq. injection Heq as Heq. destruct key; [contradiction | discriminate].
Qed.

Lemma bearer_token_must_equal_key_witness :
  fst (V1Auth.handleRequest None (Some (" s3cret" ++ String Js.LF "")%string)
                            (Some "Bearer s3cret")) = V1Auth.RunAction.
Proof.
  apply (proj1 (bearer_token_must_equal_key
                  None (Some (" s3cret" ++ String Js.LF "")%string)
                  (Some "Bearer s3cret"))).
  exists "s3cret". split; reflexivity.
Defined.

(** Once a key has been read it is kept: every later request is checked
    against it, whatever [apipwd.conf] holds by then, and nothing else ever
    replaces it. *)
Theorem api_key_is_read_once :
  forall (cache file header : option string) (key : string),
    fst (V1Auth.getApiKey cache file) = Some key ->
    forall file' header',
      V1Auth.getApiKey (snd (V1Auth.handleRequest cache file header)) file' =
        (Some key, Some key) /\
      V1Auth.handleRequest (snd (V1Auth.handleRequest cache file header)) file' header' =
        V1Auth.handleRequest (Some key) None header'.
Proof.
  intros cache file header key Hkey file' header'.
  assert (Hc : snd (V1Auth.handleRequest cache file header) = Some key /\ key <> "").
  { unfold V1Auth.handleRequest.
    destruct (V1Auth.getApiKey cache file) as [k cache'] eqn:E. cbn [fst] in Hkey. subst k.
    apply getApiKey_truthy in E as [Hne ->].
    split; [|exact Hne].
    destruct header as [h|]; [|reflexivity].
    destruct (negb (Js.truthy h) || negb (Js.startsWith h "Bearer ")); [reflexivity|].
    destruct (negb (String.eqb (V1Auth.substringFrom 7 h) key)); reflexivity. }
  destruct Hc as [-> Hne]. apply truthy_ne in Hne.
  assert (Hget : forall f, V1Auth.getApiKey (Some key) f = (Some key, Some key)).
  { intros f. unfold V1Auth.getApiKey. cbn [Js.truthyOpt]. now rewrite Hne. }
  split; [apply Hget|].
  unfold V1Auth.handleRequest. now rewrite !Hget.
Qed.

Lemma api_key_is_read_once_witness :
  V1Auth.handleRequest (snd (V1Auth.handleRequest None (Some "s3cret") None))
                       (Some "changed") (Some "Bearer s3cret")
    = (V1Auth.RunAction, Some "s3cret").
Proof.
  rewrite (proj2 (api_key_is_read_once None (Some "s3cret") None "s3cret" eq_refl
                                       (Some "changed") (Some "Bearer s3cret"))).
  reflexivity.
Defined.

(** ** The e-mail index *)

Lemma indexRows_snoc :
  forall data row m,
    indexRows (data ++ [row]) m =
      match emailKey row with
      | Some key => JsMap.set key row (indexRows data m)
      | None => indexRows data m
      end.
Proof.
  induction data as [|r data IH]; intros row m; cbn [List.app indexRows].
  - unfold emailKey. destruct (option_map Js.toLowerCase (propTrim "Email" row)) as [k|];
      [destruct (Js.truthy k)|]; reflexivity.
  - destruct (option_map Js.toLowerCase (propTrim "Email" r)) as [k|]; apply IH.
Qed.

Lemma snoc_eq_middle :
  forall (A : Type) (data : list A) r before row after,
    (data ++ [r])%list = (before ++ row :: after)%list ->
    (after = [] /\ row = r /\ before = data) \/
    (exists after', after = (after' ++ [r])%list /\ data = (before ++ row :: after')%list).
Proof.
  intros A data r before row after H.
  destruct after as [|a after] using rev_ind.
  - left. apply app_inj_tail in H as [-> ->]. auto.
  - right. clear IHafter. exists after.
    change (before ++ row :: after ++ [a])%list
      with (before ++ (row :: after) ++ [a])%list in H.
    rewrite app_assoc in H. apply app_inj_tail in H as [-> ->]. auto.
Qed.

(** Looking an e-mail up in an index gives the last row filed under it: the
    row whose trimmed, lower-cased [Email] is the key and after which no row
    of the data has that key. *)
Theorem index_holds_last_row_of_each_email :
  forall (data : list CsvRow) (key : string) (row : CsvRow),
    JsMap.get key (indexRows data JsMap.empty) = Some row <->
    exists before after,
      data = (before ++ row :: after)%list /\
      emailKey row = Some key /\
      forall r, In r after -> emailKey r <> Some key.
Proof.
  intros data key row. induction data as [|r data IH] using rev_ind.
  - cbn. split; [discriminate|]. intros [before [after [H _]]].
    destruct before; discriminate.
  - rewrite indexRows_snoc.
    destruct (emailKey r) as [k|] eqn:Ek.
    + destruct (String.eqb_spec k key) as [->|Hne].
      * rewrite JsMap_get_set_same. split.
        -- intros H. injection H as <-. exists data, [].
           split; [reflexivity|]. split; [exact Ek|]. intros r' [].
        -- intros [before [after [Hd [Hrow Hafter]]]].
           apply snoc_eq_middle in Hd as [[_ [-> _]]|[after' [-> _]]]; [reflexivity|].
           exfalso. apply (Hafter r); [apply in_or_app; right; now left | exact Ek].
      * rewrite (JsMap_get_set_other _ _ _ _ _ Hne), IH. split.
        -- intros [before [after [-> [Hrow Hafter]]]].
           exists before, (after ++ [r])%list. rewrite <- app_assoc.
           split; [reflexivity|]. split; [exact Hrow|].
           intros r' Hin. apply in_app_or in Hin as [Hin|[<-|[]]]; [now apply Hafter|].
           congruence.
        -- intros [before [after [Hd [Hrow Hafter]]]].
           apply snoc_eq_middle in Hd as [[_ [-> _]]|[after' [-> ->]]]; [congruence|].
           exists before, after'.
           split; [reflexivity|]. split; [exact Hrow|].
           intros r' Hin. apply Hafter. apply in_or_app. now left.
    + rewrite IH. split.
      * intros [before [after [-> [Hrow Hafter]]]].
        exists before, (after ++ [r])%list. rewrite <- app_assoc.
        split; [reflexivity|]. split; [exact Hrow|].
        intros r' Hin. apply in_app_or in Hin as [Hin|[<-|[]]]; [now apply Hafter|].
        congruence.
      * intros [before [after [Hd [Hrow Hafter]]]].
        apply snoc_eq_middle in Hd as [[_ [-> _]]|[after' [-> ->]]]; [congruence|].
        exists before, after'.
        split; [reflexivity|]. split; [exact Hrow|].
        intros r' Hin. apply Hafter. apply in_or_app. now left.
Qed.

Lemma emailKey_normal :
  forall row key,
    emailKey row = Some key ->
    key <> "" /\ Js.toLowerCase key = key /\ Js.trim key = key.
Proof.
  intros row key. unfold emailKey, propTrim.
  destruct (prop "Email" row) as [v|]; cbn [option_map]; [|discriminate].
  destruct (Js.truthy (Js.toLowerCase (Js.trim v))) eqn:Ht; [|discriminate].
  intros H. injection H as <-. split; [now apply truthy_ne|]. split.
  - apply toLowerCase_idempotent.
  - now rewrite trim_lower, trim_idempotent.
Qed.

Lemma indexRows_keys :
  forall data m key,
    In key (JsMap.keys (indexRows data m)) ->
    In key (JsMap.keys m) \/ exists row, In row data /\ emailKey row = Some key.
Proof.
  induction data as [|r data IH] using rev_ind; intros m key H.
  - now left.
  - rewrite indexRows_snoc in H. destruct (emailKey r) as [k|] eqn:Ek.
    + apply JsMap_set_keys_In in H as [->|H].
      * right. exists r. split; [apply in_or_app; right; now left | exact Ek].
      * apply IH in H as [H|[row [Hin Hk]]]; [now left|].
        right. exists row. split; [apply in_or_app; now left | exact Hk].
    + apply IH in H as [H|[row [Hin Hk]]]; [now left|].
      right. exists row. split; [apply in_or_app; now left | exact Hk].
Qed.

(** Every key of an index is a normal form: not empty, in lower case, and
    without white space at either end. *)
Theorem index_keys_are_normalised :
  forall (data : list CsvRow) (key : string),
    In key (JsMap.keys (indexRows data JsMap.empty)) ->
    key <> "" /\ Js.toLowerCase key = key /\ Js.trim key = key.
Proof.
  intros data key H. apply indexRows_keys in H as [[]|[row [_ Hk]]].
  exact (emailKey_normal _ _ Hk).
Qed.

Lemma index_keys_are_normalised_witness :
  JsMap.keys (indexRows [[("Email", " Bob@X.com ")]] JsMap.empty) = ["bob@x.com"] /\
  Js.toLowerCase "bob@x.com" = "bob@x.com" /\ Js.trim "bob@x.com" = "bob@x.com".
Proof.
  split; [reflexivity|].
  apply (index_keys_are_normalised [[("Email", " Bob@X.com ")]] "bob@x.com").
  now left.
Defined.

(** ** What the loader guarantees *)

Lemma JsMap_has_set :
  forall (V : Type) k k' (v : V) (m : JsMap.t V),
    JsMap.has k' (JsMap.set k v m) = String.eqb k k' || JsMap.has k' m.
Proof.
  intros V k k' v m. unfold JsMap.has.
  destruct (String.eqb_spec k k') as [->|Hne].
  - now rewrite JsMap_get_set_same.
  - now rewrite (JsMap_get_set_other _ _ _ _ _ Hne).
Qed.

Lemma loadConfFiles_known :
  forall dir confFiles confData known,
    (forall b, JsSet.has b known = true -> JsMap.has b confData = true) ->
    forall b,
      JsSet.has b (snd (loadConfFiles dir confFiles confData known)) = true ->
      JsMap.has b (fst (loadConfFiles dir confFiles confData known)) = true.
Proof.
  intros dir confFiles. induction confFiles as [|f rest IH]; intros confData known Hinv;
    cbn [loadConfFiles].
  - exact Hinv.
  - destruct (readFile dir f) as [text|]; [|now apply IH].
    destruct (Js.split Js.comma text) as [|org parts]; [now apply IH|].
    destruct (Js.truthy org && (0 <? List.length parts)); [|now apply IH].
    apply IH. intros b Hb. rewrite JsMap_has_set.
    apply JsSet_has_add in Hb as [->|Hb].
    + now rewrite String.eqb_refl.
    + rewrite (Hinv _ Hb). apply orb_true_r.
Qed.

Lemma loadMainCsvFiles_keys :
  forall dir known files grouped,
    JsMap.wf grouped ->
    (forall b, In b (JsMap.keys grouped) -> JsSet.has b known = true) ->
    JsMap.wf (loadMainCsvFiles dir known files grouped) /\
    (forall b, In b (JsMap.keys (loadMainCsvFiles dir known files grouped)) ->
               JsSet.has b known = true).
Proof.
  intros dir known files. induction files as [|f rest IH]; intros grouped Hwf Hinv;
    cbn [loadMainCsvFiles].
  - now split.
  - destruct (JsSet.has (getBaseName f) known) eqn:Hk; [|now apply IH].
    destruct (readFile dir f) as [text|]; [|now apply IH].
    destruct (negb (Js.truthy (Js.trim text))); [now apply IH|].
    destruct (0 <? List.length (parseCsvData text f EXPECTED_MAIN_HEADERS)); [|now apply IH].
    apply IH.
    + now apply JsMap_set_wf.
    + intros b Hb. apply JsMap_set_keys_In in Hb as [->|Hb]; [exact Hk | now apply Hinv].
Qed.

Lemma buildDataSources_baseNames :
  forall grouped, map baseName (buildDataSources grouped) = JsMap.keys grouped.
Proof.
  intros grouped. unfold buildDataSources, JsMap.keys, JsMap.entries.
  rewrite map_map. apply map_ext. now intros [b data].
Qed.

Lemma buildDataSources_In :
  forall grouped ds,
    In ds (buildDataSources grouped) ->
    In (baseName ds) (JsMap.keys grouped) /\
    exists data, dataMap ds = indexRows data JsMap.empty.
Proof.
  intros grouped ds H. unfold buildDataSources, JsMap.entries in H.
  apply in_map_iff in H as [[b data] [<- Hin]]. cbn [baseName dataMap]. split.
  - unfold JsMap.keys. apply in_map_iff. now exists (b, data).
  - now exists data.
Qed.

Lemma pipeline_invariant :
  forall dir confFiles mainCsvFiles,
    let grouped :=
      loadMainCsvFiles dir (snd (loadConfFiles dir confFiles JsMap.empty JsSet.empty))
                       mainCsvFiles JsMap.empty in
    NoDup (map baseName (buildDataSources grouped)) /\
    forall ds,
      In ds (buildDataSources grouped) ->
      JsMap.has (baseName ds) (fst (loadConfFiles dir confFiles JsMap.empty JsSet.empty)) = true /\
      JsMap.wf (dataMap ds) /\
      exists data, dataMap ds = indexRows data JsMap.empty.
Proof.
  intros dir confFiles mainCsvFiles grouped.
  destruct (loadMainCsvFiles_keys dir
              (snd (loadConfFiles dir confFiles JsMap.empty JsSet.empty))
              mainCsvFiles JsMap.empty) as [Hwf Hkeys].
  { constructor. }
  { intros b []. }
  fold grouped in Hwf, Hkeys. split.
  - rewrite buildDataSources_baseNames. exact Hwf.
  - intros ds Hds. apply buildDataSources_In in Hds as [Hb [data Hd]].
    split; [|split].
    + apply loadConfFiles_known; [discriminate|]. now apply Hkeys.
    + rewrite Hd. apply indexRows_wf. constructor.
    + now exists data.
Qed.

Lemma loadedFrom_sources :
  forall dir app,
    loadedFrom dir app ->
    NoDup (map baseName (dataSources app)) /\
    forall ds,
      In ds (dataSources app) ->
      JsMap.has (baseName ds) (confData app) = true /\
      JsMap.wf (dataMap ds) /\
      exists data, dataMap ds = indexRows data JsMap.empty.
Proof.
  intros dir app [->| ->].
  - unfold QueryRoute.loadAndProcessData.
    match goal with
    | |- context [loadConfFiles dir ?cf JsMap.empty JsSet.empty] =>
        match goal with
        | |- context [loadMainCsvFiles dir _ ?mf JsMap.empty] =>
            pose proof (pipeline_invariant dir cf mf) as H;
            destruct (loadConfFiles dir cf JsMap.empty JsSet.empty) as [conf known]
        end
    end.
    exact H.
  - unfold V1Route.loadAndProcessData.
    match goal with
    | |- context [loadConfFiles dir ?cf JsMap.empty JsSet.empty] =>
        match goal with
        | |- context [loadMainCsvFiles dir _ ?mf JsMap.empty] =>
            pose proof (pipeline_invariant dir cf mf) as H;
            destruct (loadConfFiles dir cf JsMap.empty JsSet.empty) as [conf known]
        end
    end.
    exact H.
Qed.

(** The DataSources of loaded data have distinct base names, each has its
    organization config, and no index holds a key twice. *)
Theorem loaded_sources_are_configured_and_distinct :
  forall (dir : Directory) (app : AppData),
    loadedFrom dir app ->
    NoDup (map baseName (dataSources app)) /\
    forall ds,
      In ds (dataSources app) ->
      (exists conf, JsMap.get (baseName ds) (confData app) = Some conf) /\
      JsMap.wf (dataMap ds).
Proof.
  intros dir app H. destruct (loadedFrom_sources dir app H) as [Hnd Hall].
  split; [exact Hnd|]. intros ds Hds. destruct (Hall ds Hds) as [Hconf [Hwf _]].
  split; [|exact Hwf]. unfold JsMap.has in Hconf.
  destruct (JsMap.get (baseName ds) (confData app)) as [conf|]; [now exists conf | discriminate].
Qed.

Lemma loaded_sources_are_configured_and_distinct_witness :
  map baseName (dataSources (QueryRoute.loadAndProcessData dirScenario)) = ["alpha"] /\
  NoDup (map baseName (dataSources (QueryRoute.loadAndProcessData dirScenario))).
Proof.
  split; [vm_compute; reflexivity|].
  apply (loaded_sources_are_configured_and_distinct dirScenario). now left.
Defined.

(** ** Exact search, whatever the data *)

Lemma applyAdditional_email :
  forall conf row r, email (applyAdditional conf row r) = email r.
Proof.
  intros conf row r. unfold applyAdditional.
  destruct (isInvalid (status r) && _);
    [destruct (JsMap.get _ conf)|];
    (destruct (propTrim "Org" row) as [org|]; [destruct (Js.truthy org)|]); reflexivity.
Qed.

Lemma applyAdditional_valid :
  forall conf row r,
    status r = Valid ->
    status (applyAdditional conf row r) = Valid /\
    deviceLimit (applyAdditional conf row r) = deviceLimit r /\
    subscriptionDetails (applyAdditional conf row r) = subscriptionDetails r /\
    (expirationDate (applyAdditional conf row r) = expirationDate r \/
     (expirationDate (applyAdditional conf row r) <> "" /\
      expirationDate (applyAdditional conf row r) <> "-")).
Proof.
  intros conf row r Hr. unfold applyAdditional. rewrite Hr. cbn [isInvalid andb].
  set (c := calculateExpirationDate (propTrim "rat" row) (propTrim "pov" row)).
  assert (Hc : Js.truthy c && negb (String.eqb c "-") = true -> c <> "" /\ c <> "-").
  { intros H. apply andb_prop in H as [Ht Hd]. apply truthy_ne in Ht.
    apply negb_true_iff, String.eqb_neq in Hd. now split. }
  destruct (propTrim "Org" row) as [org|]; [destruct (Js.truthy org)|];
    cbn [status deviceLimit subscriptionDetails expirationDate];
    (repeat split; auto);
    (destruct (Js.truthy c && negb (String.eqb c "-")); [right; now apply Hc | now left]).
Qed.

Lemma applyAdditional_upgrade :
  forall conf row r,
    status r = Invalid ->
    status (applyAdditional conf row r) = Valid ->
    deviceLimit (applyAdditional conf row r) = 2 /\
    expirationDate (applyAdditional conf row r) <> "" /\
    expirationDate (applyAdditional conf row r) <> "-".
Proof.
  intros conf row r Hr. unfold applyAdditional. rewrite Hr. cbn [isInvalid andb].
  set (c := calculateExpirationDate (propTrim "rat" row) (propTrim "pov" row)).
  destruct (Js.truthy c && negb (String.eqb c "-")) eqn:Hc.
  - apply andb_prop in Hc as [Ht Hd]. apply truthy_ne in Ht.
    apply negb_true_iff, String.eqb_neq in Hd.
    destruct (JsMap.get _ conf) as [cf|];
      (destruct (propTrim "Org" row) as [org|]; [destruct (Js.truthy org)|]);
      cbn [status deviceLimit expirationDate]; intros Hv;
      try (rewrite Hr in Hv; discriminate); repeat split; auto.
  - destruct (propTrim "Org" row) as [org|]; [destruct (Js.truthy org)|];
      cbn [status]; intros Hv; rewrite Hr in Hv; discriminate.
Qed.

Lemma afterMainSources_cases :
  forall address found,
    (found = [] /\
     afterMainSources address found = mkSearchResult address Invalid "-" "-" 0 "-" "-" "-") \/
    (found <> [] /\
     afterMainSources address found =
       mkSearchResult address Valid (Js.join " & " (map orgName found))
                      (Js.join " & " (map subDetails found))
                      (if List.length found =? 1 then 2 else 4) "-" "-" "Rolling").
Proof.
  intros address [|c [|d found]]; [left | right | right]; (split; [|reflexivity]);
    [reflexivity | discriminate | discriminate].
Qed.

Lemma resetIfInvalid_email : forall r, email (resetIfInvalid r) = email r.
Proof. intros r. unfold resetIfInvalid. now destruct (isInvalid (status r)). Qed.

Lemma performExactSearch_email :
  forall address app, email (performExactSearch address app) = address.
Proof.
  intros address app. unfold performExactSearch. rewrite resetIfInvalid_email.
  set (found := foundInOrgs _ _ _).
  destruct (JsMap.get _ (additionalMap app)) as [row|];
    [rewrite applyAdditional_email|];
    destruct (afterMainSources_cases address found) as [[_ ->]|[_ ->]]; reflexivity.
Qed.

(** The record of an exact search carries the address as it was typed; it is
    either the fixed "Invalid" record, or "Valid" with a device limit of 2
    or 4 and an expiration that is neither empty nor "-". *)
Theorem exact_search_result_shape :
  forall (address : string) (app : AppData),
    let r := performExactSearch address app in
    email r = address /\
    (status r = Invalid -> r = mkSearchResult address Invalid "-" "-" 0 "-" "-" "-") /\
    (status r = Valid ->
     (deviceLimit r = 2 \/ deviceLimit r = 4) /\
     expirationDate r <> "" /\ expirationDate r <> "-").
Proof.
  intros address app. unfold performExactSearch.
  set (found := foundInOrgs _ _ _).
  set (r1 := match JsMap.get _ (additionalMap app) with
             | Some row => applyAdditional (confData app) row (afterMainSources address found)
             | None => afterMainSources address found
             end).
  assert (He : email r1 = address).
  { unfold r1. destruct (JsMap.get _ (additionalMap app)) as [row|];
      [rewrite applyAdditional_email|];
      destruct (afterMainSources_cases address found) as [[_ ->]|[_ ->]]; reflexivity. }
  assert (Hv : status r1 = Valid ->
               (deviceLimit r1 = 2 \/ deviceLimit r1 = 4) /\
               expirationDate r1 <> "" /\ expirationDate r1 <> "-").
  { unfold r1. destruct (JsMap.get _ (additionalMap app)) as [row|].
    - destruct (afterMainSources_cases address found) as [[_ E]|[_ E]]; rewrite E.
      + intros H. apply applyAdditional_upgrade in H; [|reflexivity].
        destruct H as [Hd He']. split; [now left | exact He'].
      + intros _.
        destruct (applyAdditional_valid (confData app) row
                    (mkSearchResult address Valid (Js.join " & " (map orgName found))
                       (Js.join " & " (map subDetails found))
                       (if List.length found =? 1 then 2 else 4) "-" "-" "Rolling")
                    eq_refl) as [_ [Hd [_ Hx]]].
        rewrite Hd. cbn [deviceLimit expirationDate] in *. split.
        * destruct (List.length found =? 1); auto.
        * destruct Hx as [->|Hx]; [split; discriminate | exact Hx].
    - destruct (afterMainSources_cases address found) as [[_ E]|[_ E]]; rewrite E;
        cbn [status deviceLimit expirationDate]; [discriminate|].
      intros _. split; [destruct (List.length found =? 1); auto | split; discriminate]. }
  unfold resetIfInvalid. destruct (status r1) eqn:Hs; cbn [isInvalid].
  - rewrite Hs. split; [exact He|]. split; [discriminate | exact Hv].
  - cbn [email status]. rewrite He. split; [reflexivity|].
    split; [reflexivity | discriminate].
Qed.

(** Exact search does not depend on the case of the address: the record for
    an address is the record for its lower-case form, with the address as it
    was typed. *)
Theorem exact_search_ignores_case :
  forall (address : string) (app : AppData),
    performExactSearch address app =
      withEmail address (performExactSearch (Js.toLowerCase address) app).
Proof.
  intros address app. unfold performExactSearch. rewrite toLowerCase_idempotent.
  set (found := foundInOrgs _ _ _).
  assert (Hafter : afterMainSources address found =
                   withEmail address (afterMainSources (Js.toLowerCase address) found)).
  { unfold afterMainSources. destruct (0 <? List.length found); reflexivity. }
  assert (Happly : forall row r,
             applyAdditional (confData app) row (withEmail address r) =
             withEmail address (applyAdditional (confData app) row r)).
  { intros row r. unfold applyAdditional. cbn [withEmail status email approver approvalDate
      expirationDate organization subscriptionDetails deviceLimit].
    destruct (isInvalid (status r) && _);
      [destruct (JsMap.get _ (confData app))|];
      (destruct (propTrim "Org" row) as [org|]; [destruct (Js.truthy org)|]); reflexivity. }
  assert (Hreset : forall r, resetIfInvalid (withEmail address r) =
                             withEmail address (resetIfInvalid r)).
  { intros r. unfold resetIfInvalid. cbn [withEmail status email].
    destruct (isInvalid (status r)); reflexivity. }
  rewrite Hafter.
  destruct (JsMap.get _ (additionalMap app)) as [row|].
  - now rewrite Happly, Hreset.
  - now rewrite Hreset.
Qed.

Lemma foundInOrgs_configured :
  forall key conf dss,
    (forall ds, In ds dss -> JsMap.has (baseName ds) conf = true) ->
    List.length (foundInOrgs key conf dss) =
      List.length (filter (fun ds => JsMap.has key (dataMap ds)) dss).
Proof.
  intros key conf dss. induction dss as [|ds dss IH]; intros H; [reflexivity|].
  cbn [foundInOrgs filter].
  assert (Hds : JsMap.has (baseName ds) conf = true) by (apply H; now left).
  assert (IH' := IH (fun d Hd => H d (or_intror Hd))).
  destruct (JsMap.has key (dataMap ds)); [|exact IH'].
  unfold JsMap.has in Hds. destruct (JsMap.get (baseName ds) conf); [|discriminate].
  cbn [List.length]. now rewrite IH'.
Qed.

Lemma exact_search_found :
  forall address app,
    foundInOrgs (Js.toLowerCase address) (confData app) (dataSources app) <> [] ->
    let found := foundInOrgs (Js.toLowerCase address) (confData app) (dataSources app) in
    let r := performExactSearch address app in
    status r = Valid /\
    deviceLimit r = (if List.length found =? 1 then 2 else 4) /\
    subscriptionDetails r = Js.join " & " (map subDetails found).
Proof.
  intros address app Hne found r. unfold r, performExactSearch. fold found.
  destruct (afterMainSources_cases address found) as [[E _]|[_ E]]; [contradiction|].
  rewrite E.
  destruct (JsMap.get _ (additionalMap app)) as [row|].
  - destruct (applyAdditional_valid (confData app) row _ (eq_refl :
        status (mkSearchResult address Valid (Js.join " & " (map orgName found))
                  (Js.join " & " (map subDetails found))
                  (if List.length found =? 1 then 2 else 4) "-" "-" "Rolling") = Valid))
      as [Hs [Hd [Hsub _]]].
    unfold resetIfInvalid. rewrite Hs. cbn [isInvalid]. auto.
  - cbn. auto.
Qed.

(** For loaded data, an address that some DataSource indexes is "Valid",
    whatever the additional file says; its device limit is 2 when exactly one
    DataSource indexes it and 4 when several do. *)
Theorem device_limit_counts_sources :
  forall (dir : Directory) (app : AppData) (address : string),
    loadedFrom dir app ->
    sourcesWith app (Js.toLowerCase address) <> [] ->
    let r := performExactSearch address app in
    status r = Valid /\
    deviceLimit r =
      (if List.length (sourcesWith app (Js.toLowerCase address)) =? 1 then 2 else 4).
Proof.
  intros dir app address Hload Hne r.
  destruct (loadedFrom_sources dir app Hload) as [_ Hall].
  assert (Hlen := foundInOrgs_configured (Js.toLowerCase address) (confData app)
                    (dataSources app) (fun ds Hds => proj1 (Hall ds Hds))).
  fold (sourcesWith app (Js.toLowerCase address)) in Hlen.
  assert (Hfound : foundInOrgs (Js.toLowerCase address) (confData app) (dataSources app) <> []).
  { intros E. rewrite E in Hlen. cbn in Hlen.
    destruct (sourcesWith app (Js.toLowerCase address)); [contradiction | discriminate]. }
  destruct (exact_search_found address app Hfound) as [Hs [Hd _]].
  split; [exact Hs|]. unfold r. rewrite Hd, Hlen. reflexivity.
Qed.

Lemma scenario_loaded : loadedFrom dirScenario (QueryRoute.loadAndProcessData dirScenario).
Proof. now left. Defined.

Lemma bob_in_a_source :
  sourcesWith (QueryRoute.loadAndProcessData dirScenario) (Js.toLowerCase "Bob@x.com") <> [].
Proof. vm_compute. discriminate. Defined.

Lemma device_limit_counts_sources_witness :
  status (performExactSearch "Bob@x.com" (QueryRoute.loadAndProcessData dirScenario)) = Valid /\
  deviceLimit (performExactSearch "Bob@x.com" (QueryRoute.loadAndProcessData dirScenario)) =
    (if List.length (sourcesWith (QueryRoute.loadAndProcessData dirScenario)
                                 (Js.toLowerCase "Bob@x.com")) =? 1 then 2 else 4).
Proof.
  exact (device_limit_counts_sources dirScenario _ "Bob@x.com" scenario_loaded bob_in_a_source).
Defined.

Lemma toLowerCase_length : forall s, String.length (Js.toLowerCase s) = String.length s.
Proof. induction s as [|c s IH]; cbn; [reflexivity | now rewrite IH]. Qed.

Lemma foundInOrgs_source :
  forall key conf dss,
    foundInOrgs key conf dss <> [] ->
    exists ds, In ds dss /\ JsMap.has key (dataMap ds) = true.
Proof.
  intros key conf dss. induction dss as [|ds dss IH]; cbn [foundInOrgs]; [congruence|].
  destruct (JsMap.has key (dataMap ds)) eqn:Hk.
  - intros _. exists ds. split; [now left | exact Hk].
  - intros H. destruct (IH H) as [d [Hd Hh]]. exists d. split; [now right | exact Hh].
Qed.

(** Whatever [POST] finds "Valid" by exact search it also meets by fuzzy
    search: for an input of three characters or more once trimmed, both
    routes answer the fuzzy query with the message of potential matches. *)
Theorem valid_address_is_a_fuzzy_match :
  forall (searchEmail : string) (app : AppData),
    3 <= String.length (Js.trim searchEmail) ->
    status (postExact searchEmail app) = Valid ->
    postFuzzy searchEmail app = JsonMessage MSG_POTENTIAL /\
    performFuzzySearch (Js.toLowerCase (Js.trim searchEmail)) app = JsonMessage MSG_POTENTIAL.
Proof.
  intros searchEmail app Hlen Hvalid. unfold postExact in Hvalid.
  set (term := Js.toLowerCase (Js.trim searchEmail)) in *.
  assert (Hterm : Js.toLowerCase term = term) by apply toLowerCase_idempotent.
  assert (Hkey : indexedEmail app term).
  { unfold performExactSearch in Hvalid. rewrite Hterm in Hvalid.
    destruct (afterMainSources_cases term (foundInOrgs term (confData app) (dataSources app)))
      as [[_ E]|[Hne _]].
    - rewrite E in Hvalid.
      destruct (JsMap.get term (additionalMap app)) as [row|] eqn:Hrow.
      + right. apply JsMap_has_In. unfold JsMap.has. now rewrite Hrow.
      + discriminate.
    - left. apply foundInOrgs_source in Hne as [ds [Hds Hh]].
      exists ds. split; [exact Hds | now apply JsMap_has_In]. }
  assert (Hmatch : fuzzyFound term app = true).
  { apply fuzzyFound_spec. exists term. split; [exact Hkey|].
    exists EmptyString, EmptyString. cbn. now rewrite append_nil_r. }
  assert (Hthree : (String.length term <? 3) = false).
  { apply Nat.ltb_ge. unfold term. now rewrite toLowerCase_length. }
  unfold postFuzzy, performFuzzySearch. fold term. now rewrite Hthree, Hmatch.
Qed.

Lemma valid_address_is_a_fuzzy_match_witness :
  postFuzzy " Bob@x.com" appBobCarol = JsonMessage MSG_POTENTIAL.
Proof.
  apply (valid_address_is_a_fuzzy_match " Bob@x.com" appBobCarol).
  - vm_compute. lia.
  - reflexivity.
Defined.

(** ** Quick audit: who is listed *)

Lemma notPaidLoop_added_keys :
  forall dss pm entries accounts added e,
    JsSet.has e (snd (notPaidLoop dss pm entries accounts added)) = true ->
    JsSet.has e added = true \/ In e (map fst entries).
Proof.
  intros dss pm entries. induction entries as [|[k row] entries IH];
    intros accounts added e; cbn [notPaidLoop map fst snd In]; [now left|].
  destruct (negb (passesDateThreshold (propTrim "rat" row)));
    [intros H; apply IH in H; tauto|].
  destruct (negb (isInMainSource dss k)); [intros H; apply IH in H; tauto|].
  destruct (negb (JsMap.has k pm)); [|intros H; apply IH in H; tauto].
  intros H. apply IH in H as [H|H]; [|tauto].
  apply JsSet_has_add in H as [->|H]; tauto.
Qed.

Lemma notRegisteredKeys_spec :
  forall am keys accounts added,
    (forall a, In a accounts -> In a (fst (notRegisteredKeys am keys accounts added))) /\
    (forall a, In a (fst (notRegisteredKeys am keys accounts added)) ->
               In a accounts \/
               exists e, In e keys /\ JsMap.has e am = false /\ a = notRegisteredAccount e) /\
    (registeredOrListed am accounts added ->
     registeredOrListed am (fst (notRegisteredKeys am keys accounts added))
                           (snd (notRegisteredKeys am keys accounts added)) /\
     forall e, In e keys -> JsMap.has e am = false ->
               In (notRegisteredAccount e) (fst (notRegisteredKeys am keys accounts added))).
Proof.
  intros am keys. induction keys as [|k keys IH]; intros accounts added;
    cbn [notRegisteredKeys fst snd In].
  - split; [auto|]. split; [auto|]. intros H. split; [exact H | intros e []].
  - destruct (JsSet.has k added) eqn:Hk.
    + destruct (IH accounts added) as [Hmono [Hsound Hinv]].
      split; [exact Hmono|]. split.
      * intros a Ha. apply Hsound in Ha as [Ha|[e [He Hr]]]; [now left|].
        right. exists e. tauto.
      * intros HI. destruct (Hinv HI) as [HI' Hcomp]. split; [exact HI'|].
        intros e [<-|He] Hnot; [|now apply Hcomp].
        destruct (HI _ Hk) as [Hh|Hl]; [congruence | now apply Hmono].
    + destruct (JsMap.has k am) eqn:Hm; cbn [negb].
      * destruct (IH accounts added) as [Hmono [Hsound Hinv]].
        split; [exact Hmono|]. split.
        -- intros a Ha. apply Hsound in Ha as [Ha|[e [He Hr]]]; [now left|].
           right. exists e. tauto.
        -- intros HI. destruct (Hinv HI) as [HI' Hcomp]. split; [exact HI'|].
           intros e [<-|He] Hnot; [congruence | now apply Hcomp].
      * destruct (IH (accounts ++ [mkQA k "-" "-" "-" NotRegistered])%list
                     (JsSet.add k added)) as [Hmono [Hsound Hinv]].
        split; [|split].
        -- intros a Ha. apply Hmono. apply in_or_app. now left.
        -- intros a Ha. apply Hsound in Ha as [Ha|[e [He Hr]]].
           ++ apply in_app_or in Ha as [Ha|[<-|[]]]; [now left|].
              right. exists k. split; [now left|]. now split.
           ++ right. exists e. tauto.
        -- intros HI.
           assert (HI2 : registeredOrListed am
                           (accounts ++ [mkQA k "-" "-" "-" NotRegistered])%list
                           (JsSet.add k added)).
           { intros e He. apply JsSet_has_add in He as [->|He].
             - right. apply in_or_app. right. now left.
             - destruct (HI _ He) as [Hh|Hl]; [now left|].
               right. apply in_or_app. now left. }
           destruct (Hinv HI2) as [HI' Hcomp]. split; [exact HI'|].
           intros e [<-|He] Hnot; [|now apply Hcomp].
           apply Hmono. apply in_or_app. right. now left.
Qed.

Lemma notRegisteredLoop_spec :
  forall am dss accounts added,
    (forall a, In a accounts -> In a (fst (notRegisteredLoop am dss accounts added))) /\
    (forall a, In a (fst (notRegisteredLoop am dss accounts added)) ->
               In a accounts \/
               exists e ds, In ds dss /\ arrayIncludes (baseName ds) excludedBaseNames = false /\
                            In e (JsMap.keys (dataMap ds)) /\
                            JsMap.has e am = false /\ a = notRegisteredAccount e) /\
    (registeredOrListed am accounts added ->
     forall e ds, In ds dss -> arrayIncludes (baseName ds) excludedBaseNames = false ->
                  In e (JsMap.keys (dataMap ds)) -> JsMap.has e am = false ->
                  In (notRegisteredAccount e) (fst (notRegisteredLoop am dss accounts added))).
Proof.
  intros am dss. induction dss as [|d dss IH]; intros accounts added;
    cbn [notRegisteredLoop fst In].
  - split; [auto|]. split; [auto|]. intros _ e ds [].
  - destruct (arrayIncludes (baseName d) excludedBaseNames) eqn:Hex.
    + destruct (IH accounts added) as [Hmono [Hsound Hcomp]].
      split; [exact Hmono|]. split.
      * intros a Ha. apply Hsound in Ha as [Ha|[e [ds [Hds Hr]]]]; [now left|].
        right. exists e, ds. tauto.
      * intros HI e ds [<-|Hds] Hnex; [congruence | now apply Hcomp].
    + destruct (notRegisteredKeys_spec am (JsMap.keys (dataMap d)) accounts added)
        as [Kmono [Ksound Kinv]].
      destruct (notRegisteredKeys am (JsMap.keys (dataMap d)) accounts added)
        as [accounts' added'] eqn:EK. cbn [fst snd] in *.
      destruct (IH accounts' added') as [Hmono [Hsound Hcomp]].
      split; [|split].
      * intros a Ha. now apply Hmono, Kmono.
      * intros a Ha. apply Hsound in Ha as [Ha|[e [ds [Hds Hr]]]].
        -- apply Ksound in Ha as [Ha|[e [He [Hnot ->]]]]; [now left|].
           right. exists e, d. split; [now left|]. tauto.
        -- right. exists e, ds. tauto.
      * intros HI. destruct (Kinv HI) as [HI' Kcomp].
        intros e ds [<-|Hds] Hnex He Hnot.
        -- now apply Hmono, Kcomp.
        -- now apply (Hcomp HI' e ds).
Qed.

Lemma quick_audit_membership :
  forall (app : AppData) (a : QuickAuditAccountInfo),
    In a (getQuickAuditAccounts app) <->
    (exists email row,
       In (email, row) (JsMap.entries (additionalMap app)) /\
       passesDateThreshold (propTrim "rat" row) = true /\
       isInMainSource (dataSources app) email = true /\
       JsMap.has email (paymentMap app) = false /\
       a = notPaidAccount email row) \/
    (exists email,
       inAuditedDataSource app email /\
       JsMap.has email (additionalMap app) = false /\
       a = notRegisteredAccount email).
Proof.
  intros app a. unfold getQuickAuditAccounts.
  pose proof (notPaidLoop_closed_form (dataSources app) (paymentMap app)
                (JsMap.entries (additionalMap app)) [] JsSet.empty) as Hclosed.
  pose proof (notPaidLoop_added_keys (dataSources app) (paymentMap app)
                (JsMap.entries (additionalMap app)) [] JsSet.empty) as Hadded.
  destruct (notPaidLoop (dataSources app) (paymentMap app)
              (JsMap.entries (additionalMap app)) [] JsSet.empty) as [acc1 add1].
  cbn [fst snd] in Hclosed, Hadded. cbn [List.app] in Hclosed.
  assert (Hpaid : forall x, In x acc1 <->
            exists email row,
              In (email, row) (JsMap.entries (additionalMap app)) /\
              passesDateThreshold (propTrim "rat" row) = true /\
              isInMainSource (dataSources app) email = true /\
              JsMap.has email (paymentMap app) = false /\
              x = notPaidAccount email row).
  { intros x. rewrite Hclosed, in_map_iff. split.
    - intros [[email row] [<- Hin]]. apply filter_In in Hin as [Hin Hc]. cbn [fst snd] in *.
      apply andb_prop in Hc as [Hc Hp]. apply andb_prop in Hc as [Hd Hm].
      apply negb_true_iff in Hp. exists email, row. repeat split; auto.
    - intros [email [row [Hin [Hd [Hm [Hp ->]]]]]]. exists (email, row).
      split; [reflexivity|]. apply filter_In. split; [exact Hin|]. cbn [fst snd].
      now rewrite Hd, Hm, Hp. }
  assert (HI : registeredOrListed (additionalMap app) acc1 add1).
  { intros e He. left. apply Hadded in He as [He|He]; [discriminate|].
    now apply JsMap_has_In. }
  destruct (notRegisteredLoop_spec (additionalMap app) (dataSources app) acc1 add1)
    as [Hmono [Hsound Hcomp]].
  split.
  - intros Ha. apply Hsound in Ha as [Ha|[e [ds [Hds [Hex [He [Hnot ->]]]]]]].
    + left. now apply Hpaid.
    + right. exists e. split; [|now split]. exists ds. now repeat split.
  - intros [Hp|[email [[ds [Hds [Hex He]]] [Hnot ->]]]].
    + apply Hmono. now apply Hpaid.
    + now apply (Hcomp HI email ds).
Qed.

(** The quick-audit listing holds exactly: a "Not Paid" entry for each
    additional record approved on or after the threshold whose e-mail a
    DataSource indexes and the payment file lacks; and a "Not Registered"
    entry for each e-mail that an audited DataSource indexes and the
    additional file lacks.  So no e-mail is listed under both reasons. *)
Theorem quick_audit_lists_exactly :
  forall (app : AppData),
    (forall a,
       In a (getQuickAuditAccounts app) <->
       (exists email row,
          In (email, row) (JsMap.entries (additionalMap app)) /\
          passesDateThreshold (propTrim "rat" row) = true /\
          isInMainSource (dataSources app) email = true /\
          JsMap.has email (paymentMap app) = false /\
          a = notPaidAccount email row) \/
       (exists email,
          inAuditedDataSource app email /\
          JsMap.has email (additionalMap app) = false /\
          a = notRegisteredAccount email)) /\
    (forall a b,
       In a (getQuickAuditAccounts app) -> In b (getQuickAuditAccounts app) ->
       qa_email a = qa_email b -> qa_reason a = qa_reason b).
Proof.
  intros app. split; [intros a; apply quick_audit_membership|].
  assert (Hclash : forall a b email row e,
            In (email, row) (JsMap.entries (additionalMap app)) ->
            a = notPaidAccount email row ->
            JsMap.has e (additionalMap app) = false -> b = notRegisteredAccount e ->
            qa_email a = qa_email b -> False).
  { intros a b email row e Hentry -> Hnot -> He. cbn in He. subst e.
    assert (Hhas : JsMap.has email (additionalMap app) = true).
    { apply JsMap_has_In. unfold JsMap.keys. apply in_map_iff. now exists (email, row). }
    congruence. }
  intros a b Ha Hb He.
  apply quick_audit_membership in Ha
    as [[ea [ra [Hea [_ [_ [_ Ea]]]]]]|[ea [_ [Hna Ea]]]];
    apply quick_audit_membership in Hb
      as [[eb [rb [Heb [_ [_ [_ Eb]]]]]]|[eb [_ [Hnb Eb]]]].
  - now subst.
  - exfalso. exact (Hclash a b ea ra eb Hea Ea Hnb Eb He).
  - exfalso. exact (Hclash b a eb rb ea Heb Eb Hna Ea (eq_sym He)).
  - now subst.
Qed.

(** ** The views of an approver *)

Lemma toLowerCase_dash : forall s, Js.toLowerCase s = "-" -> s = "-".
Proof.
  intros [|c [|d s]]; cbn [Js.toLowerCase]; try discriminate.
  intros H. injection H as H. f_equal. revert H.
  destruct c as [[] [] [] [] [] [] [] []]; vm_compute; congruence.
Qed.

(** An approver other than the administrator sees, of the quick audit, the
    entries that name that approver up to case; these are "Not Paid" entries
    only: no "Not Registered" entry is ever shown to an approver. *)
Theorem approver_sees_own_unpaid_accounts_only :
  forall (approverRole : string) (app : AppData) (a : QuickAuditAccountInfo),
    approverRole <> "admin" -> approverRole <> "-" ->
    (In a (qaForRole approverRole app) <->
     In a (getQuickAuditAccounts app) /\
     Js.toLowerCase (qa_approver a) = Js.toLowerCase approverRole) /\
    (In a (qaForRole approverRole app) -> qa_reason a = NotPaid).
Proof.
  intros approverRole app a Hadmin Hdash.
  assert (Hiff : In a (qaForRole approverRole app) <->
                 In a (getQuickAuditAccounts app) /\
                 Js.toLowerCase (qa_approver a) = Js.toLowerCase approverRole).
  { unfold qaForRole. apply String.eqb_neq in Hadmin. rewrite Hadmin. cbn [negb].
    rewrite filter_In. now rewrite String.eqb_eq. }
  split; [exact Hiff|].
  intros H. apply Hiff in H as [Hin Happ].
  apply quick_audit_membership in Hin
    as [[email [row [_ [_ [_ [_ ->]]]]]]|[email [_ [_ ->]]]]; [reflexivity|].
  exfalso. cbn [notRegisteredAccount qa_approver] in Happ.
  apply Hdash, toLowerCase_dash. now rewrite <- Happ.
Qed.

Lemma carol_not_admin : "Carol" <> "admin".
Proof. discriminate. Defined.

Lemma carol_not_dash : "Carol" <> "-".
Proof. discriminate. Defined.

Lemma approver_sees_own_unpaid_accounts_only_witness :
  qaForRole "Carol" appAudit = [mkQA "bob@x.com" "20250801" "carol" "12m" NotPaid] /\
  (In (mkQA "bob@x.com" "20250801" "carol" "12m" NotPaid) (qaForRole "Carol" appAudit) ->
   qa_reason (mkQA "bob@x.com" "20250801" "carol" "12m" NotPaid) = NotPaid).
Proof.
  split; [reflexivity|].
  exact (proj2 (approver_sees_own_unpaid_accounts_only "Carol" appAudit _ carol_not_admin
                                                       carol_not_dash)).
Defined.

(** ** Proxy dashboard *)

Lemma JsMap_set_entries_In :
  forall (V : Type) k (v : V) (m : JsMap.t V) x w,
    In (x, w) (JsMap.set k v m) -> (x = k /\ w = v) \/ In (x, w) m.
Proof.
  intros V k v m x w. induction m as [|[k' v'] m IH]; cbn [JsMap.set In].
  - intros [H|[]]. injection H as <- <-. now left.
  - destruct (String.eqb k' k); cbn [In].
    + intros [H|H]; [injection H as <- <-; now left | right; now right].
    + intros [H|H]; [right; now left|]. apply IH in H as [H|H]; [now left | right; now right].
Qed.

Lemma JsMap_get_In :
  forall (V : Type) k (v : V) (m : JsMap.t V), JsMap.get k m = Some v -> In (k, v) m.
Proof.
  intros V k v m. induction m as [|[k' v'] m IH]; cbn [JsMap.get In]; [discriminate|].
  destruct (String.eqb_spec k' k) as [->|Hne].
  - intros H. injection H as <-. now left.
  - intros H. right. now apply IH.
Qed.

Lemma JsMap_In_get :
  forall (V : Type) k (v : V) (m : JsMap.t V),
    JsMap.wf m -> In (k, v) m -> JsMap.get k m = Some v.
Proof.
  intros V k v m. unfold JsMap.wf, JsMap.keys.
  induction m as [|[k' v'] m IH]; cbn [map fst JsMap.get In]; [intros _ []|].
  intros Hnd [H|H].
  - injection H as -> ->. now rewrite String.eqb_refl.
  - inversion Hnd as [|? ? Hnotin Hnd']; subst.
    destruct (String.eqb_spec k' k) as [->|Hne].
    + exfalso. apply Hnotin. apply in_map_iff. now exists (k, v).
    + now apply IH.
Qed.

Lemma indexRows_entries :
  forall data m k row,
    In (k, row) (indexRows data m) ->
    In (k, row) m \/ (In row data /\ emailKey row = Some k).
Proof.
  induction data as [|r data IH] using rev_ind; intros m k row H.
  - now left.
  - rewrite indexRows_snoc in H. destruct (emailKey r) as [key|] eqn:Ek.
    + apply JsMap_set_entries_In in H as [[-> ->]|H].
      * right. split; [apply in_or_app; right; now left | exact Ek].
      * apply IH in H as [H|[Hin Hk]]; [now left|].
        right. split; [apply in_or_app; now left | exact Hk].
    + apply IH in H as [H|[Hin Hk]]; [now left|].
      right. split; [apply in_or_app; now left | exact Hk].
Qed.

Lemma fillRow_trimmed :
  forall headers index values row b,
    trimmedRow row -> trimmedRow (fst (fillRow headers index values row b)).
Proof.
  induction headers as [|h headers IH]; intros index values row b Hrow; cbn [fillRow fst].
  - exact Hrow.
  - apply IH. intros k v Hin. apply JsMap_set_entries_In in Hin as [[_ ->]|Hin].
    + apply trim_idempotent.
    + now apply (Hrow k).
Qed.

Lemma dataLine_trimmed :
  forall headers eh line row, dataLine headers eh line = Some row -> trimmedRow row.
Proof.
  intros headers eh line row. unfold dataLine.
  destruct (negb (Js.truthy line) || Js.onlyCommasAndSpace line); [discriminate|].
  destruct (List.length (parseCsvLine line) <? List.length headers); [discriminate|].
  destruct (indexOf eh headers) as [i|]; [|discriminate].
  destruct (negb (Js.truthy (nth i (parseCsvLine line) EmptyString))); [discriminate|].
  pose proof (fillRow_trimmed headers 0 (parseCsvLine line) JsMap.empty false) as H.
  destruct (fillRow headers 0 (parseCsvLine line) JsMap.empty false) as [r has].
  destruct has; [|discriminate]. intros E. injection E as <-.
  apply H. intros k v [].
Qed.

Lemma parseCsvData_trimmed :
  forall text label expected row,
    In row (parseCsvData text label expected) -> trimmedRow row.
Proof.
  intros text label expected row. unfold parseCsvData, parseCsvLines.
  destruct (Js.splitLines (Js.trim (stripBOM text))) as [|line0 dataLines]; [intros []|].
  destruct (negb (Js.truthy (Js.trim line0))); [intros []|].
  set (headers := filter Js.truthy (map Js.trim (parseCsvLine line0))).
  destruct (List.length headers =? 0); [intros []|].
  destruct ((0 <? List.length _) && negb _); [intros []|].
  destruct (List.length (line0 :: dataLines) =? 1); [intros []|].
  destruct (find _ headers) as [eh|]; [|intros []].
  rewrite dataLoop_rowsOfLines. cbn [List.app]. unfold rowsOfLines.
  intros H. apply in_flat_map in H as [line [_ H]].
  destruct (dataLine headers eh line) as [r|] eqn:E; [|destruct H].
  destruct H as [<-|[]]. exact (dataLine_trimmed _ _ _ _ E).
Qed.

Lemma loadSpecialCsv_keyed :
  forall dir f expected, keyedByEmail (loadSpecialCsv dir f expected).
Proof.
  intros dir f expected k row. unfold loadSpecialCsv.
  destruct f as [name|]; [|intros []].
  destruct (readFile dir name) as [text|]; [|intros []].
  destruct (Js.truthy (Js.trim text)); [|intros []].
  intros H. apply indexRows_entries in H as [[]|[Hin Hk]].
  split; [exact Hk | exact (parseCsvData_trimmed _ _ _ _ Hin)].
Qed.

Lemma truthy_lower : forall s, Js.truthy (Js.toLowerCase s) = Js.truthy s.
Proof. now intros [|c s]. Qed.

Lemma prop_trimmed :
  forall row k v, trimmedRow row -> prop k row = Some v -> propTrim k row = Some v.
Proof.
  intros row k v Hrow H. unfold propTrim. rewrite H. cbn [option_map].
  f_equal. apply (Hrow k). now apply JsMap_get_In.
Qed.

Lemma keyed_email :
  forall m k row,
    keyedByEmail m -> In (k, row) m ->
    Js.toLowerCase (Js.orElse (prop "Email" row) "") = k /\ k <> "" /\ Js.toLowerCase k = k.
Proof.
  intros m k row Hm Hin. destruct (Hm k row Hin) as [Hk Hrow].
  destruct (emailKey_normal _ _ Hk) as [Hne [Hlow _]].
  split; [|now split].
  unfold emailKey in Hk. destruct (prop "Email" row) as [v|] eqn:Hv.
  - rewrite (prop_trimmed _ _ _ Hrow Hv) in Hk. cbn [option_map] in Hk.
    destruct (Js.truthy (Js.toLowerCase v)) eqn:Ht; [|discriminate].
    injection Hk as <-. rewrite truthy_lower in Ht. cbn [Js.orElse]. now rewrite Ht.
  - unfold propTrim in Hk. rewrite Hv in Hk. discriminate.
Qed.

Lemma buildQaMap_get :
  forall l m k r,
    JsMap.get k (fold_left (fun m item => JsMap.set (qa_email item) (qa_reason item) m) l m)
      = Some r ->
    JsMap.get k m = Some r \/ exists a, In a l /\ qa_email a = k /\ qa_reason a = r.
Proof.
  induction l as [|x l IH]; intros m k r; cbn [fold_left]; [now left|].
  intros H. apply IH in H as [H|[a [Ha Hr]]].
  - destruct (String.eqb_spec (qa_email x) k) as [E|Hne].
    + rewrite <- E, JsMap_get_set_same in H. injection H as <-.
      right. exists x. split; [now left | now split].
    + rewrite (JsMap_get_set_other _ _ _ _ _ Hne) in H. now left.
  - right. exists a. split; [now right | exact Hr].
Qed.

Lemma performExactSearch_additional :
  forall e app row,
    JsMap.get (Js.toLowerCase e) (additionalMap app) = Some row ->
    status (performExactSearch e app) = Valid ->
    approver (performExactSearch e app) = Js.orElse (propTrim "Approver" row) "-".
Proof.
  intros e app row Hrow. unfold performExactSearch. rewrite Hrow.
  unfold resetIfInvalid.
  destruct (status (applyAdditional _ _ _)) eqn:Hs; cbn [isInvalid status]; [|discriminate].
  intros _. unfold applyAdditional. reflexivity.
Qed.

Lemma proxy_tag_cases :
  forall app today p approverFilter,
    JsMap.wf (additionalMap app) -> keyedByEmail (additionalMap app) ->
    In p (getProxyData app approverFilter today) ->
    status (proxy_result p) = Valid /\
    JsMap.has (email (proxy_result p)) (additionalMap app) = true /\
    (proxy_tag p = "" \/ proxy_tag p = "Authorization Expired" \/ proxy_tag p = "Not Paid") /\
    (Js.toLowerCase approverFilter <> "admin" -> approverFilter <> "" ->
     Js.toLowerCase (approver (proxy_result p)) = Js.toLowerCase approverFilter).
Proof.
  intros app today p approverFilter Hwf Hkeyed Hin.
  unfold getProxyData in Hin. apply in_flat_map in Hin as [row [Hrow Hp]].
  assert (Hval : In row (JsMap.values (additionalMap app)) /\
                 (Js.toLowerCase approverFilter <> "admin" ->
                  Js.toLowerCase (Js.orElse (prop "Approver" row) "") =
                    Js.toLowerCase approverFilter)).
  { destruct (String.eqb_spec (Js.toLowerCase approverFilter) "admin") as [E|E];
      cbn [negb] in Hrow.
    - split; [exact Hrow | contradiction].
    - apply filter_In in Hrow as [Hrow Hf]. apply String.eqb_eq in Hf. now split. }
  clear Hrow. destruct Hval as [Hrow Hfilter].
  unfold JsMap.values in Hrow. apply in_map_iff in Hrow as [[k row'] [E Hentry]].
  cbn [snd] in E. subst row'.
  destruct (keyed_email _ _ _ Hkeyed Hentry) as [Hemail [Hne Hlow]].
  pose proof (JsMap_In_get _ _ _ _ Hwf Hentry) as Hget.
  destruct (Hkeyed _ _ Hentry) as [_ Htrim].
  unfold proxyRow in Hp. rewrite Hemail in Hp.
  apply truthy_ne in Hne. rewrite Hne in Hp. cbn [negb] in Hp.
  destruct (status (performExactSearch k app)) eqn:Hs; cbn [isInvalid] in Hp; [|destruct Hp].
  destruct Hp as [<-|[]]. cbn [proxy_result proxy_tag].
  split; [exact Hs|]. split; [|split].
  - rewrite (performExactSearch_email k app). unfold JsMap.has. now rewrite Hget.
  - destruct (isPastDue _ today); [destruct (isInMainSource (dataSources app) k)|];
      cbn [Js.truthy negb andb]; auto;
      (destruct (JsMap.has k (buildQaMap (getQuickAuditAccounts app))); [|now left];
       destruct (JsMap.get k (buildQaMap (getQuickAuditAccounts app))) as [reason|] eqn:Hq;
       [|now left];
       apply buildQaMap_get in Hq as [Hq|[a [Ha [Hk Hr]]]]; [discriminate|];
       apply quick_audit_membership in Ha
         as [[e [r [_ [_ [_ [_ ->]]]]]]|[e [_ [Hnot ->]]]];
       [ cbn [notPaidAccount qa_reason] in Hr; subst reason; right; now right
       | cbn [notRegisteredAccount qa_email] in Hk; subst e;
         unfold JsMap.has in Hnot; rewrite Hget in Hnot; discriminate ]).
  - intros Hadmin Hfne. specialize (Hfilter Hadmin).
    rewrite <- Hlow in Hget.
    rewrite (performExactSearch_additional k app row Hget Hs).
    destruct (prop "Approver" row) as [v|] eqn:Hv.
    + rewrite (prop_trimmed _ _ _ Htrim Hv). cbn [Js.orElse] in *.
      destruct (Js.truthy v); [exact Hfilter|].
      exfalso. destruct approverFilter; [contradiction | discriminate].
    + exfalso. cbn [Js.orElse Js.toLowerCase] in Hfilter.
      destruct approverFilter; [contradiction | discriminate].
Qed.

(** Every account of the proxy dashboard is "Valid" and has an additional
    record; its tag is empty, "Authorization Expired" or "Not Paid", never
    "Not Registered"; and an approver other than the administrator sees
    only accounts whose approver is that approver, up to case. *)
Theorem proxy_accounts_are_valid_and_own :
  forall (dir : Directory) (approverFilter today : string) (p : ProxyAccount),
    In p (getProxyData (QueryRoute.loadAndProcessData dir) approverFilter today) ->
    status (proxy_result p) = Valid /\
    JsMap.has (email (proxy_result p))
              (additionalMap (QueryRoute.loadAndProcessData dir)) = true /\
    (proxy_tag p = "" \/ proxy_tag p = "Authorization Expired" \/ proxy_tag p = "Not Paid") /\
    (Js.toLowerCase approverFilter <> "admin" -> approverFilter <> "" ->
     Js.toLowerCase (approver (proxy_result p)) = Js.toLowerCase approverFilter).
Proof.
  intros dir approverFilter today p. apply proxy_tag_cases.
  - apply loaded_additionalMap_wf.
  - unfold QueryRoute.loadAndProcessData.
    destruct (loadConfFiles dir _ JsMap.empty JsSet.empty) as [conf known].
    cbn [additionalMap]. apply loadSpecialCsv_keyed.
Qed.

(** ** The spelling of the e-mail column *)

Lemma fillRow_prop_other :
  forall k headers index values row b,
    ~ In k headers ->
    prop k (fst (fillRow headers index values row b)) = prop k row.
Proof.
  intros k headers. induction headers as [|h headers IH]; intros index values row b Hk;
    cbn [fillRow fst]; [reflexivity|].
  rewrite IH by (intros H; apply Hk; now right).
  unfold prop. apply JsMap_get_set_other. intros ->. apply Hk. now left.
Qed.

Lemma dataLine_prop_other :
  forall k headers eh line row,
    ~ In k headers -> dataLine headers eh line = Some row -> prop k row = None.
Proof.
  intros k headers eh line row Hk. unfold dataLine.
  destruct (negb (Js.truthy line) || Js.onlyCommasAndSpace line); [discriminate|].
  destruct (List.length (parseCsvLine line) <? List.length headers); [discriminate|].
  destruct (indexOf eh headers) as [i|]; [|discriminate].
  destruct (negb (Js.truthy (nth i (parseCsvLine line) EmptyString))); [discriminate|].
  pose proof (fillRow_prop_other k headers 0 (parseCsvLine line) JsMap.empty false Hk) as H.
  destruct (fillRow headers 0 (parseCsvLine line) JsMap.empty false) as [r has].
  destruct has; [|discriminate]. intros E. injection E as <-. exact H.
Qed.

Lemma indexRows_no_key :
  forall data m,
    (forall row, In row data -> emailKey row = None) -> indexRows data m = m.
Proof.
  induction data as [|r data IH] using rev_ind; intros m H; [reflexivity|].
  rewrite indexRows_snoc, (H r) by (apply in_or_app; right; now left).
  apply IH. intros row Hin. apply H. apply in_or_app. now left.
Qed.

(** The index is filled from the column named [Email], in this very spelling.
    A file whose header line has no such column adds nothing to an index,
    even when it passes the header check, which ignores case, and gives
    rows. *)
Theorem only_the_Email_column_is_indexed :
  forall (text label : string) (expected : list string) (m : JsMap.t CsvRow),
    (forall line0 rest,
       Js.splitLines (Js.trim text) = line0 :: rest -> ~ In "Email" (headerNames line0)) ->
    indexRows (parseCsvData text label expected) m = m.
Proof.
  intros text label expected m Hhdr. apply indexRows_no_key. intros row.
  unfold parseCsvData, parseCsvLines, stripBOM.
  destruct (Js.splitLines (Js.trim text)) as [|line0 dataLines] eqn:El; [intros []|].
  specialize (Hhdr line0 dataLines eq_refl). unfold headerNames in Hhdr.
  destruct (negb (Js.truthy (Js.trim line0))); [intros []|].
  set (headers := filter Js.truthy (map Js.trim (parseCsvLine line0))) in *.
  destruct (List.length headers =? 0); [intros []|].
  destruct ((0 <? List.length _) && negb _); [intros []|].
  destruct (List.length (line0 :: dataLines) =? 1); [intros []|].
  destruct (find _ headers) as [eh|]; [|intros []].
  rewrite dataLoop_rowsOfLines. cbn [List.app]. unfold rowsOfLines.
  intros H. apply in_flat_map in H as [line [_ H]].
  destruct (dataLine headers eh line) as [r|] eqn:E; [|destruct H].
  destruct H as [<-|[]].
  unfold emailKey, propTrim. now rewrite (dataLine_prop_other _ _ _ _ _ Hhdr E).
Qed.

Lemma upper_case_header_has_no_Email :
  forall line0 rest,
    Js.splitLines (Js.trim csvUpperCaseHeader) = line0 :: rest ->
    ~ In "Email" (headerNames line0).
Proof.
  intros line0 rest H. vm_compute in H. injection H as <- _.
  vm_compute. intros [H|[H|[]]]; discriminate.
Defined.

Lemma only_the_Email_column_is_indexed_witness :
  parseCsvData csvUpperCaseHeader "alpha.csv" EXPECTED_MAIN_HEADERS =
    [[("EMAIL", "bob@x.com"); ("Product Configurations", "All Apps")]] /\
  indexRows (parseCsvData csvUpperCaseHeader "alpha.csv" EXPECTED_MAIN_HEADERS) JsMap.empty
    = JsMap.empty.
Proof.
  split; [reflexivity|].
  exact (only_the_Email_column_is_indexed csvUpperCaseHeader "alpha.csv"
           EXPECTED_MAIN_HEADERS JsMap.empty upper_case_header_has_no_Email).
Defined.

(** ** The expired listing and the proxy dashboard agree *)

Lemma getProxyData_In :
  forall app f today p,
    In p (getProxyData app f today) <->
    exists k row,
      In (k, row) (additionalMap app) /\
      (Js.toLowerCase f <> "admin" ->
       Js.toLowerCase (Js.orElse (prop "Approver" row) "") = Js.toLowerCase f) /\
      proxyRow app (buildQaMap (getQuickAuditAccounts app)) today row = Some p.
Proof.
  intros app f today p. unfold getProxyData. rewrite in_flat_map. split.
  - intros [row [Hrow Hp]].
    destruct (proxyRow app _ today row) as [p'|] eqn:E; [|destruct Hp].
    destruct Hp as [<-|[]].
    assert (Hval : In row (JsMap.values (additionalMap app)) /\
                   (Js.toLowerCase f <> "admin" ->
                    Js.toLowerCase (Js.orElse (prop "Approver" row) "") = Js.toLowerCase f)).
    { destruct (String.eqb_spec (Js.toLowerCase f) "admin") as [Ea|Ea]; cbn [negb] in Hrow.
      - split; [exact Hrow | contradiction].
      - apply filter_In in Hrow as [Hrow Hf]. apply String.eqb_eq in Hf. now split. }
    destruct Hval as [Hval Hf]. unfold JsMap.values in Hval.
    apply in_map_iff in Hval as [[k row'] [Er Hentry]]. cbn [snd] in Er. subst row'.
    exists k, row. now repeat split.
  - intros [k [row [Hentry [Hf Hp]]]]. exists row. split.
    + assert (Hval : In row (JsMap.values (additionalMap app))).
      { unfold JsMap.values. apply in_map_iff. now exists (k, row). }
      destruct (String.eqb_spec (Js.toLowerCase f) "admin") as [Ea|Ea]; cbn [negb];
        [exact Hval|].
      apply filter_In. split; [exact Hval|]. apply String.eqb_eq. now apply Hf.
    + rewrite Hp. now left.
Qed.

Lemma getExpiredAccounts_In :
  forall app f today x,
    In x (getExpiredAccounts app (Some f) today) <->
    exists k row,
      In (k, row) (additionalMap app) /\
      isPastDue (calculateExpirationDate (prop "rat" row) (prop "pov" row)) today = true /\
      isInMainSource (dataSources app) k = true /\
      x = listedAs k row /\
      (f <> "" -> Js.toLowerCase f <> "admin" ->
       Js.toLowerCase (Js.orElse (prop "Approver" row) "-") = Js.toLowerCase f).
Proof.
  intros app f today x. unfold getExpiredAccounts, filterApplies.
  destruct (Js.truthy f) eqn:Ht; cbn [andb].
  - apply truthy_ne in Ht.
    destruct (String.eqb_spec (Js.toLowerCase f) "admin") as [Ea|Ea]; cbn [negb].
    + rewrite expiredLoop_In. split.
      * intros [[]|[k [row [H1 [H2 [H3 H4]]]]]]. exists k, row.
        repeat split; auto. intros _ Hna. contradiction.
      * intros [k [row [H1 [H2 [H3 [H4 _]]]]]]. right. exists k, row. auto.
    + rewrite filter_In, expiredLoop_In, String.eqb_eq. split.
      * intros [[[]|[k [row [H1 [H2 [H3 H4]]]]]] Hf]. exists k, row.
        repeat split; auto. intros _ _. subst x. exact Hf.
      * intros [k [row [H1 [H2 [H3 [H4 Hf]]]]]]. split.
        -- right. exists k, row. auto.
        -- subst x. cbn [listedAs exp_approver]. now apply Hf.
  - apply truthy_false in Ht. rewrite expiredLoop_In. split.
    + intros [[]|[k [row [H1 [H2 [H3 H4]]]]]]. exists k, row.
      repeat split; auto. intros Hne. contradiction.
    + intros [k [row [H1 [H2 [H3 [H4 _]]]]]]. right. exists k, row. auto.
Qed.

Lemma main_source_is_valid :
  forall app k,
    (forall ds, In ds (dataSources app) -> JsMap.has (baseName ds) (confData app) = true) ->
    isInMainSource (dataSources app) (Js.toLowerCase k) = true ->
    status (performExactSearch k app) = Valid.
Proof.
  intros app k Hconf Hmain.
  apply (exact_search_found k app). intros E.
  pose proof (foundInOrgs_configured (Js.toLowerCase k) (confData app) (dataSources app) Hconf)
    as Hlen.
  rewrite E in Hlen. cbn [List.length] in Hlen.
  apply isInMainSource_true in Hmain as [ds [Hds Hh]].
  assert (Hin : In ds (filter (fun d => JsMap.has (Js.toLowerCase k) (dataMap d))
                              (dataSources app))).
  { apply filter_In. now split. }
  destruct (filter _ (dataSources app)); [destruct Hin | discriminate].
Qed.

Lemma approver_filters_agree :
  forall row f,
    f <> "" -> f <> "-" ->
    (Js.toLowerCase (Js.orElse (prop "Approver" row) "-") = Js.toLowerCase f <->
     Js.toLowerCase (Js.orElse (prop "Approver" row) "") = Js.toLowerCase f).
Proof.
  intros row f Hne Hdash.
  destruct (prop "Approver" row) as [v|]; cbn [Js.orElse]; [destruct (Js.truthy v)|];
    try tauto; cbn [Js.toLowerCase]; split; intros H.
  - exfalso. apply Hdash, toLowerCase_dash. now rewrite <- H.
  - exfalso. destruct f; [contradiction | discriminate].
  - exfalso. apply Hdash, toLowerCase_dash. now rewrite <- H.
  - exfalso. destruct f; [contradiction | discriminate].
Qed.

Lemma expired_agrees_with_proxy :
  forall app f today e,
    JsMap.wf (additionalMap app) -> keyedByEmail (additionalMap app) ->
    (forall ds, In ds (dataSources app) -> JsMap.has (baseName ds) (confData app) = true) ->
    f <> "" -> f <> "-" ->
    ((exists account,
        In account (getExpiredAccounts app (Some f) today) /\ exp_email account = e) <->
     (exists p,
        In p (getProxyData app f today) /\
        email (proxy_result p) = e /\ proxy_tag p = "Authorization Expired")).
Proof.
  intros app f today e Hwf Hkeyed Hconf Hne Hdash. split.
  - intros [account [Hin He]].
    apply getExpiredAccounts_In in Hin as [k [row [Hentry [Hdue [Hmain [-> Hf]]]]]].
    cbn [listedAs exp_email] in He. subst k.
    destruct (keyed_email _ _ _ Hkeyed Hentry) as [Hemail [Hkne Hlow]].
    assert (Hvalid : status (performExactSearch e app) = Valid).
    { apply main_source_is_valid; [exact Hconf | now rewrite Hlow]. }
    exists (mkProxy (performExactSearch e app) "Authorization Expired").
    split; [|split; [apply performExactSearch_email | reflexivity]].
    apply getProxyData_In. exists e, row. split; [exact Hentry|]. split.
    + intros Hna. apply approver_filters_agree; auto.
    + unfold proxyRow. rewrite Hemail. apply truthy_ne in Hkne. rewrite Hkne. cbn [negb].
      rewrite Hvalid. cbn [isInvalid]. rewrite Hdue, Hmain. reflexivity.
  - intros [p [Hin [He Htag]]].
    apply getProxyData_In in Hin as [k [row [Hentry [Hf Hp]]]].
    destruct (keyed_email _ _ _ Hkeyed Hentry) as [Hemail [Hkne Hlow]].
    unfold proxyRow in Hp. rewrite Hemail in Hp.
    apply truthy_ne in Hkne. rewrite Hkne in Hp. cbn [negb] in Hp.
    destruct (status (performExactSearch k app)) eqn:Hs; cbn [isInvalid] in Hp; [|discriminate].
    injection Hp as <-. cbn [proxy_result proxy_tag] in He, Htag.
    rewrite (performExactSearch_email k app) in He. subst k.
    exists (listedAs e row). split; [|reflexivity].
    apply getExpiredAccounts_In. exists e, row.
    destruct (isPastDue _ today) eqn:Hdue.
    + destruct (isInMainSource (dataSources app) e) eqn:Hmain.
      * repeat split; auto. intros _ Hna. apply approver_filters_agree; auto.
      * exfalso. cbn [Js.truthy negb andb] in Htag.
        destruct (JsMap.has e _); [|discriminate].
        destruct (JsMap.get e _) as [[|]|]; discriminate.
    + exfalso. cbn [Js.truthy negb andb] in Htag.
      destruct (JsMap.has e _); [|discriminate].
      destruct (JsMap.get e _) as [[|]|]; discriminate.
Qed.

(** For loaded data and an approver role other than the empty string and
    "-", the e-mails of the expired listing are exactly the e-mails that the
    proxy dashboard tags "Authorization Expired". *)
Theorem expired_listing_is_the_expired_tag :
  forall (dir : Directory) (role today e : string),
    role <> "" -> role <> "-" ->
    ((exists account,
        In account (getExpiredAccounts (QueryRoute.loadAndProcessData dir) (Some role) today) /\
        exp_email account = e) <->
     (exists p,
        In p (getProxyData (QueryRoute.loadAndProcessData dir) role today) /\
        email (proxy_result p) = e /\ proxy_tag p = "Authorization Expired")).
Proof.
  intros dir role today e Hne Hdash. apply expired_agrees_with_proxy; auto.
  - apply loaded_additionalMap_wf.
  - unfold QueryRoute.loadAndProcessData.
    destruct (loadConfFiles dir _ JsMap.empty JsSet.empty) as [conf known].
    cbn [additionalMap]. apply loadSpecialCsv_keyed.
  - intros ds Hds.
    apply (proj2 (loadedFrom_sources dir _ (or_introl eq_refl)) ds Hds).
Qed.

(** ** The form of an expiration *)

Lemma digitChar_isDigit_mod : forall n, Js.isDigit (DateFns.digitChar (n mod 10)) = true.
Proof.
  intros n. pose proof (Z.mod_pos_bound n 10 ltac:(lia)) as H.
  assert (Hc : forall k, (0 <= k < 10)%Z -> Js.isDigit (DateFns.digitChar k) = true).
  { intros k Hk.
    assert (E : (k = 0 \/ k = 1 \/ k = 2 \/ k = 3 \/ k = 4 \/ k = 5 \/ k = 6 \/ k = 7
                 \/ k = 8 \/ k = 9)%Z) by lia.
    repeat (destruct E as [->|E]; [reflexivity|]). subst k. reflexivity. }
  now apply Hc.
Qed.

Lemma decimal_loop_digits :
  forall fuel n acc,
    allb Js.isDigit acc = true -> allb Js.isDigit (DateFns.decimal_loop fuel n acc) = true.
Proof.
  induction fuel as [|fuel IH]; intros n acc Hacc; cbn [DateFns.decimal_loop]; [exact Hacc|].
  assert (H : allb Js.isDigit (String (DateFns.digitChar (n mod 10)) acc) = true).
  { cbn [allb]. now rewrite digitChar_isDigit_mod, Hacc. }
  destruct (n <? 10)%Z; [exact H | now apply IH].
Qed.

Lemma zeros_digits : forall k, allb Js.isDigit (DateFns.zeros k) = true.
Proof. induction k as [|k IH]; [reflexivity | exact IH]. Qed.

Lemma zeros_length : forall k, String.length (DateFns.zeros k) = k.
Proof. induction k as [|k IH]; cbn; [reflexivity | now rewrite IH]. Qed.

Lemma append_length :
  forall a b : string, String.length (a ++ b) = String.length a + String.length b.
Proof. induction a as [|c a IH]; intros b; cbn; [reflexivity | now rewrite IH]. Qed.

Lemma addLeadingZeros_digits :
  forall n len,
    allb Js.isDigit (DateFns.addLeadingZeros n len) = true /\
    len <= String.length (DateFns.addLeadingZeros n len).
Proof.
  intros n len. unfold DateFns.addLeadingZeros. split.
  - rewrite allb_app, zeros_digits. cbn [andb]. unfold DateFns.decimal.
    now apply decimal_loop_digits.
  - rewrite append_length, zeros_length. lia.
Qed.

Lemma format_digits :
  forall d,
    allb Js.isDigit (DateFns.format_yyyyMMdd d) = true /\
    8 <= String.length (DateFns.format_yyyyMMdd d).
Proof.
  intros d. unfold DateFns.format_yyyyMMdd.
  set (y := if (0 <? DateFns.year d)%Z then DateFns.year d else (1 - DateFns.year d)%Z).
  destruct (addLeadingZeros_digits y 4) as [Hy Ly].
  destruct (addLeadingZeros_digits (DateFns.month d) 2) as [Hm Lm].
  destruct (addLeadingZeros_digits (DateFns.day d) 2) as [Hd Ld].
  split.
  - now rewrite !allb_app, Hy, Hm, Hd.
  - rewrite !append_length. lia.
Qed.

(** Whatever the two columns hold, the computed expiration is "-",
    "Rolling", or a string of eight or more decimal digits; it is "Rolling"
    exactly when the approval date, trimmed, is the word "rolling" in any
    case, whatever the validity period. *)
Theorem expiration_is_dash_rolling_or_digits :
  forall (approvalDateStr validityPeriod : option string),
    let r := calculateExpirationDate approvalDateStr validityPeriod in
    (r = "-" \/ r = "Rolling" \/
     (allb Js.isDigit r = true /\ 8 <= String.length r)) /\
    (r = "Rolling" <-> isRolling approvalDateStr = true).
Proof.
  intros a v r.
  assert (Hform : forall d, DateFns.format_yyyyMMdd d <> "Rolling").
  { intros d E. pose proof (proj1 (format_digits d)) as H. rewrite E in H. discriminate. }
  unfold r, calculateExpirationDate.
  destruct (isRolling a) eqn:Hr.
  - rewrite !orb_true_r. split; [right; now left | tauto].
  - rewrite orb_false_r.
    destruct (negb (Js.truthyOpt a) || negb (Js.truthyOpt v) || isDash a || isDash v).
    + split; [now left|]. split; discriminate.
    + destruct a as [a|]; [|split; [now left | split; discriminate]].
      destruct v as [v|]; [|split; [now left | split; discriminate]].
      destruct (DateFns.parse_yyyyMMdd (Js.trim a)) as [d|];
        [|split; [now left | split; discriminate]].
      destruct (matchPeriod (Js.toLowerCase (Js.trim v))) as [[digits unit]|];
        [|split; [now left | split; discriminate]].
      destruct (if Ascii.eqb unit "y" then _ else _) as [e|];
        [|split; [now left | split; discriminate]].
      split.
      * right. right. apply format_digits.
      * split; [intros E; now apply Hform in E | discriminate].
Qed.

(** ** Base names *)

Lemma lastComponent_loop_free :
  forall s cur last,
    freeOf "/" s ->
    NodePath.lastComponent_loop s cur last =
      if Js.truthy (cur ++ s) then (cur ++ s)%string else last.
Proof.
  unfold freeOf. induction s as [|c s IH]; intros cur last H; cbn [allb] in H;
    cbn [NodePath.lastComponent_loop].
  - now rewrite append_nil_r.
  - apply andb_prop in H as [Hc Hs]. apply negb_true_iff in Hc. rewrite Hc.
    rewrite (IH _ _ Hs), append_snoc. reflexivity.
Qed.

Lemma lastComponent_free : forall p, freeOf "/" p -> NodePath.lastComponent p = p.
Proof.
  intros p H. unfold NodePath.lastComponent. rewrite (lastComponent_loop_free _ _ _ H).
  cbn [append]. now destruct p.
Qed.

Lemma endsWith_fuel_spec :
  forall n s e,
    n <= String.length s -> Js.endsWith_fuel n s e = true ->
    exists pre, String.length pre = n /\ s = (pre ++ e)%string.
Proof.
  induction n as [|n IH]; intros s e Hn H; cbn [Js.endsWith_fuel] in H.
  - apply String.eqb_eq in H. subst. now exists EmptyString.
  - destruct s as [|c s]; [cbn in Hn; lia|].
    cbn [String.length] in Hn. apply IH in H as [pre [Hl ->]]; [|lia].
    exists (String c pre). cbn. now rewrite Hl.
Qed.

Lemma substring_prefix :
  forall pre s, String.substring 0 (String.length pre) (pre ++ s) = pre.
Proof.
  induction pre as [|c pre IH]; intros s; cbn.
  - now destruct s.
  - now rewrite IH.
Qed.

Lemma span_fst_cons :
  forall p c s,
    fst (Js.span p (String c s)) = if p c then String c (fst (Js.span p s)) else EmptyString.
Proof.
  intros p c s. cbn [Js.span]. destruct (p c); [|reflexivity].
  now destruct (Js.span p s).
Qed.

Lemma span_fst_stop :
  forall p a rest,
    match rest with EmptyString => True | String c _ => p c = false end ->
    fst (Js.span p (a ++ rest)) = fst (Js.span p a).
Proof.
  intros p a rest Hrest. induction a as [|x a IH].
  - cbn [append]. destruct rest as [|c rest]; [reflexivity|].
    rewrite span_fst_cons, Hrest. reflexivity.
  - cbn [append]. rewrite !span_fst_cons, IH. reflexivity.
Qed.

Lemma span_fst_all :
  forall p a, allb p a = true -> fst (Js.span p a) = a.
Proof.
  intros p a. induction a as [|x a IH]; cbn [allb]; intros H; [reflexivity|].
  apply andb_prop in H as [Hx Ha]. now rewrite span_fst_cons, Hx, (IH Ha).
Qed.

Lemma getBaseName_leadingAlnum :
  forall fileName, freeOf "/" fileName -> getBaseName fileName = Js.leadingAlnum fileName.
Proof.
  intros p Hfree. unfold getBaseName, NodePath.basename.
  rewrite (lastComponent_free _ Hfree). cbn [Js.truthy andb].
  destruct (String.length ".csv" <=? String.length p) eqn:Hlen; [|reflexivity].
  destruct (String.eqb_spec p ".csv") as [->|Hne]; [reflexivity|].
  destruct (Js.truthy p); cbn [negb]; [|reflexivity].
  destruct (Js.endsWith p ".csv") eqn:He; cbn [andb]; [|reflexivity].
  unfold Js.endsWith in He. apply andb_prop in He as [_ He].
  apply endsWith_fuel_spec in He as [pre [Hl ->]]; [|lia].
  rewrite append_length. 
  replace (String.length pre + String.length ".csv" - String.length ".csv")
    with (String.length pre) by lia.
  rewrite substring_prefix. unfold Js.leadingAlnum. symmetry.
  now apply span_fst_stop.
Qed.

(** The base name of a file is the run of letters and digits its name
    starts with, whatever follows: ["alpha.conf"], ["alpha.csv"] and
    ["alpha-2024.csv"] all have the base name ["alpha"]. *)
Theorem base_name_is_leading_alphanumerics :
  forall (name rest : string),
    allb Js.isAlnum name = true -> notAlnumNext rest -> freeOf "/" rest ->
    getBaseName (name ++ rest) = name.
Proof.
  intros name rest Hname Hrest Hfree.
  assert (Hslash : freeOf "/" (name ++ rest)).
  { unfold freeOf in *. rewrite allb_app, Hfree, andb_true_r.
    apply (allb_impl Js.isAlnum); [|exact Hname].
    intros [[] [] [] [] [] [] [] []]; vm_compute; congruence. }
  rewrite (getBaseName_leadingAlnum _ Hslash). unfold Js.leadingAlnum.
  rewrite span_fst_stop by exact Hrest. now apply span_fst_all.
Qed.

Lemma base_name_is_leading_alphanumerics_witness :
  getBaseName "alpha-2024.csv" = "alpha" /\ getBaseName "alpha.conf" = "alpha".
Proof.
  split.
  - apply (base_name_is_leading_alphanumerics "alpha" "-2024.csv"); reflexivity.
  - apply (base_name_is_leading_alphanumerics "alpha" ".conf"); reflexivity.
Defined.

(** ** Scenarios of the dashboard *)

Example proxy_dashboard_scenario :
  getProxyData (QueryRoute.loadAndProcessData dirProxy) "admin" "20250901" =
    [ bobProxy;
      mkProxy (mkSearchResult "amy@x.com" Valid "Alpha School" "All Apps plan" 2 "dave"
                              "20250801" "20260801") "Not Paid";
      mkProxy (mkSearchResult "eve@x.com" Valid "Alpha School" "All Apps plan" 2 "dave"
                              "20250801" "20260801") "" ] /\
  getProxyData (QueryRoute.loadAndProcessData dirProxy) "Carol" "20250901" = [bobProxy].
Proof. split; vm_compute; reflexivity. Qed.

Lemma bob_in_carols_proxy :
  In bobProxy (getProxyData (QueryRoute.loadAndProcessData dirProxy) "Carol" "20250901").
Proof. vm_compute. left. reflexivity. Defined.

Lemma proxy_accounts_are_valid_and_own_witness :
  status (proxy_result bobProxy) = Valid /\
  JsMap.has (email (proxy_result bobProxy))
            (additionalMap (QueryRoute.loadAndProcessData dirProxy)) = true /\
  (proxy_tag bobProxy = "" \/ proxy_tag bobProxy = "Authorization Expired"
   \/ proxy_tag bobProxy = "Not Paid") /\
  (Js.toLowerCase "Carol" <> "admin" -> "Carol" <> "" ->
   Js.toLowerCase (approver (proxy_result bobProxy)) = Js.toLowerCase "Carol").
Proof.
  exact (proxy_accounts_are_valid_and_own dirProxy "Carol" "20250901" bobProxy
           bob_in_carols_proxy).
Defined.

Lemma carol_not_empty : "Carol" <> "".
Proof. discriminate. Defined.

Lemma bob_in_carols_expired_listing :
  exists account,
    In account (getExpiredAccounts (QueryRoute.loadAndProcessData dirProxy) (Some "Carol")
                                   "20250901") /\
    exp_email account = "bob@x.com".
Proof.
  exists (mkExpired "bob@x.com" "alpha" "carol" "20250101").
  split; [vm_compute; left; reflexivity | reflexivity].
Defined.

Lemma expired_listing_is_the_expired_tag_witness :
  exists p,
    In p (getProxyData (QueryRoute.loadAndProcessData dirProxy) "Carol" "20250901") /\
    email (proxy_result p) = "bob@x.com" /\ proxy_tag p = "Authorization Expired".
Proof.
  exact (proj1 (expired_listing_is_the_expired_tag dirProxy "Carol" "20250901" "bob@x.com"
                  carol_not_empty carol_not_dash)
               bob_in_carols_expired_listing).
Defined.

Lemma index_holds_last_row_of_each_email_witness :
  JsMap.get "bob@x.com"
            (indexRows [ [("Email", "bob@x.com"); ("Product Configurations", "All Apps")];
                         [("Email", " Bob@X.com"); ("Product Configurations", "Photoshop")] ]
                       JsMap.empty)
    = Some [("Email", " Bob@X.com"); ("Product Configurations", "Photoshop")].
Proof.
  apply (proj2 (index_holds_last_row_of_each_email _ _ _)).
  exists [[("Email", "bob@x.com"); ("Product Configurations", "All Apps")]], [].
  split; [reflexivity|]. split; [reflexivity|]. intros r [].
Defined.

Lemma quick_audit_lists_exactly_witness :
  In (notRegisteredAccount "amy@x.com") (getQuickAuditAccounts appAudit).
Proof.
  apply (proj2 (proj1 (quick_audit_lists_exactly appAudit)
                      (notRegisteredAccount "amy@x.com"))).
  right. exists "amy@x.com". split; [|split; reflexivity].
  exists (mkDataSource "alpha" [("bob@x.com", rowBob); ("amy@x.com", rowAmy)]).
  split; [now left|]. split; [reflexivity|]. right. now left.
Defined.
